(** * Streaming JSON builders (package json): model and properties

    The Go package exposes two incremental writers, [Builder] for JSON
    objects and [ListBuilder] for JSON lists.  Both are mutable structs that
    are handed around by pointer, share one [io.Writer] with every nested
    child, and keep their first failure in the exported field [Err].

    The model below keeps that shape.  A [world] holds the store of
    [Builder] structs, the store of [ListBuilder] structs and the sinks
    behind the [io.Writer] handles; every method is a computation in the
    state monad [M] over worlds, with the receiver given as a pointer. *)

From stdpp Require Import base option list strings gmap.
From Stdlib Require Import ZArith Strings.Byte Strings.String DecimalString Lia.

(** ** Constants of the package *)

(** [type writerState int] with its three untyped constants. *)
Definition writerState := Z.

Definition startState : writerState := 0%Z.
Definition openedState : writerState := 1%Z.
Definition closedState : writerState := 2%Z.

(** A byte slice; string literals are turned into bytes by [bytes]. *)
Definition bytes (s : string) : list byte := list_byte_of_string s.

Definition openBraceBytes : list byte := bytes "{".
Definition closeBraceBytes : list byte := bytes "}".
Definition openBracketBytes : list byte := bytes "[".
Definition closeBracketBytes : list byte := bytes "]".
Definition colonBytes : list byte := bytes ":".
Definition commaBytes : list byte := bytes ",".

(** ** Values, errors and sinks *)

(** The [interface{}] arguments of [Add] and [AddAll]: strings, integers
    and booleans, and a channel as a value that [json.Marshal] rejects. *)
Inductive value : Type :=
| VString (s : string)
| VInt (n : Z)
| VBool (b : bool)
| VChan.

(** Go [error] values.  [errors_New msg] is [errors.New(msg)];
    [fmt_Errorf_not_string i v] is the error [AddAll] formats for the
    argument [v] at index [i]; [foreign_error] stands for errors made
    outside the package, by a sink's [Write] or by a caller's builder
    function. *)
Inductive error : Type :=
| errors_New (msg : string)
| fmt_Errorf_not_string (i : nat) (v : value)
| foreign_error (code : nat).

(** An [io.Writer] is a handle on a sink held by the world. *)
Definition io_Writer := nat.

(** What one call of [Write] does: accept the whole slice, or accept only
    its first [n] bytes and return an error. *)
Inductive outcome : Type :=
| WriteOk
| WriteFail (n : nat) (err : error).

(** A sink: the bytes accepted so far and the outcomes of its coming
    [Write] calls; once the script is used up every write succeeds (a
    [bytes.Buffer] is a sink with an empty script). *)
Record Sink : Type := mkSink {
  written : list byte;
  script : list outcome
}.

Definition Sink_Write (s : Sink) (p : list byte) : Sink * option error :=
  match script s with
  | [] => (mkSink (written s ++ p) [], None)
  | WriteOk :: rest => (mkSink (written s ++ p) rest, None)
  | WriteFail n err :: rest => (mkSink (written s ++ take n p) rest, Some err)
  end.

#[global] Instance Sink_inhabited : Inhabited Sink := populate (mkSink [] []).

(** [type encoder interface]; [newEncoder] only ever builds a
    [basicEncoder], which embeds the [io.Writer] it writes to. *)
Inductive encoder : Type :=
| basicEncoder (w : io_Writer).

Definition newEncoder (w : io_Writer) : encoder := basicEncoder w.

(** [builderCommon] is implemented by [*Builder] and [*ListBuilder]; an
    interface value is one of the two pointers. *)
Inductive builderCommon : Type :=
| BuilderPtr (p : nat)
| ListBuilderPtr (p : nat).

(** ** The two structs *)

Module Builder.
Record t : Type := mk {
  state : writerState;
  w : io_Writer;
  e : encoder;
  subB : option builderCommon;
  Err : option error
}.
Definition set_state (s : writerState) (b : t) : t :=
  mk s (w b) (e b) (subB b) (Err b).
Definition set_subB (c : option builderCommon) (b : t) : t :=
  mk (state b) (w b) (e b) c (Err b).
Definition set_Err (err : option error) (b : t) : t :=
  mk (state b) (w b) (e b) (subB b) err.
End Builder.

Module ListBuilder.
Record t : Type := mk {
  state : writerState;
  w : io_Writer;
  e : encoder;
  subB : option builderCommon;
  Err : option error
}.
Definition set_state (s : writerState) (b : t) : t :=
  mk s (w b) (e b) (subB b) (Err b).
Definition set_subB (c : option builderCommon) (b : t) : t :=
  mk (state b) (w b) (e b) c (Err b).
Definition set_Err (err : option error) (b : t) : t :=
  mk (state b) (w b) (e b) (subB b) err.
End ListBuilder.

#[global] Instance Builder_inhabited : Inhabited Builder.t :=
  populate (Builder.mk 0%Z 0 (basicEncoder 0) None None).
#[global] Instance ListBuilder_inhabited : Inhabited ListBuilder.t :=
  populate (ListBuilder.mk 0%Z 0 (basicEncoder 0) None None).

(** ** Worlds and the state monad *)

(** The store: [*Builder] and [*ListBuilder] pointers are keys of
    [builders] and [lists]; [nextB] and [nextL] are the next pointers an
    allocation hands out. *)
Record world : Type := World {
  builders : gmap nat Builder.t;
  nextB : nat;
  lists : gmap nat ListBuilder.t;
  nextL : nat;
  sinks : gmap nat Sink
}.

Definition M (A : Type) : Type := world → A * world.

#[global] Instance M_ret : MRet M := λ A a σ, (a, σ).
#[global] Instance M_bind : MBind M :=
  λ A B k m σ, let '(a, σ') := m σ in k a σ'.

(** The effect of a computation, its result dropped. *)
Definition exec {A} (m : M A) (σ : world) : world := (m σ).2.
Definition eval {A} (m : M A) (σ : world) : A := (m σ).1.

Definition getB (b : nat) : M Builder.t := λ σ, (builders σ !!! b, σ).
Definition getL (b : nat) : M ListBuilder.t := λ σ, (lists σ !!! b, σ).

Definition modB (b : nat) (f : Builder.t → Builder.t) : M unit := λ σ,
  (tt, World (<[b := f (builders σ !!! b)]> (builders σ)) (nextB σ)
             (lists σ) (nextL σ) (sinks σ)).
Definition modL (b : nat) (f : ListBuilder.t → ListBuilder.t) : M unit := λ σ,
  (tt, World (builders σ) (nextB σ)
             (<[b := f (lists σ !!! b)]> (lists σ)) (nextL σ) (sinks σ)).

(** [&Builder{...}]: a fresh struct in the store. *)
Definition newB (v : Builder.t) : M nat := λ σ,
  (nextB σ, World (<[nextB σ := v]> (builders σ)) (S (nextB σ))
                  (lists σ) (nextL σ) (sinks σ)).
Definition newL (v : ListBuilder.t) : M nat := λ σ,
  (nextL σ, World (builders σ) (nextB σ)
                  (<[nextL σ := v]> (lists σ)) (S (nextL σ)) (sinks σ)).

(** [w.Write(x)]; the byte count it returns is dropped by every caller. *)
Definition io_Write (w : io_Writer) (x : list byte) : M (option error) := λ σ,
  let '(s, err) := Sink_Write (sinks σ !!! w) x in
  (err, World (builders σ) (nextB σ) (lists σ) (nextL σ) (<[w := s]> (sinks σ))).

(** The two methods of [builderCommon], dispatched on the pointer. *)
Definition builderCommon_closed (c : builderCommon) : M bool :=
  match c with
  | BuilderPtr p => B ← getB p; mret (Builder.state B =? closedState)%Z
  | ListBuilderPtr p => B ← getL p; mret (ListBuilder.state B =? closedState)%Z
  end.

Definition builderCommon_err (c : builderCommon) : M (option error) :=
  match c with
  | BuilderPtr p => B ← getB p; mret (Builder.Err B)
  | ListBuilderPtr p => B ← getL p; mret (ListBuilder.Err B)
  end.

(** [BuilderFunc] and [ListBuilderFunc]: caller code run on a pointer. *)
Definition BuilderFunc : Type := nat → M (option error).
Definition ListBuilderFunc : Type := nat → M (option error).

Section Methods.

(** [json.Marshal] of the standard library: the encoding and the error. *)
Variable Marshal : value → list byte * option error.

(** [basicEncoder.encode]. *)
Definition encode (en : encoder) (arg : value) : M (option error) :=
  match en with
  | basicEncoder w =>
      let '(bs, err) := Marshal arg in
      if err is Some _ then mret None else io_Write w bs
  end.

(** *** Builder *)

Definition Builder_write (b : nat) (x : list byte) : M unit :=
  B ← getB b;
  if Builder.Err B is None then
    err ← io_Write (Builder.w B) x; modB b (Builder.set_Err err)
  else mret tt.

Definition Builder_init (b : nat) : M unit :=
  B ← getB b;
  (if negb (Builder.state B =? startState)%Z
   then modB b (Builder.set_Err
                  (Some (errors_New "Builder init'd after being mutated")))
   else mret tt);;
  Builder_write b openBraceBytes.

Definition NewBuilder (w : io_Writer) : M nat :=
  b ← newB (Builder.mk startState w (newEncoder w) None None);
  Builder_init b;;
  mret b.

Definition Builder_checkSub (b : nat) : M (option error) :=
  B ← getB b;
  (match Builder.Err B, Builder.subB B with
   | None, Some sub =>
       err ← builderCommon_err sub;
       (match err with
        | Some _ => modB b (Builder.set_Err err)
        | None =>
            c ← builderCommon_closed sub;
            if negb c
            then modB b (Builder.set_Err
                           (Some (errors_New "A sub-Builder was not closed")))
            else mret tt
        end);;
       modB b (Builder.set_subB None)
   | _, _ => mret tt
   end);;
  B' ← getB b;
  mret (Builder.Err B').

Definition Builder_preadd (b : nat) (key : string) : M (option error) :=
  B ← getB b;
  (if (Builder.state B =? closedState)%Z
   then modB b (Builder.set_Err
                  (Some (errors_New "Builder mutated after Close()")))
   else mret tt);;
  err ← Builder_checkSub b;
  if err is Some _ then mret err else
  B1 ← getB b;
  (if (Builder.state B1 =? startState)%Z
   then modB b (Builder.set_state openedState)
   else Builder_write b commaBytes);;
  B2 ← getB b;
  kerr ← encode (Builder.e B2) (VString key);
  modB b (Builder.set_Err kerr);;
  Builder_write b colonBytes;;
  B3 ← getB b;
  mret (Builder.Err B3).

Definition Builder_Add (b : nat) (key : string) (v : value) : M unit :=
  err ← Builder_preadd b key;
  if err is Some _ then mret tt else
  B ← getB b;
  verr ← encode (Builder.e B) v;
  modB b (Builder.set_Err verr).

(** The loop of [AddAll]: [args] is what is left of the slice from index
    [i] on. *)
Fixpoint Builder_AddAll_loop (b : nat) (i : nat) (args : list value)
  : M unit :=
  match args with
  | k :: v :: rest =>
      B ← getB b;
      if Builder.Err B is None then
        match k with
        | VString key =>
            Builder_Add b key v;;
            Builder_AddAll_loop b (i + 2) rest
        | _ => modB b (Builder.set_Err (Some (fmt_Errorf_not_string i k)))
        end
      else mret tt
  | _ => mret tt
  end.

Definition Builder_AddAll (b : nat) (args : list value) : M unit :=
  if negb (List.length args mod 2 =? 0)
  then modB b (Builder.set_Err
                 (Some (errors_New "AddAll takes an even number of args")))
  else Builder_AddAll_loop b 0 args.

(** *** ListBuilder, up to its own [Close] *)

Definition ListBuilder_write (b : nat) (x : list byte) : M unit :=
  B ← getL b;
  if ListBuilder.Err B is None then
    err ← io_Write (ListBuilder.w B) x; modL b (ListBuilder.set_Err err)
  else mret tt.

Definition ListBuilder_init (b : nat) : M unit :=
  B ← getL b;
  (if negb (ListBuilder.state B =? startState)%Z
   then modL b (ListBuilder.set_Err
                  (Some (errors_New "ListBuilder init'd after being mutated")))
   else mret tt);;
  ListBuilder_write b openBracketBytes.

Definition NewListBuilder (w : io_Writer) : M nat :=
  b ← newL (ListBuilder.mk startState w (newEncoder w) None None);
  ListBuilder_init b;;
  mret b.

Definition ListBuilder_checkSub (b : nat) : M (option error) :=
  B ← getL b;
  (match ListBuilder.Err B, ListBuilder.subB B with
   | None, Some sub =>
       err ← builderCommon_err sub;
       (match err with
        | Some _ => modL b (ListBuilder.set_Err err)
        | None =>
            c ← builderCommon_closed sub;
            if negb c
            then modL b (ListBuilder.set_Err
                           (Some (errors_New "A sub-Builder was not closed")))
            else mret tt
        end);;
       modL b (ListBuilder.set_subB None)
   | _, _ => mret tt
   end);;
  B' ← getL b;
  mret (ListBuilder.Err B').

Definition ListBuilder_preadd (b : nat) : M (option error) :=
  B ← getL b;
  (if (ListBuilder.state B =? closedState)%Z
   then modL b (ListBuilder.set_Err
                  (Some (errors_New "ListWriter mutated after Close()")))
   else mret tt);;
  err ← ListBuilder_checkSub b;
  if err is Some _ then mret err else
  B1 ← getL b;
  (if (ListBuilder.state B1 =? startState)%Z
   then modL b (ListBuilder.set_state openedState)
   else ListBuilder_write b commaBytes);;
  B2 ← getL b;
  mret (ListBuilder.Err B2).

Definition ListBuilder_Add (b : nat) (v : value) : M unit :=
  err ← ListBuilder_preadd b;
  if err is Some _ then mret tt else
  B ← getL b;
  verr ← encode (ListBuilder.e B) v;
  modL b (ListBuilder.set_Err verr).

Fixpoint ListBuilder_AddAll (b : nat) (args : list value) : M unit :=
  match args with
  | v :: rest =>
      B ← getL b;
      if ListBuilder.Err B is None then
        ListBuilder_Add b v;;
        ListBuilder_AddAll b rest
      else mret tt
  | [] => mret tt
  end.

(** *** Close *)

Definition Builder_Close (b : nat) : M unit :=
  B ← getB b;
  if (Builder.state B =? closedState)%Z
  then modB b (Builder.set_Err
                 (Some (errors_New "ListBuilder mutated after Close()")))
  else
    err ← Builder_checkSub b;
    if err is Some _ then mret tt else
    Builder_write b closeBraceBytes;;
    modB b (Builder.set_state closedState).

Definition ListBuilder_Close (b : nat) : M unit :=
  B ← getL b;
  if (ListBuilder.state B =? closedState)%Z
  then modL b (ListBuilder.set_Err
                 (Some (errors_New "ListWriter mutated after Close()")))
  else
    err ← ListBuilder_checkSub b;
    if err is Some _ then mret tt else
    ListBuilder_write b closeBracketBytes;;
    modL b (ListBuilder.set_state closedState).

(** *** Nested writers *)

(** The child is built whatever [preadd] returned; the result is the
    child pointer, never nil. *)
Definition Builder_AddObject (b : nat) (key : string) : M (option nat) :=
  Builder_preadd b key;;
  B ← getB b;
  subB ← newB (Builder.mk 0%Z (Builder.w B) (Builder.e B) None None);
  Builder_init subB;;
  modB b (Builder.set_subB (Some (BuilderPtr subB)));;
  mret (Some subB).

Definition Builder_AddList (b : nat) (key : string) : M (option nat) :=
  Builder_preadd b key;;
  B ← getB b;
  subB ← newL (ListBuilder.mk 0%Z (Builder.w B) (Builder.e B) None None);
  ListBuilder_init subB;;
  modB b (Builder.set_subB (Some (ListBuilderPtr subB)));;
  mret (Some subB).

Definition Builder_AddObjectFunc (b : nat) (key : string) (f : BuilderFunc)
  : M unit :=
  err ← Builder_preadd b key;
  if err is Some _ then mret tt else
  B ← getB b;
  subB ← newB (Builder.mk 0%Z (Builder.w B) (Builder.e B) None None);
  Builder_init subB;;
  ferr ← f subB;
  modB b (Builder.set_Err ferr);;
  B1 ← getB b;
  (if Builder.Err B1 is None
   then C ← getB subB; modB b (Builder.set_Err (Builder.Err C))
   else mret tt);;
  Builder_Close subB.

Definition Builder_AddListFunc (b : nat) (key : string) (f : ListBuilderFunc)
  : M unit :=
  err ← Builder_preadd b key;
  if err is Some _ then mret tt else
  B ← getB b;
  subB ← newL (ListBuilder.mk 0%Z (Builder.w B) (Builder.e B) None None);
  ListBuilder_init subB;;
  ferr ← f subB;
  modB b (Builder.set_Err ferr);;
  B1 ← getB b;
  (if Builder.Err B1 is None
   then C ← getL subB; modB b (Builder.set_Err (ListBuilder.Err C))
   else mret tt);;
  ListBuilder_Close subB.

(** [ListBuilder.AddObject] returns nil when [preadd] fails, and does not
    store the child in [subB]. *)
Definition ListBuilder_AddObject (b : nat) : M (option nat) :=
  err ← ListBuilder_preadd b;
  if err is Some _ then mret None else
  B ← getL b;
  subB ← newB (Builder.mk 0%Z (ListBuilder.w B) (ListBuilder.e B) None None);
  Builder_init subB;;
  mret (Some subB).

Definition ListBuilder_AddList (b : nat) : M (option nat) :=
  ListBuilder_preadd b;;
  B ← getL b;
  subB ← newL (ListBuilder.mk 0%Z (ListBuilder.w B) (ListBuilder.e B) None None);
  ListBuilder_init subB;;
  modL b (ListBuilder.set_subB (Some (ListBuilderPtr subB)));;
  mret (Some subB).

Definition ListBuilder_AddObjectFunc (b : nat) (f : BuilderFunc) : M unit :=
  err ← ListBuilder_preadd b;
  if err is Some _ then mret tt else
  B ← getL b;
  subB ← newB (Builder.mk 0%Z (ListBuilder.w B) (ListBuilder.e B) None None);
  Builder_init subB;;
  ferr ← f subB;
  modL b (ListBuilder.set_Err ferr);;
  B1 ← getL b;
  (if ListBuilder.Err B1 is None
   then C ← getB subB; modL b (ListBuilder.set_Err (Builder.Err C))
   else mret tt);;
  Builder_Close subB.

Definition ListBuilder_AddListFunc (b : nat) (f : ListBuilderFunc) : M unit :=
  err ← ListBuilder_preadd b;
  if err is Some _ then mret tt else
  B ← getL b;
  subB ← newL (ListBuilder.mk 0%Z (ListBuilder.w B) (ListBuilder.e B) None None);
  ListBuilder_init subB;;
  ferr ← f subB;
  modL b (ListBuilder.set_Err ferr);;
  B1 ← getL b;
  (if ListBuilder.Err B1 is None
   then C ← getL subB; modL b (ListBuilder.set_Err (ListBuilder.Err C))
   else mret tt);;
  ListBuilder_Close subB.

End Methods.

(** ** The standard library's [json.Marshal] on the values above

    Strings are quoted and escaped the way [encoding/json] escapes ASCII
    text (quote and backslash by a backslash, newline, carriage return and
    tab by their letters, other control characters and the three HTML
    characters by [\u00XX]); bytes from 0x80 on are passed through, which
    is what the library does for well-formed UTF-8 other than U+2028 and
    U+2029.  Integers print in decimal, booleans as [true] and [false], and
    a channel is refused with an error. *)

Definition hex_digit (n : N) : byte :=
  nth (N.to_nat n) (bytes "0123456789abcdef") x30.

Definition escape_u00 (c : byte) : list byte :=
  bytes "\u00" ++ [hex_digit (Byte.to_N c / 16); hex_digit (Byte.to_N c mod 16)].

Definition escape_byte (c : byte) : list byte :=
  match c with
  | x22 => bytes "\" ++ [x22]
  | x5c => bytes "\\"
  | x0a => bytes "\n"
  | x0d => bytes "\r"
  | x09 => bytes "\t"
  | x3c | x3e | x26 => escape_u00 c
  | _ => if (Byte.to_N c <? 32)%N then escape_u00 c else [c]
  end.

Definition marshal_string (s : string) : list byte :=
  [x22] ++ mbind escape_byte (bytes s) ++ [x22].

Definition json_Marshal (v : value) : list byte * option error :=
  match v with
  | VString s => (marshal_string s, None)
  | VInt n => (bytes (NilEmpty.string_of_int (Z.to_int n)), None)
  | VBool true => (bytes "true", None)
  | VBool false => (bytes "false", None)
  | VChan => ([], Some (foreign_error 0))
  end.

(** A world with nothing allocated and every sink an empty buffer. *)
Definition empty_world : world := World ∅ 0 ∅ 0 ∅.

(** A world whose sink 0 follows the given script of outcomes. *)
Definition scripted_world (outcomes : list outcome) : world :=
  World ∅ 0 ∅ 0 {[ 0 := mkSink [] outcomes ]}.

(** The bytes a sink has accepted. *)
Definition output (w : io_Writer) (σ : world) : list byte :=
  written (sinks σ !!! w).

(** ** Operations as data

    One call on a writer, so that statements can range over "any
    operation". *)
Inductive BuilderOp : Type :=
| BAdd (key : string) (v : value)
| BAddAll (args : list value)
| BAddObject (key : string)
| BAddList (key : string)
| BAddObjectFunc (key : string) (f : BuilderFunc)
| BAddListFunc (key : string) (f : ListBuilderFunc)
| BClose.

Inductive ListBuilderOp : Type :=
| LAdd (v : value)
| LAddAll (args : list value)
| LAddObject
| LAddList
| LAddObjectFunc (f : BuilderFunc)
| LAddListFunc (f : ListBuilderFunc)
| LClose.

Definition Builder_call (Marshal : value → list byte * option error)
    (b : nat) (op : BuilderOp) : M unit :=
  match op with
  | BAdd key v => Builder_Add Marshal b key v
  | BAddAll args => Builder_AddAll Marshal b args
  | BAddObject key => Builder_AddObject Marshal b key;; mret tt
  | BAddList key => Builder_AddList Marshal b key;; mret tt
  | BAddObjectFunc key f => Builder_AddObjectFunc Marshal b key f
  | BAddListFunc key f => Builder_AddListFunc Marshal b key f
  | BClose => Builder_Close b
  end.

Definition ListBuilder_call (Marshal : value → list byte * option error)
    (b : nat) (op : ListBuilderOp) : M unit :=
  match op with
  | LAdd v => ListBuilder_Add Marshal b v
  | LAddAll args => ListBuilder_AddAll Marshal b args
  | LAddObject => ListBuilder_AddObject b;; mret tt
  | LAddList => ListBuilder_AddList b;; mret tt
  | LAddObjectFunc f => ListBuilder_AddObjectFunc b f
  | LAddListFunc f => ListBuilder_AddListFunc b f
  | LClose => ListBuilder_Close b
  end.

(** The operations that are [AddAll]. *)
Definition is_AddAll_B (op : BuilderOp) : bool :=
  if op is BAddAll _ then true else false.
Definition is_AddAll_L (op : ListBuilderOp) : bool :=
  if op is LAddAll _ then true else false.

(** A sink whose coming writes all succeed. *)
Definition reliable (w : io_Writer) (σ : world) : Prop :=
  script (sinks σ !!! w) = [].

(** The errors of the "mutated after Close()" family; the three sites
    that create one name a [Builder], a [ListBuilder] or a [ListWriter]. *)
Definition mutated_after_close (err : option error) : Prop :=
  ∃ who : string, err = Some (errors_New (who +:+ " mutated after Close()")).

(** The pairs [AddAll] is given, laid out as its argument slice. *)
Fixpoint flat_pairs (kvs : list (string * value)) : list value :=
  match kvs with
  | [] => []
  | (key, v) :: rest => VString key :: v :: flat_pairs rest
  end.

(** The type assertion [args[i].(string)] of [AddAll] succeeds. *)
Definition is_string (v : value) : bool :=
  if v is VString _ then true else false.

(** The two statements by which every nested writer is made: the struct
    literal that shares the parent's sink and encoder, and [init]. *)
Definition construct_Builder (w : io_Writer) (en : encoder) : M nat :=
  c ← newB (Builder.mk 0%Z w en None None);
  Builder_init c;;
  mret c.

Definition construct_ListBuilder (w : io_Writer) (en : encoder) : M nat :=
  c ← newL (ListBuilder.mk 0%Z w en None None);
  ListBuilder_init c;;
  mret c.

(** The builder functions [f], [g] and [h] of the package's tests. *)
Definition test_f : BuilderFunc := λ w,
  Builder_Add json_Marshal w "baz" (VInt 7);;
  mret None.

Definition test_g : ListBuilderFunc := λ w,
  ListBuilder_Add json_Marshal w (VInt 1);;
  ListBuilder_Add json_Marshal w (VInt 2);;
  ListBuilder_Add json_Marshal w (VInt 3);;
  mret None.

Definition test_h : BuilderFunc := λ w,
  Builder_AddObjectFunc json_Marshal w "corge" test_f;;
  Builder_AddObjectFunc json_Marshal w "grault"
    (λ w, Builder_AddListFunc json_Marshal w "garply" test_g;; mret None);;
  mret None.

(** Scenario E: an object whose entry [foo] is built by [f]. *)
Definition scenario_E : M nat :=
  j ← NewBuilder 0;
  Builder_AddObjectFunc json_Marshal j "foo" test_f;;
  Builder_Close j;;
  mret j.

(** A run of [Add] calls, in order. *)
Fixpoint Builder_adds (Marshal : value → list byte * option error)
    (b : nat) (kvs : list (string * value)) : M unit :=
  match kvs with
  | [] => mret tt
  | (key, v) :: rest => Builder_Add Marshal b key v;; Builder_adds Marshal b rest
  end.

Fixpoint ListBuilder_adds (Marshal : value → list byte * option error)
    (b : nat) (vs : list value) : M unit :=
  match vs with
  | [] => mret tt
  | v :: rest => ListBuilder_Add Marshal b v;; ListBuilder_adds Marshal b rest
  end.

(** Compact JSON: the members one after the other, a comma before each
    but the first. *)
Fixpoint comma_each (parts : list (list byte)) : list byte :=
  match parts with
  | [] => []
  | p :: ps => commaBytes ++ p ++ comma_each ps
  end.

Definition join_comma (parts : list (list byte)) : list byte :=
  match parts with
  | [] => []
  | p :: ps => p ++ comma_each ps
  end.

(** An object entry: the marshalled key, a colon, the marshalled value. *)
Definition entry_bytes (Marshal : value → list byte * option error)
    (kv : string * value) : list byte :=
  (Marshal (VString kv.1)).1 ++ colonBytes ++ (Marshal kv.2).1.

Definition marshals (Marshal : value → list byte * option error)
    (v : value) : Prop :=
  (Marshal v).2 = None.

(** Scenarios A, B and C of the specification. *)
Definition scenario_A : M nat :=
  j ← NewBuilder 0;
  Builder_Add json_Marshal j "foo" (VString "bar");;
  Builder_Close j;;
  mret j.

Definition scenario_B : M nat :=
  j ← NewListBuilder 0;
  ListBuilder_Add json_Marshal j (VInt 1);;
  ListBuilder_Add json_Marshal j (VInt 2);;
  ListBuilder_Add json_Marshal j (VInt 3);;
  ListBuilder_Close j;;
  mret j.

Definition scenario_C : M nat :=
  j ← NewBuilder 0;
  Builder_AddAll json_Marshal j
    [VString "1"; VString "one"; VString "2"; VString "two"];;
  Builder_Close j;;
  mret j.

(** What a builder function hands to its parent: its own error if it
    returned one, the child's [Err] otherwise. *)
Definition propagated (ferr cerr : option error) : option error :=
  if ferr is Some _ then ferr else cerr.

(** [wp m Q σ]: running [m] from [σ] ends in a result and a world that
    satisfy [Q]. *)
Definition wp {A} (m : M A) (Q : A → world → Prop) (σ : world) : Prop :=
  Q (m σ).1 (m σ).2.

(** [framed R m]: every run of [m] relates the world it starts from to
    the world it ends in by [R]. *)
Definition framed {A} (R : world → world → Prop) (m : M A) : Prop :=
  ∀ σ, R σ (exec m σ).

(** What the methods of the [Builder] at [b] leave alone, children they
    allocate apart: the allocation counters, every [ListBuilder], every
    other [Builder], and the sink and encoder of [b] itself. *)
Definition Builder_frame (b : nat) (σ σ' : world) : Prop :=
  nextB σ' = nextB σ ∧ nextL σ' = nextL σ ∧ lists σ' = lists σ ∧
  (∀ b', b' ≠ b → builders σ' !!! b' = builders σ !!! b') ∧
  Builder.w (builders σ' !!! b) = Builder.w (builders σ !!! b) ∧
  Builder.e (builders σ' !!! b) = Builder.e (builders σ !!! b).

Definition ListBuilder_frame (b : nat) (σ σ' : world) : Prop :=
  nextB σ' = nextB σ ∧ nextL σ' = nextL σ ∧ builders σ' = builders σ ∧
  (∀ b', b' ≠ b → lists σ' !!! b' = lists σ !!! b') ∧
  ListBuilder.w (lists σ' !!! b) = ListBuilder.w (lists σ !!! b) ∧
  ListBuilder.e (lists σ' !!! b) = ListBuilder.e (lists σ !!! b).

(** A child that makes its parent's [checkSub] fail: it carries an error
    or is not closed. *)
Definition child_pending (c : builderCommon) (σ : world) : Prop :=
  eval (builderCommon_err c) σ ≠ None ∨ eval (builderCommon_closed c) σ = false.

(** ** Documents

    A document to be written: a value handed to [Add], or an object or a
    list built member by member, either through a builder function
    ([AddObjectFunc], [AddListFunc]) or through the child pointer that
    [AddObject] and [AddList] return, closed by the caller. *)
#[warnings="-register-all"]
Inductive node : Type :=
| NValue (v : value)
| NObjectFunc (ms : list (string * node))
| NListFunc (es : list node)
| NObject (ms : list (string * node))
| NList (es : list node).

Section Build.

Variable Marshal : value → list byte * option error.

(** The calls that write [n] under [key] into the [Builder] at [b], and as
    the next element into the [ListBuilder] at [b]. *)
Fixpoint build_member (b : nat) (key : string) (n : node) {struct n}
  : M unit :=
  match n with
  | NValue v => Builder_Add Marshal b key v
  | NObjectFunc ms =>
      Builder_AddObjectFunc Marshal b key (λ c,
        (fix go (ms : list (string * node)) : M unit :=
           match ms with
           | [] => mret tt
           | (k, m) :: ms' => build_member c k m;; go ms'
           end) ms;;
        mret None)
  | NListFunc es =>
      Builder_AddListFunc Marshal b key (λ c,
        (fix go (es : list node) : M unit :=
           match es with
           | [] => mret tt
           | m :: es' => build_elem c m;; go es'
           end) es;;
        mret None)
  | NObject ms =>
      c ← Builder_AddObject Marshal b key;
      if c is Some c then
        (fix go (ms : list (string * node)) : M unit :=
           match ms with
           | [] => mret tt
           | (k, m) :: ms' => build_member c k m;; go ms'
           end) ms;;
        Builder_Close c
      else mret tt
  | NList es =>
      c ← Builder_AddList Marshal b key;
      if c is Some c then
        (fix go (es : list node) : M unit :=
           match es with
           | [] => mret tt
           | m :: es' => build_elem c m;; go es'
           end) es;;
        ListBuilder_Close c
      else mret tt
  end
with build_elem (b : nat) (n : node) {struct n} : M unit :=
  match n with
  | NValue v => ListBuilder_Add Marshal b v
  | NObjectFunc ms =>
      ListBuilder_AddObjectFunc b (λ c,
        (fix go (ms : list (string * node)) : M unit :=
           match ms with
           | [] => mret tt
           | (k, m) :: ms' => build_member c k m;; go ms'
           end) ms;;
        mret None)
  | NListFunc es =>
      ListBuilder_AddListFunc b (λ c,
        (fix go (es : list node) : M unit :=
           match es with
           | [] => mret tt
           | m :: es' => build_elem c m;; go es'
           end) es;;
        mret None)
  | NObject ms =>
      c ← ListBuilder_AddObject b;
      if c is Some c then
        (fix go (ms : list (string * node)) : M unit :=
           match ms with
           | [] => mret tt
           | (k, m) :: ms' => build_member c k m;; go ms'
           end) ms;;
        Builder_Close c
      else mret tt
  | NList es =>
      c ← ListBuilder_AddList b;
      if c is Some c then
        (fix go (es : list node) : M unit :=
           match es with
           | [] => mret tt
           | m :: es' => build_elem c m;; go es'
           end) es;;
        ListBuilder_Close c
      else mret tt
  end.

Fixpoint build_members (b : nat) (ms : list (string * node)) : M unit :=
  match ms with
  | [] => mret tt
  | (k, m) :: ms' => build_member b k m;; build_members b ms'
  end.

Fixpoint build_elems (b : nat) (es : list node) : M unit :=
  match es with
  | [] => mret tt
  | m :: es' => build_elem b m;; build_elems b es'
  end.

(** The compact JSON text of a document. *)
Fixpoint render (n : node) : list byte :=
  match n with
  | NValue v => (Marshal v).1
  | NObjectFunc ms | NObject ms =>
      openBraceBytes ++
      join_comma (map (λ km : string * node,
                         (Marshal (VString km.1)).1 ++ colonBytes ++
                         render km.2) ms) ++
      closeBraceBytes
  | NListFunc es | NList es =>
      openBracketBytes ++ join_comma (map render es) ++ closeBracketBytes
  end.

Definition render_member (km : string * node) : list byte :=
  (Marshal (VString km.1)).1 ++ colonBytes ++ render km.2.

(** Every key and every value of the document marshals. *)
Fixpoint node_ok (n : node) : Prop :=
  match n with
  | NValue v => marshals Marshal v
  | NObjectFunc ms | NObject ms =>
      (fix all (ms : list (string * node)) : Prop :=
         match ms with
         | [] => True
         | (k, m) :: ms' =>
             marshals Marshal (VString k) ∧ node_ok m ∧ all ms'
         end) ms
  | NListFunc es | NList es =>
      (fix all (es : list node) : Prop :=
         match es with
         | [] => True
         | m :: es' => node_ok m ∧ all es'
         end) es
  end.

End Build.

(** The child that [checkSub] lets pass: none, or one that is closed and
    carries no error. *)
Definition child_fine (sub : option builderCommon) (σ : world) : Prop :=
  match sub with
  | None => True
  | Some c =>
      eval (builderCommon_err c) σ = None ∧
      eval (builderCommon_closed c) σ = true
  end.

(** The separator [preadd] writes in state [st]. *)
Definition sep (st : writerState) : list byte :=
  if decide (st = startState) then [] else commaBytes.

(** The members written from state [st] on. *)
Definition members_text (st : writerState) (parts : list (list byte))
  : list byte :=
  match parts with
  | [] => []
  | p :: ps => sep st ++ p ++ comma_each ps
  end.

(** The state after writing [parts] from state [st]. *)
Definition state_after {A} (st : writerState) (parts : list A) : writerState :=
  if parts is [] then st else openedState.

(** [keeps P Q σ σ']: from [σ] to [σ'] nothing is deallocated, and the
    [Builder] structs at the pointers in [P] and the [ListBuilder] structs
    at the pointers in [Q] are the same. *)
Definition keeps (P Q : nat → Prop) (σ σ' : world) : Prop :=
  nextB σ ≤ nextB σ' ∧ nextL σ ≤ nextL σ' ∧
  (∀ k, P k → builders σ' !!! k = builders σ !!! k) ∧
  (∀ l, Q l → lists σ' !!! l = lists σ !!! l).

(** What building a document in the writer at [b] leaves alone: the
    structs allocated before, other than [b] itself. *)
Definition Builder_grows (b : nat) (σ σ' : world) : Prop :=
  keeps (λ k, k < nextB σ ∧ k ≠ b) (λ l, l < nextL σ) σ σ'.

Definition ListBuilder_grows (b : nat) (σ σ' : world) : Prop :=
  keeps (λ k, k < nextB σ) (λ l, l < nextL σ ∧ l ≠ b) σ σ'.

Section Specs.

Variable Marshal : value → list byte * option error.

(** What building [n] as a member of a ready [Builder], and as an
    element of a ready [ListBuilder], achieves. *)
Definition member_spec (n : node) : Prop :=
  ∀ b key w st sub out σ,
    b < nextB σ →
    builders σ !!! b = Builder.mk st w (basicEncoder w) sub None →
    st = startState ∨ st = openedState →
    child_fine sub σ →
    sinks σ !!! w = mkSink out [] →
    marshals Marshal (VString key) →
    node_ok Marshal n →
    let σ' := exec (build_member Marshal b key n) σ in
    (∃ sub', builders σ' !!! b =
               Builder.mk openedState w (basicEncoder w) sub' None ∧
             child_fine sub' σ') ∧
    sinks σ' !!! w =
      mkSink (out ++ sep st ++ render_member Marshal (key, n)) [] ∧
    Builder_grows b σ σ'.

Definition elem_spec (n : node) : Prop :=
  ∀ b w st sub out σ,
    b < nextL σ →
    lists σ !!! b = ListBuilder.mk st w (basicEncoder w) sub None →
    st = startState ∨ st = openedState →
    child_fine sub σ →
    sinks σ !!! w = mkSink out [] →
    node_ok Marshal n →
    let σ' := exec (build_elem Marshal b n) σ in
    (∃ sub', lists σ' !!! b =
               ListBuilder.mk openedState w (basicEncoder w) sub' None ∧
             child_fine sub' σ') ∧
    sinks σ' !!! w = mkSink (out ++ sep st ++ render Marshal n) [] ∧
    ListBuilder_grows b σ σ'.

End Specs.

(** A writer that takes the next member: allocated, neither closed nor
    in error, its child (if any) closed without error, on a sink whose
    coming writes all succeed. *)
Definition Builder_ready (b : nat) (w : io_Writer) (σ : world) : Prop :=
  b < nextB σ ∧ reliable w σ ∧
  ∃ st sub,
    builders σ !!! b = Builder.mk st w (basicEncoder w) sub None ∧
    (st = startState ∨ st = openedState) ∧ child_fine sub σ.

Definition ListBuilder_ready (b : nat) (w : io_Writer) (σ : world) : Prop :=
  b < nextL σ ∧ reliable w σ ∧
  ∃ st sub,
    lists σ !!! b = ListBuilder.mk st w (basicEncoder w) sub None ∧
    (st = startState ∨ st = openedState) ∧ child_fine sub σ.

(** Two documents with every kind of member. *)
Definition doc_example : list (string * node) :=
  [("a", NValue (VInt 1));
   ("o", NObjectFunc [("x", NList [NValue (VInt 1); NValue (VInt 2)])]);
   ("l", NListFunc [NObject []; NValue (VBool true)]);
   ("p", NObject [("q", NListFunc []); ("r", NValue (VString "s"))])].

Definition list_example : list node :=
  [NValue (VInt 1);
   NObject [("k", NListFunc [NValue (VBool false)])];
   NList [NObjectFunc []; NValue (VString "s")];
   NListFunc []].

(** A run of calls on one writer, in order. *)
Fixpoint Builder_calls (Marshal : value → list byte * option error)
    (b : nat) (ops : list BuilderOp) : M unit :=
  match ops with
  | [] => mret tt
  | op :: rest => Builder_call Marshal b op;; Builder_calls Marshal b rest
  end.

Fixpoint ListBuilder_calls (Marshal : value → list byte * option error)
    (b : nat) (ops : list ListBuilderOp) : M unit :=
  match ops with
  | [] => mret tt
  | op :: rest =>
      ListBuilder_call Marshal b op;; ListBuilder_calls Marshal b rest
  end.

(** The operations that construct a child whatever [preadd] returned. *)
Definition constructs_child_B (op : BuilderOp) : bool :=
  match op with
  | BAddObject _ | BAddList _ => true
  | _ => false
  end.

Definition constructs_child_L (op : ListBuilderOp) : bool :=
  if op is LAddList then true else false.

(** The error [checkSub] records for a child that carries an error or is
    not closed: the child's own error first. *)
Definition child_error (c : builderCommon) (σ : world) : error :=
  if eval (builderCommon_err c) σ is Some e then e
  else errors_New "A sub-Builder was not closed".

(** ** The streaming encoder

    [newEncoder] does not use it, but the package keeps a second encoder
    that hands the value to a [json.Encoder] of the standard library, whose
    output goes through a writer that trims the newline [Encode] adds. *)

(** [w.Write(x)] with the count it returns: the bytes the sink accepted. *)
Definition io_Write_n (w : io_Writer) (x : list byte)
  : M (nat * option error) := λ σ,
  let '(err, σ') := io_Write w x σ in
  ((List.length (written (sinks σ' !!! w)) -
    List.length (written (sinks σ !!! w)), err), σ').

Definition newline : byte := x0a.

(** [trimTrailingNewlineWriter.Write]; [None] is the run-time panic of
    [p[len(p)-1]] on an empty slice. *)
Definition trimTrailingNewlineWriter_Write (w : io_Writer) (p : list byte)
  : M (option (nat * option error)) :=
  match last p with
  | None => mret None
  | Some c =>
      if Byte.eqb c newline
      then r ← io_Write_n w (take (List.length p - 1) p); mret (Some r)
      else r ← io_Write_n w p; mret (Some r)
  end.

(** A [json.Encoder] made by [json.NewEncoder] over a
    [trimTrailingNewlineWriter{w}]: the writer and the error of the first
    failed write, which [Encode] keeps. *)
Record json_Encoder : Type := mkEncoder {
  enc_w : io_Writer;
  enc_err : option error
}.

Definition newStreamingEncoder (w : io_Writer) : json_Encoder :=
  mkEncoder w None.

Section Streaming.

Variable Marshal : value → list byte * option error.

(** [streamingEncoder.encode], that is [Encode] of [json.Encoder]: return
    the kept error if there is one; marshal the value and return the
    error if that fails; else write the encoding and a newline in one
    [Write], keeping and returning its error.  The result is the error
    and the encoder after the call, or [None] for a panic. *)
Definition streamingEncoder_encode (enc : json_Encoder) (arg : value)
  : M (option (option error * json_Encoder)) :=
  match enc_err enc with
  | Some e => mret (Some (Some e, enc))
  | None =>
      let '(bs, err) := Marshal arg in
      match err with
      | Some e => mret (Some (Some e, enc))
      | None =>
          r ← trimTrailingNewlineWriter_Write (enc_w enc) (bs ++ [newline]);
          match r with
          | None => mret None
          | Some (_, werr) =>
              mret (Some (werr, mkEncoder (enc_w enc)
                                  (if werr is Some _ then werr
                                   else enc_err enc)))
          end
      end
  end.

End Streaming.

(** ** The package's benchmark

    [BenchmarkBuilder] of the test file: [b.N] rounds, each building the
    object of the first [benchLoad] numbers on one [bytes.Buffer], which
    is reset at the end of the round.  The result is the error handed to
    [b.Fatal], if any round ends with one; [b.ReportAllocs] and
    [b.SetBytes], which only record figures, are left out. *)
Definition strconv_Itoa (i : nat) : string :=
  NilEmpty.string_of_int (Z.to_int (Z.of_nat i)).

(** [for i := 0; i < benchLoad; i++ { j.Add(strconv.Itoa(i), i) }], with
    [k] rounds left from [i] on. *)
Fixpoint BenchmarkBuilder_adds (j : nat) (i k : nat) : M unit :=
  match k with
  | 0 => mret tt
  | S k' =>
      Builder_Add json_Marshal j (strconv_Itoa i) (VInt (Z.of_nat i));;
      BenchmarkBuilder_adds j (S i) k'
  end.

(** [buf.Reset()]. *)
Definition bytes_Buffer_Reset (buf : io_Writer) : M unit := λ σ,
  (tt, World (builders σ) (nextB σ) (lists σ) (nextL σ)
             (<[buf := mkSink [] (script (sinks σ !!! buf))]> (sinks σ))).

Fixpoint BenchmarkBuilder (buf : io_Writer) (benchLoad N : nat)
  : M (option error) :=
  match N with
  | 0 => mret None
  | S N' =>
      j ← NewBuilder buf;
      BenchmarkBuilder_adds j 0 benchLoad;;
      Builder_Close j;;
      B ← getB j;
      if Builder.Err B is Some e then mret (Some e) else
      bytes_Buffer_Reset buf;;
      BenchmarkBuilder buf benchLoad N'
  end.

(** The members of the benchmark's object. *)
Definition bench_members (i k : nat) : list (string * node) :=
  map (λ n, (strconv_Itoa n, NValue (VInt (Z.of_nat n)))) (seq i k).

(** ** The closing delimiter over a run of calls *)

(** [Close] gets to its write: the writer is not closed and [checkSub]
    returns nil. *)
Definition Builder_Close_writes (b : nat) (σ : world) : bool :=
  negb (Builder.state (builders σ !!! b) =? closedState)%Z &&
  (if eval (Builder_checkSub b) σ is None then true else false).

Definition ListBuilder_Close_writes (b : nat) (σ : world) : bool :=
  negb (ListBuilder.state (lists σ !!! b) =? closedState)%Z &&
  (if eval (ListBuilder_checkSub b) σ is None then true else false).

(** The number of [Close] calls in a run that get to their write. *)
Fixpoint Builder_closing_writes (Marshal : value → list byte * option error)
    (b : nat) (ops : list BuilderOp) (σ : world) : nat :=
  match ops with
  | [] => 0
  | op :: rest =>
      (if op is BClose
       then (if Builder_Close_writes b σ then 1 else 0)
       else 0) +
      Builder_closing_writes Marshal b rest
        (exec (Builder_call Marshal b op) σ)
  end.

Fixpoint ListBuilder_closing_writes
    (Marshal : value → list byte * option error)
    (b : nat) (ops : list ListBuilderOp) (σ : world) : nat :=
  match ops with
  | [] => 0
  | op :: rest =>
      (if op is LClose
       then (if ListBuilder_Close_writes b σ then 1 else 0)
       else 0) +
      ListBuilder_closing_writes Marshal b rest
        (exec (ListBuilder_call Marshal b op) σ)
  end.

(** Caller code that frees nothing: the allocation counters do not go
    back.  Go has no way to free a struct; the model's functions are
    arbitrary, so this is said of the builder functions of a run. *)
Definition allocates_only (f : nat → M (option error)) : Prop :=
  ∀ c σ, nextB σ ≤ nextB (exec (f c) σ) ∧ nextL σ ≤ nextL (exec (f c) σ).

Definition BuilderOp_allocates_only (op : BuilderOp) : Prop :=
  match op with
  | BAddObjectFunc _ f | BAddListFunc _ f => allocates_only f
  | _ => True
  end.

Definition ListBuilderOp_allocates_only (op : ListBuilderOp) : Prop :=
  match op with
  | LAddObjectFunc f | LAddListFunc f => allocates_only f
  | _ => True
  end.

(** The opening delimiter of the child an operation constructs. *)
Definition child_delimiter_B (op : BuilderOp) : option (list byte) :=
  match op with
  | BAddObject _ => Some openBraceBytes
  | BAddList _ => Some openBracketBytes
  | _ => None
  end.

Definition child_delimiter_L (op : ListBuilderOp) : option (list byte) :=
  if op is LAddList then Some openBracketBytes else None.

(** * Properties *)

(** Unfolding of the methods down to the store, and the clean-up of the
    store reads that it leaves. *)
Ltac unfold_methods :=
  cbv [exec eval Builder_call ListBuilder_call
       Builder_AddObject Builder_AddList Builder_AddObjectFunc
       Builder_AddListFunc ListBuilder_AddObject ListBuilder_AddList
       ListBuilder_AddObjectFunc ListBuilder_AddListFunc
       Builder_Close Builder_checkSub Builder_write Builder_init NewBuilder
       Builder_preadd Builder_Add Builder_AddAll
       ListBuilder_Close ListBuilder_checkSub ListBuilder_write
       ListBuilder_init NewListBuilder ListBuilder_preadd ListBuilder_Add
       builderCommon_err builderCommon_closed encode newEncoder output
       getB getL modB modL newB newL io_Write mbind mret M_bind M_ret].

Ltac heap_simpl :=
  repeat first
    [ progress simpl
    | rewrite lookup_total_insert_eq
    | rewrite lookup_total_insert_ne by (first [assumption | congruence | lia])
    | match goal with H : ?x = _ |- context [?x] => rewrite H end ].

Lemma bind_run {A B} (m : M A) (k : A → M B) (σ : world) :
  (m ≫= k) σ = k (m σ).1 (m σ).2.
Proof. unfold mbind, M_bind. destruct (m σ); reflexivity. Qed.

Lemma Zeqb_closed_false (st : writerState) :
  st ≠ closedState → (st =? closedState)%Z = false.
Proof. intros H. apply Z.eqb_neq, H. Qed.

Lemma wp_bind {A B} (m : M A) (k : A → M B) Q σ :
  wp m (λ a σ', wp (k a) Q σ') σ → wp (m ≫= k) Q σ.
Proof. unfold wp. rewrite bind_run. done. Qed.

Lemma wp_ret {A} (a : A) (Q : A → world → Prop) σ : Q a σ → wp (mret a) Q σ.
Proof. done. Qed.

Lemma wp_run {A} (m : M A) (P : A → world → Prop) σ :
  wp m P σ → P (eval m σ) (exec m σ).
Proof. done. Qed.

Lemma wp_getB b Q σ : Q (builders σ !!! b) σ → wp (getB b) Q σ.
Proof. done. Qed.
Lemma wp_getL b Q σ : Q (lists σ !!! b) σ → wp (getL b) Q σ.
Proof. done. Qed.
Lemma wp_modB b f Q σ :
  Q tt (World (<[b := f (builders σ !!! b)]> (builders σ)) (nextB σ)
              (lists σ) (nextL σ) (sinks σ)) →
  wp (modB b f) Q σ.
Proof. done. Qed.
Lemma wp_modL b f Q σ :
  Q tt (World (builders σ) (nextB σ)
              (<[b := f (lists σ !!! b)]> (lists σ)) (nextL σ) (sinks σ)) →
  wp (modL b f) Q σ.
Proof. done. Qed.
Lemma wp_newB v Q σ :
  Q (nextB σ) (World (<[nextB σ := v]> (builders σ)) (S (nextB σ))
                     (lists σ) (nextL σ) (sinks σ)) →
  wp (newB v) Q σ.
Proof. done. Qed.
Lemma wp_newL v Q σ :
  Q (nextL σ) (World (builders σ) (nextB σ)
                     (<[nextL σ := v]> (lists σ)) (S (nextL σ)) (sinks σ)) →
  wp (newL v) Q σ.
Proof. done. Qed.
Lemma wp_io_Write w x Q σ :
  (∀ s err, Sink_Write (sinks σ !!! w) x = (s, err) →
     Q err (World (builders σ) (nextB σ) (lists σ) (nextL σ)
                  (<[w := s]> (sinks σ)))) →
  wp (io_Write w x) Q σ.
Proof.
  intros H. unfold wp, io_Write.
  destruct (Sink_Write (sinks σ !!! w) x) as [s err] eqn:E. by apply H.
Qed.
Lemma wp_call {A} (m : M A) Q σ :
  (∀ a σ', m σ = (a, σ') → Q a σ') → wp m Q σ.
Proof. intros H. unfold wp. destruct (m σ) eqn:E. by apply H. Qed.

Ltac wp_cbn :=
  cbn [builders lists sinks nextB nextL
       Builder.state Builder.w Builder.e Builder.subB Builder.Err
       Builder.set_state Builder.set_subB Builder.set_Err
       ListBuilder.state ListBuilder.w ListBuilder.e ListBuilder.subB
       ListBuilder.Err ListBuilder.set_state ListBuilder.set_subB
       ListBuilder.set_Err fst snd negb newEncoder].

Ltac wp_simpl :=
  cbv beta iota; wp_cbn;
  repeat first
    [ rewrite lookup_total_insert_eq
    | rewrite lookup_total_insert_ne by (first [assumption | congruence | lia])
    | match goal with H : ?x = _ |- context [?x] =>
        tryif is_var x then fail else rewrite H
      end
    | progress wp_cbn
    | progress change (startState =? closedState)%Z with false
    | progress change (openedState =? closedState)%Z with false
    | progress change (closedState =? closedState)%Z with true
    | progress change (startState =? startState)%Z with true
    | progress change (openedState =? startState)%Z with false
    | progress change (closedState =? startState)%Z with false
    | progress change (0 =? startState)%Z with true
    | progress change (0 =? closedState)%Z with false ].

Ltac wp_step :=
  lazymatch goal with
  | |- wp (mbind _ _) _ _ => apply wp_bind
  | |- wp (mret _) _ _ => apply wp_ret; wp_simpl
  | |- wp (getB _) _ _ => apply wp_getB; wp_simpl
  | |- wp (getL _) _ _ => apply wp_getL; wp_simpl
  | |- wp (modB _ _) _ _ => apply wp_modB; wp_simpl
  | |- wp (modL _ _) _ _ => apply wp_modL; wp_simpl
  | |- wp (newB _) _ _ => apply wp_newB; wp_simpl
  | |- wp (newL _) _ _ => apply wp_newL; wp_simpl
  | |- wp (io_Write _ _) _ _ =>
      apply wp_io_Write; wp_simpl;
      let s := fresh "s" in let err := fresh "err" in let Hsw := fresh "Hsw" in
      intros s err Hsw;
      try (cbn [Sink_Write script written] in Hsw;
           injection Hsw as <- <-);
      wp_simpl
  | |- wp (let '(_, _) := ?x in _) _ _ => destruct x eqn:?; wp_simpl
  | |- wp (if ?c then _ else _) _ _ => destruct c eqn:?; wp_simpl
  | |- wp (match ?c with _ => _ end) _ _ => destruct c eqn:?; wp_simpl
  | |- wp (Builder_write _ _) _ _ => unfold Builder_write
  | |- wp (Builder_init _) _ _ => unfold Builder_init
  | |- wp (Builder_checkSub _) _ _ => unfold Builder_checkSub
  | |- wp (Builder_preadd _ _ _) _ _ => unfold Builder_preadd
  | |- wp (Builder_Add _ _ _ _) _ _ => unfold Builder_Add
  | |- wp (Builder_Close _) _ _ => unfold Builder_Close
  | |- wp (NewBuilder _) _ _ => unfold NewBuilder
  | |- wp (ListBuilder_write _ _) _ _ => unfold ListBuilder_write
  | |- wp (ListBuilder_init _) _ _ => unfold ListBuilder_init
  | |- wp (ListBuilder_checkSub _) _ _ => unfold ListBuilder_checkSub
  | |- wp (ListBuilder_preadd _) _ _ => unfold ListBuilder_preadd
  | |- wp (ListBuilder_Add _ _ _) _ _ => unfold ListBuilder_Add
  | |- wp (ListBuilder_Close _) _ _ => unfold ListBuilder_Close
  | |- wp (NewListBuilder _) _ _ => unfold NewListBuilder
  | |- wp (encode _ _ _) _ _ => unfold encode; wp_simpl
  | |- wp (builderCommon_err _) _ _ => unfold builderCommon_err
  | |- wp (builderCommon_closed _) _ _ => unfold builderCommon_closed
  | |- wp (Builder_AddObject _ _ _) _ _ => unfold Builder_AddObject
  | |- wp (Builder_AddList _ _ _) _ _ => unfold Builder_AddList
  | |- wp (Builder_AddObjectFunc _ _ _ _) _ _ => unfold Builder_AddObjectFunc
  | |- wp (Builder_AddListFunc _ _ _ _) _ _ => unfold Builder_AddListFunc
  | |- wp (ListBuilder_AddObject _) _ _ => unfold ListBuilder_AddObject
  | |- wp (ListBuilder_AddList _) _ _ => unfold ListBuilder_AddList
  | |- wp (ListBuilder_AddObjectFunc _ _) _ _ =>
      unfold ListBuilder_AddObjectFunc
  | |- wp (ListBuilder_AddListFunc _ _) _ _ => unfold ListBuilder_AddListFunc
  end.

Ltac wp_go := repeat wp_step.

(** ** Closing straight after construction *)

Lemma NewBuilder_reliable (w : io_Writer) (σ : world) :
  reliable w σ →
  let b := eval (NewBuilder w) σ in
  let σ' := exec (NewBuilder w) σ in
  b = nextB σ ∧
  builders σ' !!! b = Builder.mk startState w (basicEncoder w) None None ∧
  sinks σ' !!! w = mkSink (output w σ ++ openBraceBytes) [] ∧
  nextB σ' = S (nextB σ).
Proof.
  unfold reliable. intros H. unfold_methods. heap_simpl.
  unfold Sink_Write. rewrite H. heap_simpl. done.
Qed.

Lemma NewListBuilder_reliable (w : io_Writer) (σ : world) :
  reliable w σ →
  let b := eval (NewListBuilder w) σ in
  let σ' := exec (NewListBuilder w) σ in
  b = nextL σ ∧
  lists σ' !!! b = ListBuilder.mk startState w (basicEncoder w) None None ∧
  sinks σ' !!! w = mkSink (output w σ ++ openBracketBytes) [] ∧
  nextL σ' = S (nextL σ).
Proof.
  unfold reliable. intros H. unfold_methods. heap_simpl.
  unfold Sink_Write. rewrite H. heap_simpl. done.
Qed.

(** A [Close] that goes through: the writer is not closed, carries no
    error, has no child to check, and the sink takes the write. *)
Lemma Builder_Close_ok (b : nat) (σ : world) (st : writerState)
    (w : io_Writer) (en : encoder) (out : list byte) :
  builders σ !!! b = Builder.mk st w en None None →
  st ≠ closedState →
  sinks σ !!! w = mkSink out [] →
  let σ' := exec (Builder_Close b) σ in
  builders σ' !!! b = Builder.mk closedState w en None None ∧
  sinks σ' !!! w = mkSink (out ++ closeBraceBytes) [].
Proof.
  intros HB Hst HS. unfold_methods. heap_simpl.
  rewrite (Zeqb_closed_false _ Hst). heap_simpl. done.
Qed.

Lemma ListBuilder_Close_ok (b : nat) (σ : world) (st : writerState)
    (w : io_Writer) (en : encoder) (out : list byte) :
  lists σ !!! b = ListBuilder.mk st w en None None →
  st ≠ closedState →
  sinks σ !!! w = mkSink out [] →
  let σ' := exec (ListBuilder_Close b) σ in
  lists σ' !!! b = ListBuilder.mk closedState w en None None ∧
  sinks σ' !!! w = mkSink (out ++ closeBracketBytes) [].
Proof.
  intros HB Hst HS. unfold_methods. heap_simpl.
  rewrite (Zeqb_closed_false _ Hst). heap_simpl. done.
Qed.

Lemma exec_bind {A B} (m : M A) (k : A → M B) (σ : world) :
  exec (m ≫= k) σ = exec (k (eval m σ)) (exec m σ).
Proof. unfold exec, eval. rewrite bind_run. reflexivity. Qed.

Lemma eval_bind {A B} (m : M A) (k : A → M B) (σ : world) :
  eval (m ≫= k) σ = eval (k (eval m σ)) (exec m σ).
Proof. unfold exec, eval. rewrite bind_run. reflexivity. Qed.

(** C5.  [Close()] called straight after construction, on a sink that
    takes the writes, adds exactly the two bytes of the empty object (for
    a [Builder]) or of the empty list (for a [ListBuilder]) to the sink and
    leaves the writer without error. *)
Theorem C5_close_after_construction (w : io_Writer) (σ : world) :
  reliable w σ →
  (let b := eval (NewBuilder w) σ in
   let σ' := exec (b ← NewBuilder w; Builder_Close b) σ in
   output w σ' = output w σ ++ bytes "{}" ∧
   Builder.Err (builders σ' !!! b) = None) ∧
  (let b := eval (NewListBuilder w) σ in
   let σ' := exec (b ← NewListBuilder w; ListBuilder_Close b) σ in
   output w σ' = output w σ ++ bytes "[]" ∧
   ListBuilder.Err (lists σ' !!! b) = None).
Proof.
  intros Hw. split.
  - destruct (NewBuilder_reliable w σ Hw) as (Hb & HB & HS & _).
    cbv zeta. rewrite exec_bind.
    destruct (Builder_Close_ok _ _ _ _ _ _ HB ltac:(done) HS) as [HB' HS'].
    unfold output at 1. rewrite HS', HB'. simpl.
    rewrite <- app_assoc. done.
  - destruct (NewListBuilder_reliable w σ Hw) as (Hb & HB & HS & _).
    cbv zeta. rewrite exec_bind.
    destruct (ListBuilder_Close_ok _ _ _ _ _ _ HB ltac:(done) HS) as [HB' HS'].
    unfold output at 1. rewrite HS', HB'. simpl.
    rewrite <- app_assoc. done.
Qed.

Lemma C5_close_after_construction_witness :
  reliable 0 empty_world ∧
  output 0 (exec (b ← NewBuilder 0; Builder_Close b) empty_world)
    = output 0 empty_world ++ bytes "{}".
Proof.
  split; [reflexivity|].
  apply (C5_close_after_construction 0 empty_world). reflexivity.
Defined.

(** ** The basic encoder and marshal failures *)

Lemma encode_marshal_error Marshal (en : encoder) (arg : value) (σ : world) :
  (Marshal arg).2 ≠ None → encode Marshal en arg σ = (None, σ).
Proof.
  unfold encode. destruct en, (Marshal arg) as [bs [err|]]; simpl; done.
Qed.

Lemma encode_marshal_ok Marshal (w : io_Writer) (arg : value) (σ : world) :
  (Marshal arg).2 = None →
  encode Marshal (basicEncoder w) arg σ = io_Write w (Marshal arg).1 σ.
Proof.
  unfold encode. destruct (Marshal arg) as [bs [err|]]; simpl; done.
Qed.

Lemma io_Write_fails (w : io_Writer) (x : list byte) (σ : world)
    (n : nat) (err : error) (rest : list outcome) :
  script (sinks σ !!! w) = WriteFail n err :: rest →
  eval (io_Write w x) σ = Some err.
Proof.
  intros H. unfold eval, io_Write, Sink_Write. rewrite H. done.
Qed.

Lemma Builder_checkSub_returns_Err (b : nat) (σ : world) :
  eval (Builder_checkSub b) σ =
  Builder.Err (builders (exec (Builder_checkSub b) σ) !!! b).
Proof.
  apply (wp_run _ (λ a σ', a = Builder.Err (builders σ' !!! b))).
  unfold Builder_checkSub. do 3 wp_step. apply wp_call. intros [] σ' _.
  wp_go. done.
Qed.

Lemma ListBuilder_checkSub_returns_Err (b : nat) (σ : world) :
  eval (ListBuilder_checkSub b) σ =
  ListBuilder.Err (lists (exec (ListBuilder_checkSub b) σ) !!! b).
Proof.
  apply (wp_run _ (λ a σ', a = ListBuilder.Err (lists σ' !!! b))).
  unfold ListBuilder_checkSub. do 3 wp_step. apply wp_call. intros [] σ' _.
  wp_go. done.
Qed.

(** [preadd] returns what it leaves in [Err]. *)
Lemma Builder_preadd_returns_Err Marshal (b : nat) (key : string) (σ : world) :
  eval (Builder_preadd Marshal b key) σ =
  Builder.Err (builders (exec (Builder_preadd Marshal b key) σ) !!! b).
Proof.
  apply (wp_run _ (λ a σ', a = Builder.Err (builders σ' !!! b))).
  unfold Builder_preadd. do 3 wp_step. apply wp_call. intros [] σ1 _.
  wp_step. apply wp_call. intros err σ2 Hc.
  pose proof (Builder_checkSub_returns_Err b σ1) as Hr.
  unfold eval, exec in Hr. rewrite Hc in Hr. simpl in Hr.
  destruct err as [err|].
  { apply wp_ret. done. }
  do 3 wp_step. apply wp_call. intros [] σ3 _.
  do 3 wp_step. apply wp_call. intros kerr σ4 _.
  do 3 wp_step. apply wp_call. intros [] σ5 _.
  wp_go. done.
Qed.

Lemma ListBuilder_preadd_returns_Err (b : nat) (σ : world) :
  eval (ListBuilder_preadd b) σ =
  ListBuilder.Err (lists (exec (ListBuilder_preadd b) σ) !!! b).
Proof.
  apply (wp_run _ (λ a σ', a = ListBuilder.Err (lists σ' !!! b))).
  unfold ListBuilder_preadd. do 3 wp_step. apply wp_call. intros [] σ1 _.
  wp_step. apply wp_call. intros err σ2 Hc.
  pose proof (ListBuilder_checkSub_returns_Err b σ1) as Hr.
  unfold eval, exec in Hr. rewrite Hc in Hr. simpl in Hr.
  destruct err as [err|].
  { apply wp_ret. done. }
  do 3 wp_step. apply wp_call. intros [] σ3 _.
  wp_go. done.
Qed.

(** An [Add] whose value does not marshal ends where its [preadd] ended,
    up to storing the nil that [encode] returned. *)
Lemma Builder_Add_marshal_error Marshal (b : nat) (key : string) (v : value)
    (σ : world) :
  (Marshal v).2 ≠ None →
  let σp := exec (Builder_preadd Marshal b key) σ in
  let σ' := exec (Builder_Add Marshal b key v) σ in
  Builder.Err (builders σ' !!! b) = Builder.Err (builders σp !!! b) ∧
  sinks σ' = sinks σp.
Proof.
  intros Hm. cbv zeta. unfold exec.
  pose proof (Builder_preadd_returns_Err Marshal b key σ) as Hr.
  unfold eval, exec in Hr. unfold Builder_Add. rewrite bind_run.
  destruct (Builder_preadd Marshal b key σ) as [err σp] eqn:Hp. cbn [fst snd] in *.
  destruct err as [err|]; [done|].
  refine (wp_run _ (λ _ σ', Builder.Err (builders σ' !!! b) =
                            Builder.Err (builders σp !!! b) ∧ sinks σ' = sinks σp) σp _).
  do 3 wp_step. apply wp_call. intros verr σ2 He.
  rewrite encode_marshal_error in He by done. injection He as <- <-.
  wp_go. done.
Qed.

Lemma ListBuilder_Add_marshal_error Marshal (b : nat) (v : value) (σ : world) :
  (Marshal v).2 ≠ None →
  let σp := exec (ListBuilder_preadd b) σ in
  let σ' := exec (ListBuilder_Add Marshal b v) σ in
  ListBuilder.Err (lists σ' !!! b) = ListBuilder.Err (lists σp !!! b) ∧
  sinks σ' = sinks σp.
Proof.
  intros Hm. cbv zeta. unfold exec.
  pose proof (ListBuilder_preadd_returns_Err b σ) as Hr.
  unfold eval, exec in Hr. unfold ListBuilder_Add. rewrite bind_run.
  destruct (ListBuilder_preadd b σ) as [err σp] eqn:Hp. cbn [fst snd] in *.
  destruct err as [err|]; [done|].
  refine (wp_run _ (λ _ σ', ListBuilder.Err (lists σ' !!! b) =
                            ListBuilder.Err (lists σp !!! b) ∧ sinks σ' = sinks σp) σp _).
  do 3 wp_step. apply wp_call. intros verr σ2 He.
  rewrite encode_marshal_error in He by done. injection He as <- <-.
  wp_go. done.
Qed.

(** C9.  When [json.Marshal] fails for a value, [encode] returns nil and
    leaves the world as it was; when it succeeds, [encode] returns what the
    sink's [Write] returns, in particular its error.  An [Add] of a value
    that does not marshal therefore leaves in [Err] what the pre-add
    protocol left there, and the sinks as the protocol left them: the
    marshal failure is never recorded. *)
Theorem C9_marshal_failure_swallowed
    (Marshal : value → list byte * option error) :
  (∀ en arg σ, (Marshal arg).2 ≠ None → encode Marshal en arg σ = (None, σ)) ∧
  (∀ w arg σ, (Marshal arg).2 = None →
     encode Marshal (basicEncoder w) arg σ = io_Write w (Marshal arg).1 σ) ∧
  (∀ w arg σ n err rest, (Marshal arg).2 = None →
     script (sinks σ !!! w) = WriteFail n err :: rest →
     eval (encode Marshal (basicEncoder w) arg) σ = Some err) ∧
  (∀ b key v σ, (Marshal v).2 ≠ None →
     let σp := exec (Builder_preadd Marshal b key) σ in
     let σ' := exec (Builder_Add Marshal b key v) σ in
     Builder.Err (builders σ' !!! b) = Builder.Err (builders σp !!! b) ∧
     sinks σ' = sinks σp) ∧
  (∀ b v σ, (Marshal v).2 ≠ None →
     let σp := exec (ListBuilder_preadd b) σ in
     let σ' := exec (ListBuilder_Add Marshal b v) σ in
     ListBuilder.Err (lists σ' !!! b) = ListBuilder.Err (lists σp !!! b) ∧
     sinks σ' = sinks σp).
Proof.
  split_and!.
  - apply encode_marshal_error.
  - apply encode_marshal_ok.
  - intros w arg σ n err rest Hm Hs. unfold eval.
    rewrite encode_marshal_ok by done. by eapply io_Write_fails.
  - apply Builder_Add_marshal_error.
  - apply ListBuilder_Add_marshal_error.
Qed.

Lemma C9_marshal_failure_swallowed_witness :
  (json_Marshal VChan).2 ≠ None ∧
  encode json_Marshal (basicEncoder 0) VChan empty_world = (None, empty_world) ∧
  Builder.Err (builders
    (exec (b ← NewBuilder 0; Builder_Add json_Marshal b "foo" VChan) empty_world)
    !!! 0) = None.
Proof.
  split; [done|]. split.
  - apply (proj1 (C9_marshal_failure_swallowed json_Marshal)). done.
  - rewrite exec_bind.
    rewrite (proj1 (proj1 (proj2 (proj2 (proj2
      (C9_marshal_failure_swallowed json_Marshal)))) _ "foo" VChan _
      ltac:(done))).
    vm_compute. reflexivity.
Defined.

(** ** What the methods leave alone *)

#[local] Instance Builder_frame_preorder (b : nat) : PreOrder (Builder_frame b).
Proof.
  split.
  - intros σ. unfold Builder_frame. done.
  - intros σ1 σ2 σ3 (?&?&?&H12&?&?) (?&?&?&H23&?&?).
    unfold Builder_frame. split_and!; try congruence.
    intros b' Hb'. rewrite H23, H12; done.
Qed.

#[local] Instance ListBuilder_frame_preorder (b : nat) :
  PreOrder (ListBuilder_frame b).
Proof.
  split.
  - intros σ. unfold ListBuilder_frame. done.
  - intros σ1 σ2 σ3 (?&?&?&H12&?&?) (?&?&?&H23&?&?).
    unfold ListBuilder_frame. split_and!; try congruence.
    intros b' Hb'. rewrite H23, H12; done.
Qed.

Lemma framed_bind {A B} (R : world → world → Prop) `{!Transitive R}
    (m : M A) (k : A → M B) :
  framed R m → (∀ a, framed R (k a)) → framed R (m ≫= k).
Proof.
  intros Hm Hk σ. rewrite exec_bind. etrans; [apply Hm | apply Hk].
Qed.

Lemma framed_ret {A} (R : world → world → Prop) `{!Reflexive R} (a : A) :
  framed R (mret a).
Proof. intros σ. apply reflexivity. Qed.

Lemma framed_getB (R : world → world → Prop) `{!Reflexive R} (b : nat) :
  framed R (getB b).
Proof. intros σ. apply reflexivity. Qed.

Lemma framed_getL (R : world → world → Prop) `{!Reflexive R} (b : nat) :
  framed R (getL b).
Proof. intros σ. apply reflexivity. Qed.

Lemma Builder_frame_modB (b : nat) (f : Builder.t → Builder.t) :
  (∀ B, Builder.w (f B) = Builder.w B ∧ Builder.e (f B) = Builder.e B) →
  framed (Builder_frame b) (modB b f).
Proof.
  intros Hf σ. unfold Builder_frame, exec, modB. wp_simpl.
  split_and!; try done; try apply Hf.
  intros b' Hb'. by rewrite lookup_total_insert_ne.
Qed.

Lemma ListBuilder_frame_modL (b : nat) (f : ListBuilder.t → ListBuilder.t) :
  (∀ B, ListBuilder.w (f B) = ListBuilder.w B ∧
        ListBuilder.e (f B) = ListBuilder.e B) →
  framed (ListBuilder_frame b) (modL b f).
Proof.
  intros Hf σ. unfold ListBuilder_frame, exec, modL. wp_simpl.
  split_and!; try done; try apply Hf.
  intros b' Hb'. by rewrite lookup_total_insert_ne.
Qed.

Lemma Builder_frame_io_Write (b : nat) (w : io_Writer) (x : list byte) :
  framed (Builder_frame b) (io_Write w x).
Proof.
  intros σ. unfold Builder_frame, exec, io_Write.
  destruct (Sink_Write _ _). done.
Qed.

Lemma ListBuilder_frame_io_Write (b : nat) (w : io_Writer) (x : list byte) :
  framed (ListBuilder_frame b) (io_Write w x).
Proof.
  intros σ. unfold ListBuilder_frame, exec, io_Write.
  destruct (Sink_Write _ _). done.
Qed.

Create HintDb framed.

(** Splits a method body along its binds and branches, down to the
    primitives above. *)
Ltac framed_tac :=
  repeat first
    [ solve [eauto with framed]
    | apply framed_bind; [try apply _ | | intros ?]
    | apply framed_ret; apply _
    | apply framed_getB; apply _
    | apply framed_getL; apply _
    | apply Builder_frame_modB; intros []; done
    | apply ListBuilder_frame_modL; intros []; done
    | apply Builder_frame_io_Write
    | apply ListBuilder_frame_io_Write
    | match goal with
      | |- framed _ (match ?c with _ => _ end) => destruct c
      | |- framed _ (let '(_, _) := ?c in _) => destruct c
      end ].

Lemma Builder_frame_encode Marshal (b : nat) (en : encoder) (arg : value) :
  framed (Builder_frame b) (encode Marshal en arg).
Proof. unfold encode. framed_tac. Qed.
#[local] Hint Resolve Builder_frame_encode : framed.

Lemma ListBuilder_frame_encode Marshal (b : nat) (en : encoder) (arg : value) :
  framed (ListBuilder_frame b) (encode Marshal en arg).
Proof. unfold encode. framed_tac. Qed.
#[local] Hint Resolve ListBuilder_frame_encode : framed.

Lemma Builder_frame_write (b : nat) (x : list byte) :
  framed (Builder_frame b) (Builder_write b x).
Proof. unfold Builder_write. framed_tac. Qed.
#[local] Hint Resolve Builder_frame_write : framed.

Lemma ListBuilder_frame_write (b : nat) (x : list byte) :
  framed (ListBuilder_frame b) (ListBuilder_write b x).
Proof. unfold ListBuilder_write. framed_tac. Qed.
#[local] Hint Resolve ListBuilder_frame_write : framed.

Lemma Builder_frame_checkSub (b : nat) :
  framed (Builder_frame b) (Builder_checkSub b).
Proof.
  unfold Builder_checkSub, builderCommon_err, builderCommon_closed.
  framed_tac.
Qed.
#[local] Hint Resolve Builder_frame_checkSub : framed.

Lemma ListBuilder_frame_checkSub (b : nat) :
  framed (ListBuilder_frame b) (ListBuilder_checkSub b).
Proof.
  unfold ListBuilder_checkSub, builderCommon_err, builderCommon_closed.
  framed_tac.
Qed.
#[local] Hint Resolve ListBuilder_frame_checkSub : framed.

Lemma Builder_frame_preadd Marshal (b : nat) (key : string) :
  framed (Builder_frame b) (Builder_preadd Marshal b key).
Proof.
  unfold Builder_preadd. framed_tac.
Qed.
#[local] Hint Resolve Builder_frame_preadd : framed.

Lemma ListBuilder_frame_preadd (b : nat) :
  framed (ListBuilder_frame b) (ListBuilder_preadd b).
Proof.
  unfold ListBuilder_preadd. framed_tac.
Qed.
#[local] Hint Resolve ListBuilder_frame_preadd : framed.

Lemma Builder_frame_Add Marshal (b : nat) (key : string) (v : value) :
  framed (Builder_frame b) (Builder_Add Marshal b key v).
Proof.
  unfold Builder_Add. framed_tac.
Qed.
#[local] Hint Resolve Builder_frame_Add : framed.

Lemma ListBuilder_frame_Add Marshal (b : nat) (v : value) :
  framed (ListBuilder_frame b) (ListBuilder_Add Marshal b v).
Proof.
  unfold ListBuilder_Add. framed_tac.
Qed.
#[local] Hint Resolve ListBuilder_frame_Add : framed.

Lemma Builder_frame_Close (b : nat) :
  framed (Builder_frame b) (Builder_Close b).
Proof.
  unfold Builder_Close. framed_tac.
Qed.
#[local] Hint Resolve Builder_frame_Close : framed.

Lemma ListBuilder_frame_Close (b : nat) :
  framed (ListBuilder_frame b) (ListBuilder_Close b).
Proof.
  unfold ListBuilder_Close. framed_tac.
Qed.
#[local] Hint Resolve ListBuilder_frame_Close : framed.

(** ** Nested writers: which pointer comes back *)

Lemma eval_of_run {A} (m : M A) (σ σ' : world) (a : A) :
  m σ = (a, σ') → eval m σ = a.
Proof. unfold eval. by intros ->. Qed.

Lemma exec_of_run {A} (m : M A) (σ σ' : world) (a : A) :
  m σ = (a, σ') → exec m σ = σ'.
Proof. unfold exec. by intros ->. Qed.

Lemma Builder_checkSub_fails (b : nat) (σ : world) :
  Builder.Err (builders σ !!! b) ≠ None ∨
  (∃ c, Builder.subB (builders σ !!! b) = Some c ∧ child_pending c σ) →
  eval (Builder_checkSub b) σ ≠ None.
Proof.
  intros H. apply (wp_run _ (λ a _, a ≠ None)).
  destruct (Builder.Err (builders σ !!! b)) eqn:E.
  { wp_go. done. }
  destruct H as [H|(c & Hc & H)]; [done|].
  destruct c as [p|p], H as [H|H];
    unfold eval, builderCommon_err, builderCommon_closed in H; simpl in H;
    wp_go; done.
Qed.

Lemma ListBuilder_checkSub_fails (b : nat) (σ : world) :
  ListBuilder.Err (lists σ !!! b) ≠ None ∨
  (∃ c, ListBuilder.subB (lists σ !!! b) = Some c ∧ child_pending c σ) →
  eval (ListBuilder_checkSub b) σ ≠ None.
Proof.
  intros H. apply (wp_run _ (λ a _, a ≠ None)).
  destruct (ListBuilder.Err (lists σ !!! b)) eqn:E.
  { wp_go. done. }
  destruct H as [H|(c & Hc & H)]; [done|].
  destruct c as [p|p], H as [H|H];
    unfold eval, builderCommon_err, builderCommon_closed in H; simpl in H;
    wp_go; done.
Qed.

(** The conditions under which the pre-add protocol fails: an error
    already recorded, a closed writer, or a child that carries an error or
    was not closed. *)
Lemma Builder_preadd_fails Marshal (b : nat) (key : string) (σ : world) :
  Builder.Err (builders σ !!! b) ≠ None ∨
  Builder.state (builders σ !!! b) = closedState ∨
  (∃ c, Builder.subB (builders σ !!! b) = Some c ∧ child_pending c σ) →
  eval (Builder_preadd Marshal b key) σ ≠ None.
Proof.
  intros H. apply (wp_run _ (λ a _, a ≠ None)).
  unfold Builder_preadd. do 4 wp_step.
  - wp_step. wp_step. apply wp_call. intros err σ2 Hc.
    apply eval_of_run in Hc. destruct err as [err|]; [by apply wp_ret|].
    exfalso. revert Hc. apply Builder_checkSub_fails. left. by wp_simpl.
  - wp_step. wp_step. apply wp_call. intros err σ2 Hc.
    apply eval_of_run in Hc. destruct err as [err|]; [by apply wp_ret|].
    exfalso. revert Hc. apply Builder_checkSub_fails.
    destruct H as [H|[H|H]]; [by left| |by right].
    rewrite H in *. done.
Qed.

Lemma ListBuilder_preadd_fails (b : nat) (σ : world) :
  ListBuilder.Err (lists σ !!! b) ≠ None ∨
  ListBuilder.state (lists σ !!! b) = closedState ∨
  (∃ c, ListBuilder.subB (lists σ !!! b) = Some c ∧ child_pending c σ) →
  eval (ListBuilder_preadd b) σ ≠ None.
Proof.
  intros H. apply (wp_run _ (λ a _, a ≠ None)).
  unfold ListBuilder_preadd. do 4 wp_step.
  - wp_step. wp_step. apply wp_call. intros err σ2 Hc.
    apply eval_of_run in Hc. destruct err as [err|]; [by apply wp_ret|].
    exfalso. revert Hc. apply ListBuilder_checkSub_fails. left. by wp_simpl.
  - wp_step. wp_step. apply wp_call. intros err σ2 Hc.
    apply eval_of_run in Hc. destruct err as [err|]; [by apply wp_ret|].
    exfalso. revert Hc. apply ListBuilder_checkSub_fails.
    destruct H as [H|[H|H]]; [by left| |by right].
    rewrite H in *. done.
Qed.

Lemma ListBuilder_AddObject_nil (b : nat) (σ : world) :
  eval (ListBuilder_preadd b) σ ≠ None →
  eval (ListBuilder_AddObject b) σ = None.
Proof.
  unfold eval, ListBuilder_AddObject. rewrite bind_run.
  destruct (ListBuilder_preadd b σ) as [[err|] σ1]; done.
Qed.

Lemma ListBuilder_AddObject_child (b : nat) (σ : world) :
  eval (ListBuilder_preadd b) σ = None →
  eval (ListBuilder_AddObject b) σ = Some (nextB σ).
Proof.
  pose proof (ListBuilder_frame_preadd b σ) as (HnB & _).
  revert HnB. unfold eval, exec, ListBuilder_AddObject. rewrite bind_run.
  destruct (ListBuilder_preadd b σ) as [err σ1]. cbn [fst snd].
  intros <- ->.
  apply (wp_run _ (λ a _, a = Some (nextB σ1))). wp_go; done.
Qed.

Lemma Builder_AddObject_child Marshal (b : nat) (key : string) (σ : world) :
  eval (Builder_AddObject Marshal b key) σ = Some (nextB σ).
Proof.
  pose proof (Builder_frame_preadd Marshal b key σ) as (HnB & _).
  revert HnB. unfold eval, exec, Builder_AddObject. rewrite bind_run.
  destruct (Builder_preadd Marshal b key σ) as [err σ1]. cbn [fst snd].
  intros <-.
  apply (wp_run _ (λ a _, a = Some (nextB σ1))). wp_go; done.
Qed.

Lemma Builder_AddList_child Marshal (b : nat) (key : string) (σ : world) :
  eval (Builder_AddList Marshal b key) σ = Some (nextL σ).
Proof.
  pose proof (Builder_frame_preadd Marshal b key σ) as (_ & HnL & _).
  revert HnL. unfold eval, exec, Builder_AddList. rewrite bind_run.
  destruct (Builder_preadd Marshal b key σ) as [err σ1]. cbn [fst snd].
  intros <-.
  apply (wp_run _ (λ a _, a = Some (nextL σ1))). wp_go; done.
Qed.

Lemma ListBuilder_AddList_child (b : nat) (σ : world) :
  eval (ListBuilder_AddList b) σ = Some (nextL σ).
Proof.
  pose proof (ListBuilder_frame_preadd b σ) as (_ & HnL & _).
  revert HnL. unfold eval, exec, ListBuilder_AddList. rewrite bind_run.
  destruct (ListBuilder_preadd b σ) as [err σ1]. cbn [fst snd].
  intros <-.
  apply (wp_run _ (λ a _, a = Some (nextL σ1))). wp_go; done.
Qed.

(** C10.  When the pre-add protocol of a [ListBuilder] fails (an error is
    already recorded, the writer is closed, or its child carries an error
    or was not closed), [ListBuilder.AddObject] returns nil; under the same
    conditions the protocol of a [Builder] fails as well, yet
    [Builder.AddObject], [Builder.AddList] and [ListBuilder.AddList] return
    the pointer to a freshly allocated child whatever the protocol
    returned. *)
Theorem C10_AddObject_nil_on_failed_preadd
    (Marshal : value → list byte * option error) :
  (∀ b σ,
     ListBuilder.Err (lists σ !!! b) ≠ None ∨
     ListBuilder.state (lists σ !!! b) = closedState ∨
     (∃ c, ListBuilder.subB (lists σ !!! b) = Some c ∧ child_pending c σ) →
     eval (ListBuilder_preadd b) σ ≠ None ∧
     eval (ListBuilder_AddObject b) σ = None ∧
     eval (ListBuilder_AddList b) σ = Some (nextL σ)) ∧
  (∀ b σ, eval (ListBuilder_preadd b) σ = None →
     eval (ListBuilder_AddObject b) σ = Some (nextB σ)) ∧
  (∀ b key σ,
     Builder.Err (builders σ !!! b) ≠ None ∨
     Builder.state (builders σ !!! b) = closedState ∨
     (∃ c, Builder.subB (builders σ !!! b) = Some c ∧ child_pending c σ) →
     eval (Builder_preadd Marshal b key) σ ≠ None ∧
     eval (Builder_AddObject Marshal b key) σ = Some (nextB σ) ∧
     eval (Builder_AddList Marshal b key) σ = Some (nextL σ)).
Proof.
  split_and!.
  - intros b σ H. apply ListBuilder_preadd_fails in H. split_and!.
    + done.
    + by apply ListBuilder_AddObject_nil.
    + apply ListBuilder_AddList_child.
  - apply ListBuilder_AddObject_child.
  - intros b key σ H. split_and!.
    + by apply Builder_preadd_fails.
    + apply Builder_AddObject_child.
    + apply Builder_AddList_child.
Qed.

Lemma C10_AddObject_nil_on_failed_preadd_witness :
  let σ := exec (b ← NewListBuilder 0; ListBuilder_Close b) empty_world in
  let σ' := exec (b ← NewBuilder 0; Builder_Close b) empty_world in
  (ListBuilder.state (lists σ !!! 0) = closedState ∧
   eval (ListBuilder_AddObject 0) σ = None ∧
   eval (ListBuilder_AddList 0) σ = Some (nextL σ)) ∧
  (Builder.state (builders σ' !!! 0) = closedState ∧
   eval (Builder_AddObject json_Marshal 0 "k") σ' = Some (nextB σ')).
Proof.
  cbv zeta. split.
  - split; [vm_compute; reflexivity|].
    apply (proj1 (C10_AddObject_nil_on_failed_preadd json_Marshal)).
    right. left. vm_compute. reflexivity.
  - split; [vm_compute; reflexivity|].
    apply (proj2 (proj2 (C10_AddObject_nil_on_failed_preadd json_Marshal)) 0
             "k" (exec (b ← NewBuilder 0; Builder_Close b) empty_world)).
    right. left. vm_compute. reflexivity.
Defined.

(** ** AddAll *)

Lemma flat_pairs_length (kvs : list (string * value)) :
  List.length (flat_pairs kvs) = 2 * List.length kvs.
Proof. induction kvs as [|[key v] kvs IH]; simpl; lia. Qed.

Lemma flat_pairs_app_even (kvs : list (string * value)) (rest : list value) :
  List.length rest mod 2 = 0 →
  List.length (flat_pairs kvs ++ rest) mod 2 = 0.
Proof.
  intros H. rewrite length_app, flat_pairs_length.
  replace (2 * List.length kvs + List.length rest)
    with (List.length rest + List.length kvs * 2) by lia.
  by rewrite Nat.Div0.mod_add.
Qed.

Lemma cons_cons_even (k v : value) (rest : list value) :
  List.length rest mod 2 = 0 → List.length (k :: v :: rest) mod 2 = 0.
Proof.
  intros H. cbn [List.length].
  replace (S (S (List.length rest))) with (List.length rest + 1 * 2) by lia.
  by rewrite Nat.Div0.mod_add.
Qed.

(** With an error already in [Err] the loop does not run. *)
Lemma Builder_AddAll_loop_stuck Marshal (b i : nat) (args : list value)
    (σ : world) :
  Builder.Err (builders σ !!! b) ≠ None →
  exec (Builder_AddAll_loop Marshal b i args) σ = σ.
Proof.
  intros H. destruct args as [|k [|v rest]]; try done.
  cbn [Builder_AddAll_loop]. rewrite exec_bind.
  unfold getB at 1 2. cbn [eval exec fst snd].
  destruct (Builder.Err (builders σ !!! b)); done.
Qed.

(** One round of the loop on a string key. *)
Lemma Builder_AddAll_loop_cons Marshal (b i : nat) (key : string) (v : value)
    (rest : list value) (σ : world) :
  Builder.Err (builders σ !!! b) = None →
  exec (Builder_AddAll_loop Marshal b i (VString key :: v :: rest)) σ =
  exec (Builder_AddAll_loop Marshal b (i + 2) rest)
       (exec (Builder_Add Marshal b key v) σ).
Proof.
  intros H. cbn [Builder_AddAll_loop]. rewrite exec_bind.
  unfold getB at 1 2. cbn [eval exec fst snd]. rewrite H.
  rewrite exec_bind. done.
Qed.

(** The loop over a run of well-formed pairs followed by anything is the
    loop over the pairs followed by the loop over the rest. *)
Lemma Builder_AddAll_loop_app Marshal (b : nat) (pre : list (string * value))
    (rest : list value) (i : nat) (σ : world) :
  exec (Builder_AddAll_loop Marshal b i (flat_pairs pre ++ rest)) σ =
  exec (Builder_AddAll_loop Marshal b (i + 2 * List.length pre) rest)
       (exec (Builder_AddAll_loop Marshal b i (flat_pairs pre)) σ).
Proof.
  revert i σ. induction pre as [|[key v] pre IH]; intros i σ.
  - simpl. rewrite Nat.add_0_r. done.
  - cbn [flat_pairs app].
    destruct (Builder.Err (builders σ !!! b)) as [err|] eqn:E.
    + rewrite !(Builder_AddAll_loop_stuck _ _ _ (_ :: _ :: _) σ) by congruence.
      rewrite Builder_AddAll_loop_stuck by congruence. done.
    + rewrite !Builder_AddAll_loop_cons by done. rewrite IH.
      do 2 f_equal. simpl. lia.
Qed.

Lemma Builder_AddAll_even Marshal (b : nat) (args : list value) (σ : world) :
  List.length args mod 2 = 0 →
  exec (Builder_AddAll Marshal b args) σ =
  exec (Builder_AddAll_loop Marshal b 0 args) σ.
Proof. intros H. unfold Builder_AddAll. rewrite H. done. Qed.

Lemma Builder_AddAll_odd Marshal (b : nat) (args : list value) (σ : world) :
  List.length args mod 2 ≠ 0 →
  let σ' := exec (Builder_AddAll Marshal b args) σ in
  sinks σ' = sinks σ ∧
  Builder.Err (builders σ' !!! b) =
    Some (errors_New "AddAll takes an even number of args").
Proof.
  intros H. cbv zeta. unfold Builder_AddAll.
  apply Nat.eqb_neq in H. rewrite H. cbn [negb].
  unfold exec, modB. wp_simpl. done.
Qed.

Lemma Builder_AddAll_bad_key Marshal (b : nat) (pre : list (string * value))
    (k v : value) (rest : list value) (σ : world) :
  is_string k = false →
  List.length rest mod 2 = 0 →
  let σ1 := exec (Builder_AddAll Marshal b (flat_pairs pre)) σ in
  exec (Builder_AddAll Marshal b (flat_pairs pre ++ k :: v :: rest)) σ =
  if Builder.Err (builders σ1 !!! b) is None
  then exec (modB b (Builder.set_Err
               (Some (fmt_Errorf_not_string (2 * List.length pre) k)))) σ1
  else σ1.
Proof.
  intros Hk Hrest. cbv zeta.
  rewrite (Builder_AddAll_even _ _ (flat_pairs pre)).
  2:{ rewrite <- (app_nil_r (flat_pairs pre)). by apply flat_pairs_app_even. }
  rewrite Builder_AddAll_even
    by (by apply flat_pairs_app_even, cons_cons_even).
  rewrite Builder_AddAll_loop_app. simpl (0 + _).
  set (σ1 := exec (Builder_AddAll_loop Marshal b 0 (flat_pairs pre)) σ).
  destruct (Builder.Err (builders σ1 !!! b)) as [err|] eqn:E.
  - apply Builder_AddAll_loop_stuck. congruence.
  - cbn [Builder_AddAll_loop]. rewrite exec_bind.
    unfold getB at 1 2. cbn [eval exec fst snd]. rewrite E.
    destruct k; done.
Qed.

Lemma Builder_AddAll_stops Marshal (b : nat) (pre : list (string * value))
    (rest : list value) (σ : world) :
  List.length rest mod 2 = 0 →
  let σ1 := exec (Builder_AddAll Marshal b (flat_pairs pre)) σ in
  Builder.Err (builders σ1 !!! b) ≠ None →
  exec (Builder_AddAll Marshal b (flat_pairs pre ++ rest)) σ = σ1.
Proof.
  intros Hrest. cbv zeta.
  rewrite (Builder_AddAll_even _ _ (flat_pairs pre)).
  2:{ rewrite <- (app_nil_r (flat_pairs pre)). by apply flat_pairs_app_even. }
  rewrite Builder_AddAll_even by (by apply flat_pairs_app_even).
  intros H. rewrite Builder_AddAll_loop_app.
  by apply Builder_AddAll_loop_stuck.
Qed.

(** ** Builder functions *)

(** After [Close] a writer is closed or carries an error. *)
Lemma Builder_Close_closed_or_error (c : nat) (σ : world) :
  let σ' := exec (Builder_Close c) σ in
  Builder.state (builders σ' !!! c) = closedState ∨
  Builder.Err (builders σ' !!! c) ≠ None.
Proof.
  cbv zeta.
  apply (wp_run _ (λ _ σ', Builder.state (builders σ' !!! c) = closedState ∨
                           Builder.Err (builders σ' !!! c) ≠ None)).
  unfold Builder_Close. do 3 wp_step.
  { wp_go. by right. }
  wp_step. apply wp_call. intros err σ2 Hc.
  pose proof (Builder_checkSub_returns_Err c σ) as Hr.
  rewrite (eval_of_run _ _ _ _ Hc), (exec_of_run _ _ _ _ Hc) in Hr.
  destruct err as [err|].
  { wp_go. right. congruence. }
  wp_step. apply wp_call. intros [] σ3 _. wp_go. by left.
Qed.

Lemma ListBuilder_Close_closed_or_error (c : nat) (σ : world) :
  let σ' := exec (ListBuilder_Close c) σ in
  ListBuilder.state (lists σ' !!! c) = closedState ∨
  ListBuilder.Err (lists σ' !!! c) ≠ None.
Proof.
  cbv zeta.
  apply (wp_run _ (λ _ σ', ListBuilder.state (lists σ' !!! c) = closedState ∨
                           ListBuilder.Err (lists σ' !!! c) ≠ None)).
  unfold ListBuilder_Close. do 3 wp_step.
  { wp_go. by right. }
  wp_step. apply wp_call. intros err σ2 Hc.
  pose proof (ListBuilder_checkSub_returns_Err c σ) as Hr.
  rewrite (eval_of_run _ _ _ _ Hc), (exec_of_run _ _ _ _ Hc) in Hr.
  destruct err as [err|].
  { wp_go. right. congruence. }
  wp_step. apply wp_call. intros [] σ3 _. wp_go. by left.
Qed.

Ltac wp_upto_Close :=
  repeat lazymatch goal with
         | |- wp (Builder_Close _) _ _ => fail
         | |- wp (ListBuilder_Close _) _ _ => fail
         | |- _ => wp_step
         end.

Lemma Builder_AddObjectFunc_spec Marshal (b : nat) (key : string)
    (f : BuilderFunc) (σ σ1 σ2 σ3 : world) (ferr : option error) :
  b < nextB σ →
  Builder_preadd Marshal b key σ = (None, σ1) →
  (c ← newB (Builder.mk 0%Z (Builder.w (builders σ1 !!! b))
                        (Builder.e (builders σ1 !!! b)) None None);
   Builder_init c;; mret c) σ1 = (nextB σ, σ2) →
  f (nextB σ) σ2 = (ferr, σ3) →
  let c := nextB σ in
  let perr := propagated ferr (Builder.Err (builders σ3 !!! c)) in
  let σ' := exec (Builder_AddObjectFunc Marshal b key f) σ in
  Builder.Err (builders σ' !!! b) = perr ∧
  (Builder.state (builders σ' !!! c) = closedState ∨
   Builder.Err (builders σ' !!! c) ≠ None) ∧
  σ' = exec (modB b (Builder.set_Err perr);; Builder_Close c) σ3.
Proof.
  intros Hb Hp Hc Hf. cbv zeta.
  pose proof (Builder_frame_preadd Marshal b key σ) as (HnB & _).
  rewrite (exec_of_run _ _ _ _ Hp) in HnB.
  refine (wp_run _ (λ _ σ', Builder.Err (builders σ' !!! b) = _ ∧
    (Builder.state (builders σ' !!! _) = closedState ∨
     Builder.Err (builders σ' !!! _) ≠ None) ∧ σ' = _) σ _).
  unfold Builder_AddObjectFunc. wp_step. apply wp_call. intros err σ1' Hp'.
  rewrite Hp in Hp'. injection Hp' as <- <-. 
  do 5 wp_step. apply wp_call. intros [] σ2' Hi.
  cbv [mbind M_bind newB mret M_ret] in Hc. rewrite HnB, Hi in Hc.
  injection Hc as ->.
  wp_step. apply wp_call. intros ferr' σ3' Hf'.
  rewrite Hf in Hf'. injection Hf' as <- <-.
  assert (b ≠ nextB σ) as Hne by lia.
  wp_upto_Close; unfold wp;
    match goal with |- context [Builder_Close ?c ?σ4] =>
      pose proof (Builder_frame_Close c σ4) as (_ & _ & _ & Hfr & _);
      pose proof (Builder_Close_closed_or_error c σ4) as Hcl;
      specialize (Hfr b Hne); unfold exec in Hfr, Hcl
    end.
  all: split_and!; [by rewrite Hfr; wp_simpl | done | ].
  all: rewrite exec_bind; unfold exec, eval, modB; wp_simpl.
  all: rewrite ?insert_insert_eq; done.
Qed.

Lemma Builder_AddListFunc_spec Marshal (b : nat) (key : string)
    (f : ListBuilderFunc) (σ σ1 σ2 σ3 : world) (ferr : option error) :
  Builder_preadd Marshal b key σ = (None, σ1) →
  (c ← newL (ListBuilder.mk 0%Z (Builder.w (builders σ1 !!! b))
                            (Builder.e (builders σ1 !!! b)) None None);
   ListBuilder_init c;; mret c) σ1 = (nextL σ, σ2) →
  f (nextL σ) σ2 = (ferr, σ3) →
  let c := nextL σ in
  let perr := propagated ferr (ListBuilder.Err (lists σ3 !!! c)) in
  let σ' := exec (Builder_AddListFunc Marshal b key f) σ in
  Builder.Err (builders σ' !!! b) = perr ∧
  (ListBuilder.state (lists σ' !!! c) = closedState ∨
   ListBuilder.Err (lists σ' !!! c) ≠ None) ∧
  σ' = exec (modB b (Builder.set_Err perr);; ListBuilder_Close c) σ3.
Proof.
  intros Hp Hc Hf. cbv zeta.
  pose proof (Builder_frame_preadd Marshal b key σ) as (_ & HnL & _).
  rewrite (exec_of_run _ _ _ _ Hp) in HnL.
  refine (wp_run _ (λ _ σ', Builder.Err (builders σ' !!! b) = _ ∧
    (ListBuilder.state (lists σ' !!! _) = closedState ∨
     ListBuilder.Err (lists σ' !!! _) ≠ None) ∧ σ' = _) σ _).
  unfold Builder_AddListFunc. wp_step. apply wp_call. intros err σ1' Hp'.
  rewrite Hp in Hp'. injection Hp' as <- <-.
  do 5 wp_step. apply wp_call. intros [] σ2' Hi.
  cbv [mbind M_bind newL mret M_ret] in Hc. rewrite HnL, Hi in Hc.
  injection Hc as ->.
  wp_step. apply wp_call. intros ferr' σ3' Hf'.
  rewrite Hf in Hf'. injection Hf' as <- <-.
  wp_upto_Close; unfold wp;
    match goal with |- context [ListBuilder_Close ?c ?σ4] =>
      pose proof (ListBuilder_frame_Close c σ4) as (_ & _ & Hfr & _);
      pose proof (ListBuilder_Close_closed_or_error c σ4) as Hcl;
      unfold exec in Hfr, Hcl
    end.
  all: split_and!; [by rewrite Hfr; wp_simpl | done | ].
  all: rewrite exec_bind; unfold exec, eval, modB; wp_simpl.
  all: rewrite ?insert_insert_eq; done.
Qed.

Lemma ListBuilder_AddObjectFunc_spec (b : nat) (f : BuilderFunc)
    (σ σ1 σ2 σ3 : world) (ferr : option error) :
  ListBuilder_preadd b σ = (None, σ1) →
  (c ← newB (Builder.mk 0%Z (ListBuilder.w (lists σ1 !!! b))
                        (ListBuilder.e (lists σ1 !!! b)) None None);
   Builder_init c;; mret c) σ1 = (nextB σ, σ2) →
  f (nextB σ) σ2 = (ferr, σ3) →
  let c := nextB σ in
  let perr := propagated ferr (Builder.Err (builders σ3 !!! c)) in
  let σ' := exec (ListBuilder_AddObjectFunc b f) σ in
  ListBuilder.Err (lists σ' !!! b) = perr ∧
  (Builder.state (builders σ' !!! c) = closedState ∨
   Builder.Err (builders σ' !!! c) ≠ None) ∧
  σ' = exec (modL b (ListBuilder.set_Err perr);; Builder_Close c) σ3.
Proof.
  intros Hp Hc Hf. cbv zeta.
  pose proof (ListBuilder_frame_preadd b σ) as (HnB & _).
  rewrite (exec_of_run _ _ _ _ Hp) in HnB.
  refine (wp_run _ (λ _ σ', ListBuilder.Err (lists σ' !!! b) = _ ∧
    (Builder.state (builders σ' !!! _) = closedState ∨
     Builder.Err (builders σ' !!! _) ≠ None) ∧ σ' = _) σ _).
  unfold ListBuilder_AddObjectFunc. wp_step. apply wp_call.
  intros err σ1' Hp'. rewrite Hp in Hp'. injection Hp' as <- <-.
  do 5 wp_step. apply wp_call. intros [] σ2' Hi.
  cbv [mbind M_bind newB mret M_ret] in Hc. rewrite HnB, Hi in Hc.
  injection Hc as ->.
  wp_step. apply wp_call. intros ferr' σ3' Hf'.
  rewrite Hf in Hf'. injection Hf' as <- <-.
  wp_upto_Close; unfold wp;
    match goal with |- context [Builder_Close ?c ?σ4] =>
      pose proof (Builder_frame_Close c σ4) as (_ & _ & Hfr & _);
      pose proof (Builder_Close_closed_or_error c σ4) as Hcl;
      unfold exec in Hfr, Hcl
    end.
  all: split_and!; [by rewrite Hfr; wp_simpl | done | ].
  all: rewrite exec_bind; unfold exec, eval, modL; wp_simpl.
  all: rewrite ?insert_insert_eq; done.
Qed.

Lemma ListBuilder_AddListFunc_spec (b : nat) (f : ListBuilderFunc)
    (σ σ1 σ2 σ3 : world) (ferr : option error) :
  b < nextL σ →
  ListBuilder_preadd b σ = (None, σ1) →
  (c ← newL (ListBuilder.mk 0%Z (ListBuilder.w (lists σ1 !!! b))
                            (ListBuilder.e (lists σ1 !!! b)) None None);
   ListBuilder_init c;; mret c) σ1 = (nextL σ, σ2) →
  f (nextL σ) σ2 = (ferr, σ3) →
  let c := nextL σ in
  let perr := propagated ferr (ListBuilder.Err (lists σ3 !!! c)) in
  let σ' := exec (ListBuilder_AddListFunc b f) σ in
  ListBuilder.Err (lists σ' !!! b) = perr ∧
  (ListBuilder.state (lists σ' !!! c) = closedState ∨
   ListBuilder.Err (lists σ' !!! c) ≠ None) ∧
  σ' = exec (modL b (ListBuilder.set_Err perr);; ListBuilder_Close c) σ3.
Proof.
  intros Hb Hp Hc Hf. cbv zeta.
  pose proof (ListBuilder_frame_preadd b σ) as (_ & HnL & _).
  rewrite (exec_of_run _ _ _ _ Hp) in HnL.
  refine (wp_run _ (λ _ σ', ListBuilder.Err (lists σ' !!! b) = _ ∧
    (ListBuilder.state (lists σ' !!! _) = closedState ∨
     ListBuilder.Err (lists σ' !!! _) ≠ None) ∧ σ' = _) σ _).
  unfold ListBuilder_AddListFunc. wp_step. apply wp_call.
  intros err σ1' Hp'. rewrite Hp in Hp'. injection Hp' as <- <-.
  do 5 wp_step. apply wp_call. intros [] σ2' Hi.
  cbv [mbind M_bind newL mret M_ret] in Hc. rewrite HnL, Hi in Hc.
  injection Hc as ->.
  wp_step. apply wp_call. intros ferr' σ3' Hf'.
  rewrite Hf in Hf'. injection Hf' as <- <-.
  assert (b ≠ nextL σ) as Hne by lia.
  wp_upto_Close; unfold wp;
    match goal with |- context [ListBuilder_Close ?c ?σ4] =>
      pose proof (ListBuilder_frame_Close c σ4) as (_ & _ & _ & Hfr & _);
      pose proof (ListBuilder_Close_closed_or_error c σ4) as Hcl;
      specialize (Hfr b Hne); unfold exec in Hfr, Hcl
    end.
  all: split_and!; [by rewrite Hfr; wp_simpl | done | ].
  all: rewrite exec_bind; unfold exec, eval, modL; wp_simpl.
  all: rewrite ?insert_insert_eq; done.
Qed.

(** When the pre-add protocol fails nothing else happens: no child is
    built and the function is not called. *)
Lemma Builder_AddObjectFunc_preadd_fails Marshal (b : nat) (key : string)
    (f : BuilderFunc) (σ : world) :
  eval (Builder_preadd Marshal b key) σ ≠ None →
  exec (Builder_AddObjectFunc Marshal b key f) σ =
  exec (Builder_preadd Marshal b key) σ.
Proof.
  unfold Builder_AddObjectFunc. rewrite exec_bind.
  destruct (eval (Builder_preadd Marshal b key) σ); done.
Qed.

Lemma Builder_AddListFunc_preadd_fails Marshal (b : nat) (key : string)
    (f : ListBuilderFunc) (σ : world) :
  eval (Builder_preadd Marshal b key) σ ≠ None →
  exec (Builder_AddListFunc Marshal b key f) σ =
  exec (Builder_preadd Marshal b key) σ.
Proof.
  unfold Builder_AddListFunc. rewrite exec_bind.
  destruct (eval (Builder_preadd Marshal b key) σ); done.
Qed.

Lemma ListBuilder_AddObjectFunc_preadd_fails (b : nat) (f : BuilderFunc)
    (σ : world) :
  eval (ListBuilder_preadd b) σ ≠ None →
  exec (ListBuilder_AddObjectFunc b f) σ = exec (ListBuilder_preadd b) σ.
Proof.
  unfold ListBuilder_AddObjectFunc. rewrite exec_bind.
  destruct (eval (ListBuilder_preadd b) σ); done.
Qed.

Lemma ListBuilder_AddListFunc_preadd_fails (b : nat) (f : ListBuilderFunc)
    (σ : world) :
  eval (ListBuilder_preadd b) σ ≠ None →
  exec (ListBuilder_AddListFunc b f) σ = exec (ListBuilder_preadd b) σ.
Proof.
  unfold ListBuilder_AddListFunc. rewrite exec_bind.
  destruct (eval (ListBuilder_preadd b) σ); done.
Qed.

(** The child's [Err] is read before the child is closed: an error that
    the child's own [Close] records, here for a grandchild left open by the
    function, stays with the child. *)
Lemma AddObjectFunc_error_of_Close_stays_with_child :
  let f : BuilderFunc := λ w, Builder_AddObject json_Marshal w "x";; mret None in
  let σ := exec (j ← NewBuilder 0;
                 Builder_AddObjectFunc json_Marshal j "foo" f) empty_world in
  Builder.Err (builders σ !!! 0) = None ∧
  Builder.Err (builders σ !!! 1) =
    Some (errors_New "A sub-Builder was not closed").
Proof. vm_compute. done. Qed.

(** ** Error-free runs of Add *)

Lemma Builder_Add_ready Marshal (b : nat) (w : io_Writer) (st : writerState)
    (σ : world) (key : string) (v : value) (out kb vb : list byte) :
  builders σ !!! b = Builder.mk st w (basicEncoder w) None None →
  st = startState ∨ st = openedState →
  sinks σ !!! w = mkSink out [] →
  Marshal (VString key) = (kb, None) →
  Marshal v = (vb, None) →
  let σ' := exec (Builder_Add Marshal b key v) σ in
  builders σ' !!! b = Builder.mk openedState w (basicEncoder w) None None ∧
  sinks σ' !!! w =
    mkSink (out ++ (if decide (st = startState) then [] else commaBytes) ++
            kb ++ colonBytes ++ vb) [].
Proof.
  intros HB Hst HS Hk Hv. cbv zeta.
  apply (wp_run _ (λ _ σ', builders σ' !!! b = _ ∧ sinks σ' !!! w = _)).
  destruct Hst as [-> | ->]; wp_go; split; try done;
    case_decide; try done; rewrite <- ?app_assoc; done.
Qed.

Lemma ListBuilder_Add_ready Marshal (b : nat) (w : io_Writer)
    (st : writerState) (σ : world) (v : value) (out vb : list byte) :
  lists σ !!! b = ListBuilder.mk st w (basicEncoder w) None None →
  st = startState ∨ st = openedState →
  sinks σ !!! w = mkSink out [] →
  Marshal v = (vb, None) →
  let σ' := exec (ListBuilder_Add Marshal b v) σ in
  lists σ' !!! b = ListBuilder.mk openedState w (basicEncoder w) None None ∧
  sinks σ' !!! w =
    mkSink (out ++ (if decide (st = startState) then [] else commaBytes) ++
            vb) [].
Proof.
  intros HB Hst HS Hv. cbv zeta.
  apply (wp_run _ (λ _ σ', lists σ' !!! b = _ ∧ sinks σ' !!! w = _)).
  destruct Hst as [-> | ->]; wp_go; split; try done;
    case_decide; try done; rewrite <- ?app_assoc; done.
Qed.

Lemma marshals_pair Marshal (v : value) :
  marshals Marshal v → Marshal v = ((Marshal v).1, None).
Proof. unfold marshals. destruct (Marshal v) as [bs err]. simpl. by intros ->. Qed.

(** Every [Add] after the first puts a comma and its entry. *)
Lemma Builder_adds_opened Marshal (b : nat) (w : io_Writer)
    (kvs : list (string * value)) (σ : world) (out : list byte) :
  builders σ !!! b = Builder.mk openedState w (basicEncoder w) None None →
  sinks σ !!! w = mkSink out [] →
  Forall (λ kv, marshals Marshal (VString kv.1) ∧ marshals Marshal kv.2) kvs →
  let σ' := exec (Builder_adds Marshal b kvs) σ in
  builders σ' !!! b = Builder.mk openedState w (basicEncoder w) None None ∧
  sinks σ' !!! w =
    mkSink (out ++ comma_each (map (entry_bytes Marshal) kvs)) [].
Proof.
  revert σ out. induction kvs as [|[key v] kvs IH]; intros σ out HB HS Hm.
  - simpl. rewrite app_nil_r. done.
  - apply Forall_cons in Hm as [[Hk Hv] Hm]. cbn [fst snd] in Hk, Hv.
    cbn [Builder_adds]. cbv zeta. rewrite exec_bind.
    destruct (Builder_Add_ready Marshal b w openedState σ key v out _ _ HB
                ltac:(by right) HS (marshals_pair _ _ Hk) (marshals_pair _ _ Hv))
      as [HB' HS'].
    destruct (IH _ _ HB' HS' Hm) as [HB'' HS'']. split; [done|].
    rewrite HS''. f_equal. cbn [map comma_each]. unfold entry_bytes at 2.
    cbn [fst snd]. rewrite decide_False by done.
    rewrite <- !app_assoc. done.
Qed.

Lemma ListBuilder_adds_opened Marshal (b : nat) (w : io_Writer)
    (vs : list value) (σ : world) (out : list byte) :
  lists σ !!! b = ListBuilder.mk openedState w (basicEncoder w) None None →
  sinks σ !!! w = mkSink out [] →
  Forall (marshals Marshal) vs →
  let σ' := exec (ListBuilder_adds Marshal b vs) σ in
  lists σ' !!! b = ListBuilder.mk openedState w (basicEncoder w) None None ∧
  sinks σ' !!! w =
    mkSink (out ++ comma_each (map (λ v, (Marshal v).1) vs)) [].
Proof.
  revert σ out. induction vs as [|v vs IH]; intros σ out HB HS Hm.
  - simpl. rewrite app_nil_r. done.
  - apply Forall_cons in Hm as [Hv Hm].
    cbn [ListBuilder_adds]. cbv zeta. rewrite exec_bind.
    destruct (ListBuilder_Add_ready Marshal b w openedState σ v out _ HB
                ltac:(by right) HS (marshals_pair _ _ Hv)) as [HB' HS'].
    destruct (IH _ _ HB' HS' Hm) as [HB'' HS'']. split; [done|].
    rewrite HS''. f_equal. cbn [map comma_each].
    rewrite decide_False by done. rewrite <- !app_assoc. done.
Qed.

(** From a fresh writer: the members joined by commas, and a state that
    [Close] accepts. *)
Lemma Builder_adds_fresh Marshal (b : nat) (w : io_Writer)
    (kvs : list (string * value)) (σ : world) (out : list byte) :
  builders σ !!! b = Builder.mk startState w (basicEncoder w) None None →
  sinks σ !!! w = mkSink out [] →
  Forall (λ kv, marshals Marshal (VString kv.1) ∧ marshals Marshal kv.2) kvs →
  let σ' := exec (Builder_adds Marshal b kvs) σ in
  (∃ st, st ≠ closedState ∧
     builders σ' !!! b = Builder.mk st w (basicEncoder w) None None) ∧
  sinks σ' !!! w =
    mkSink (out ++ join_comma (map (entry_bytes Marshal) kvs)) [].
Proof.
  intros HB HS Hm. destruct kvs as [|[key v] kvs].
  - simpl. rewrite app_nil_r. split; [|done]. by exists startState.
  - apply Forall_cons in Hm as [[Hk Hv] Hm]. cbn [fst snd] in Hk, Hv.
    cbn [Builder_adds]. cbv zeta. rewrite exec_bind.
    destruct (Builder_Add_ready Marshal b w startState σ key v out _ _ HB
                ltac:(by left) HS (marshals_pair _ _ Hk) (marshals_pair _ _ Hv))
      as [HB' HS'].
    destruct (Builder_adds_opened Marshal b w kvs _ _ HB' HS' Hm)
      as [HB'' HS''].
    split; [by exists openedState|].
    rewrite HS''. f_equal. cbn [map join_comma]. unfold entry_bytes at 2.
    cbn [fst snd]. rewrite decide_True by done.
    rewrite <- !app_assoc. done.
Qed.

Lemma ListBuilder_adds_fresh Marshal (b : nat) (w : io_Writer)
    (vs : list value) (σ : world) (out : list byte) :
  lists σ !!! b = ListBuilder.mk startState w (basicEncoder w) None None →
  sinks σ !!! w = mkSink out [] →
  Forall (marshals Marshal) vs →
  let σ' := exec (ListBuilder_adds Marshal b vs) σ in
  (∃ st, st ≠ closedState ∧
     lists σ' !!! b = ListBuilder.mk st w (basicEncoder w) None None) ∧
  sinks σ' !!! w =
    mkSink (out ++ join_comma (map (λ v, (Marshal v).1) vs)) [].
Proof.
  intros HB HS Hm. destruct vs as [|v vs].
  - simpl. rewrite app_nil_r. split; [|done]. by exists startState.
  - apply Forall_cons in Hm as [Hv Hm].
    cbn [ListBuilder_adds]. cbv zeta. rewrite exec_bind.
    destruct (ListBuilder_Add_ready Marshal b w startState σ v out _ HB
                ltac:(by left) HS (marshals_pair _ _ Hv)) as [HB' HS'].
    destruct (ListBuilder_adds_opened Marshal b w vs _ _ HB' HS' Hm)
      as [HB'' HS''].
    split; [by exists openedState|].
    rewrite HS''. f_equal. cbn [map join_comma].
    rewrite decide_True by done. rewrite <- !app_assoc. done.
Qed.

(** ** Closed writers *)

Lemma wp_pair {A} (m : M A) (σ : world) (r : A * world) :
  wp m (λ a σ', (a, σ') = r) σ → m σ = r.
Proof. unfold wp. by destruct (m σ). Qed.

Lemma Builder_preadd_closed Marshal (b : nat) (key : string) (σ : world) :
  Builder.state (builders σ !!! b) = closedState →
  Builder_preadd Marshal b key σ =
  (Some (errors_New "Builder mutated after Close()"),
   exec (modB b (Builder.set_Err
                   (Some (errors_New "Builder mutated after Close()")))) σ).
Proof. intros H. apply wp_pair. wp_go. done. Qed.

Lemma ListBuilder_preadd_closed (b : nat) (σ : world) :
  ListBuilder.state (lists σ !!! b) = closedState →
  ListBuilder_preadd b σ =
  (Some (errors_New "ListWriter mutated after Close()"),
   exec (modL b (ListBuilder.set_Err
                   (Some (errors_New "ListWriter mutated after Close()")))) σ).
Proof. intros H. apply wp_pair. wp_go. done. Qed.

Lemma mutated_Builder :
  mutated_after_close (Some (errors_New "Builder mutated after Close()")).
Proof. by exists "Builder". Qed.

Lemma mutated_ListBuilder :
  mutated_after_close (Some (errors_New "ListBuilder mutated after Close()")).
Proof. by exists "ListBuilder". Qed.

Lemma mutated_ListWriter :
  mutated_after_close (Some (errors_New "ListWriter mutated after Close()")).
Proof. by exists "ListWriter". Qed.

(** [Close] on a closed writer: the error, and nothing written. *)
Lemma Builder_Close_closed (b : nat) (σ : world) :
  Builder.state (builders σ !!! b) = closedState →
  exec (Builder_Close b) σ =
  exec (modB b (Builder.set_Err
                  (Some (errors_New "ListBuilder mutated after Close()")))) σ.
Proof.
  intros H. unfold Builder_Close. rewrite exec_bind.
  unfold getB at 1 2. cbn [eval exec fst snd]. rewrite H. done.
Qed.

Lemma ListBuilder_Close_closed (b : nat) (σ : world) :
  ListBuilder.state (lists σ !!! b) = closedState →
  exec (ListBuilder_Close b) σ =
  exec (modL b (ListBuilder.set_Err
                  (Some (errors_New "ListWriter mutated after Close()")))) σ.
Proof.
  intros H. unfold ListBuilder_Close. rewrite exec_bind.
  unfold getL at 1 2. cbn [eval exec fst snd]. rewrite H. done.
Qed.

(** A closed [Builder] stays closed under [Add], and with it under the
    loop of [AddAll]. *)
Lemma Builder_Add_closed Marshal (b : nat) (key : string) (v : value)
    (σ : world) :
  Builder.state (builders σ !!! b) = closedState →
  exec (Builder_Add Marshal b key v) σ =
  exec (modB b (Builder.set_Err
                  (Some (errors_New "Builder mutated after Close()")))) σ.
Proof.
  intros H. unfold Builder_Add. unfold exec at 1. rewrite bind_run.
  rewrite Builder_preadd_closed by done. done.
Qed.

Lemma ListBuilder_Add_closed Marshal (b : nat) (v : value) (σ : world) :
  ListBuilder.state (lists σ !!! b) = closedState →
  exec (ListBuilder_Add Marshal b v) σ =
  exec (modL b (ListBuilder.set_Err
                  (Some (errors_New "ListWriter mutated after Close()")))) σ.
Proof.
  intros H. unfold ListBuilder_Add. unfold exec at 1. rewrite bind_run.
  rewrite ListBuilder_preadd_closed by done. done.
Qed.

Lemma Builder_AddAll_loop_closed Marshal (b : nat) (args : list value)
    (i : nat) (σ : world) :
  Builder.state (builders σ !!! b) = closedState →
  Builder.state (builders (exec (Builder_AddAll_loop Marshal b i args) σ) !!! b)
  = closedState.
Proof.
  remember (List.length args) as n eqn:Hn.
  assert (List.length args ≤ n) as Hle by lia. clear Hn.
  revert args i σ Hle. induction n as [|n IH]; intros args i σ Hle H;
    destruct args as [|k [|v rest]]; try done; simpl in Hle; try lia.
  cbn [Builder_AddAll_loop]. rewrite exec_bind.
  unfold getB at 1 2. cbn [eval exec fst snd].
  destruct (Builder.Err (builders σ !!! b)); [done|].
  destruct k; try (unfold exec, modB; wp_simpl; done).
  rewrite exec_bind. apply IH; [lia|].
  rewrite Builder_Add_closed by done. unfold exec, modB. wp_simpl. done.
Qed.

Lemma ListBuilder_AddAll_closed Marshal (b : nat) (args : list value)
    (σ : world) :
  ListBuilder.state (lists σ !!! b) = closedState →
  ListBuilder.state (lists (exec (ListBuilder_AddAll Marshal b args) σ) !!! b)
  = closedState.
Proof.
  revert σ. induction args as [|v rest IH]; intros σ H; [done|].
  cbn [ListBuilder_AddAll]. rewrite exec_bind.
  unfold getL at 1 2. cbn [eval exec fst snd].
  destruct (ListBuilder.Err (lists σ !!! b)); [done|].
  rewrite exec_bind. apply IH.
  rewrite ListBuilder_Add_closed by done. unfold exec, modL. wp_simpl. done.
Qed.

(** Every operation leaves a closed [Builder] closed, and every operation
    but [AddAll] leaves a mutated-after-close error in [Err]. *)
Lemma Builder_call_closed Marshal (b : nat) (op : BuilderOp) (σ : world) :
  b < nextB σ →
  Builder.state (builders σ !!! b) = closedState →
  let σ' := exec (Builder_call Marshal b op) σ in
  Builder.state (builders σ' !!! b) = closedState ∧
  (is_AddAll_B op = false →
   mutated_after_close (Builder.Err (builders σ' !!! b))).
Proof.
  intros Hb H. cbv zeta.
  destruct op as [key v|args|key|key|key f|key f|]; cbn [Builder_call].
  - rewrite Builder_Add_closed by done. unfold exec, modB. wp_simpl.
    split; [done|]. intros _. apply mutated_Builder.
  - split; [|done]. unfold Builder_AddAll.
    destruct (negb _).
    + unfold exec, modB. wp_simpl. done.
    + by apply Builder_AddAll_loop_closed.
  - apply (wp_run _ (λ _ σ', Builder.state (builders σ' !!! b) = _ ∧
                             (_ → mutated_after_close
                                    (Builder.Err (builders σ' !!! b))))).
    wp_go; (split; [done|]); intros _; apply mutated_Builder.
  - apply (wp_run _ (λ _ σ', Builder.state (builders σ' !!! b) = _ ∧
                             (_ → mutated_after_close
                                    (Builder.Err (builders σ' !!! b))))).
    wp_go; (split; [done|]); intros _; apply mutated_Builder.
  - apply (wp_run _ (λ _ σ', Builder.state (builders σ' !!! b) = _ ∧
                             (_ → mutated_after_close
                                    (Builder.Err (builders σ' !!! b))))).
    wp_go; (split; [done|]); intros _; apply mutated_Builder.
  - apply (wp_run _ (λ _ σ', Builder.state (builders σ' !!! b) = _ ∧
                             (_ → mutated_after_close
                                    (Builder.Err (builders σ' !!! b))))).
    wp_go; (split; [done|]); intros _; apply mutated_Builder.
  - rewrite Builder_Close_closed by done. unfold exec, modB. wp_simpl.
    split; [done|]. intros _. apply mutated_ListBuilder.
Qed.

Lemma ListBuilder_call_closed Marshal (b : nat) (op : ListBuilderOp)
    (σ : world) :
  b < nextL σ →
  ListBuilder.state (lists σ !!! b) = closedState →
  let σ' := exec (ListBuilder_call Marshal b op) σ in
  ListBuilder.state (lists σ' !!! b) = closedState ∧
  (is_AddAll_L op = false →
   mutated_after_close (ListBuilder.Err (lists σ' !!! b))).
Proof.
  intros Hb H. cbv zeta.
  destruct op as [v|args| | |f|f|]; cbn [ListBuilder_call].
  - rewrite ListBuilder_Add_closed by done. unfold exec, modL. wp_simpl.
    split; [done|]. intros _. apply mutated_ListWriter.
  - split; [|done]. by apply ListBuilder_AddAll_closed.
  - apply (wp_run _ (λ _ σ', ListBuilder.state (lists σ' !!! b) = _ ∧
                             (_ → mutated_after_close
                                    (ListBuilder.Err (lists σ' !!! b))))).
    wp_go; (split; [done|]); intros _; apply mutated_ListWriter.
  - apply (wp_run _ (λ _ σ', ListBuilder.state (lists σ' !!! b) = _ ∧
                             (_ → mutated_after_close
                                    (ListBuilder.Err (lists σ' !!! b))))).
    wp_go; (split; [done|]); intros _; apply mutated_ListWriter.
  - apply (wp_run _ (λ _ σ', ListBuilder.state (lists σ' !!! b) = _ ∧
                             (_ → mutated_after_close
                                    (ListBuilder.Err (lists σ' !!! b))))).
    wp_go; (split; [done|]); intros _; apply mutated_ListWriter.
  - apply (wp_run _ (λ _ σ', ListBuilder.state (lists σ' !!! b) = _ ∧
                             (_ → mutated_after_close
                                    (ListBuilder.Err (lists σ' !!! b))))).
    wp_go; (split; [done|]); intros _; apply mutated_ListWriter.
  - rewrite ListBuilder_Close_closed by done. unfold exec, modL. wp_simpl.
    split; [done|]. intros _. apply mutated_ListWriter.
Qed.

(** A [Close] that goes through, stated on the fields. *)
Lemma Builder_Close_writes_once (b : nat) (σ : world) :
  Builder.state (builders σ !!! b) ≠ closedState →
  Builder.Err (builders σ !!! b) = None →
  Builder.subB (builders σ !!! b) = None →
  reliable (Builder.w (builders σ !!! b)) σ →
  let w := Builder.w (builders σ !!! b) in
  let σ' := exec (Builder_Close b) σ in
  output w σ' = output w σ ++ closeBraceBytes ∧
  Builder.state (builders σ' !!! b) = closedState ∧
  Builder.Err (builders σ' !!! b) = None.
Proof.
  intros Hst HErr Hsub Hw. cbv zeta.
  destruct (builders σ !!! b) as [st w en sub err] eqn:HB.
  cbn in Hst, HErr, Hsub, Hw |- *. subst sub err.
  unfold reliable in Hw.
  destruct (sinks σ !!! w) as [out sc] eqn:HS. cbn in Hw. subst sc.
  destruct (Builder_Close_ok b σ st w en out HB Hst HS) as [HB' HS'].
  unfold output. rewrite HS', HB', HS. done.
Qed.

Lemma ListBuilder_Close_writes_once (b : nat) (σ : world) :
  ListBuilder.state (lists σ !!! b) ≠ closedState →
  ListBuilder.Err (lists σ !!! b) = None →
  ListBuilder.subB (lists σ !!! b) = None →
  reliable (ListBuilder.w (lists σ !!! b)) σ →
  let w := ListBuilder.w (lists σ !!! b) in
  let σ' := exec (ListBuilder_Close b) σ in
  output w σ' = output w σ ++ closeBracketBytes ∧
  ListBuilder.state (lists σ' !!! b) = closedState ∧
  ListBuilder.Err (lists σ' !!! b) = None.
Proof.
  intros Hst HErr Hsub Hw. cbv zeta.
  destruct (lists σ !!! b) as [st w en sub err] eqn:HB.
  cbn in Hst, HErr, Hsub, Hw |- *. subst sub err.
  unfold reliable in Hw.
  destruct (sinks σ !!! w) as [out sc] eqn:HS. cbn in Hw. subst sc.
  destruct (ListBuilder_Close_ok b σ st w en out HB Hst HS) as [HB' HS'].
  unfold output. rewrite HS', HB', HS. done.
Qed.

(** ** The sticky error *)

(** C1.  The first recorded error does not always win.  After
    [NewBuilder], [AddObject("a")] and [Add("b", 1)] the writer holds the
    unclosed-child error, and [AddAll("k")] replaces it by the
    argument-count error.  After two [Close] calls the writer holds the
    error of the second, and [Add] replaces it by its own.  A sink error
    from the closing write is replaced by the next [Add].  And a sink
    error from the comma write is overwritten inside the same [preadd] by
    the result of encoding the key, so that [Add] returns with [Err] nil
    and the comma missing. *)
Theorem C1_first_error_replaced :
  (let σ1 := exec (j ← NewBuilder 0;
                   Builder_AddObject json_Marshal j "a";;
                   Builder_Add json_Marshal j "b" (VInt 1)) empty_world in
   let σ2 := exec (Builder_AddAll json_Marshal 0 [VString "k"]) σ1 in
   Builder.Err (builders σ1 !!! 0) =
     Some (errors_New "A sub-Builder was not closed") ∧
   Builder.Err (builders σ2 !!! 0) =
     Some (errors_New "AddAll takes an even number of args")) ∧
  (let σ1 := exec (j ← NewBuilder 0; Builder_Close j;; Builder_Close j)
               empty_world in
   let σ2 := exec (Builder_Add json_Marshal 0 "k" (VInt 1)) σ1 in
   Builder.Err (builders σ1 !!! 0) =
     Some (errors_New "ListBuilder mutated after Close()") ∧
   Builder.Err (builders σ2 !!! 0) =
     Some (errors_New "Builder mutated after Close()")) ∧
  (let σ1 := exec (j ← NewBuilder 0; Builder_Close j)
               (scripted_world [WriteOk; WriteFail 0 (foreign_error 1)]) in
   let σ2 := exec (Builder_Add json_Marshal 0 "k" (VInt 1)) σ1 in
   Builder.Err (builders σ1 !!! 0) = Some (foreign_error 1) ∧
   Builder.Err (builders σ2 !!! 0) =
     Some (errors_New "Builder mutated after Close()")) ∧
  (let σ1 := exec (j ← NewBuilder 0; Builder_Add json_Marshal j "a" (VInt 1))
               (scripted_world [WriteOk; WriteOk; WriteOk; WriteOk;
                                WriteFail 0 (foreign_error 1)]) in
   let σc := exec (Builder_write 0 commaBytes) σ1 in
   let σ2 := exec (Builder_Add json_Marshal 0 "b" (VInt 2)) σ1 in
   Builder.Err (builders σ1 !!! 0) = None ∧
   Builder.Err (builders σc !!! 0) = Some (foreign_error 1) ∧
   Builder.Err (builders σ2 !!! 0) = None ∧
   output 0 σ2 = bytes "{" ++ marshal_string "a" ++ bytes ":1" ++
                 marshal_string "b" ++ bytes ":2").
Proof. vm_compute. done. Qed.

(** What does hold: an operation that starts with an error in [Err] ends
    with an error in [Err]. *)
Lemma Builder_checkSub_keeps_error (b : nat) (σ : world) :
  Builder.Err (builders σ !!! b) ≠ None →
  Builder_checkSub b σ = (Builder.Err (builders σ !!! b), σ).
Proof.
  intros H. apply wp_pair.
  destruct (Builder.Err (builders σ !!! b)) eqn:E; [|done]. wp_go. done.
Qed.

Lemma ListBuilder_checkSub_keeps_error (b : nat) (σ : world) :
  ListBuilder.Err (lists σ !!! b) ≠ None →
  ListBuilder_checkSub b σ = (ListBuilder.Err (lists σ !!! b), σ).
Proof.
  intros H. apply wp_pair.
  destruct (ListBuilder.Err (lists σ !!! b)) eqn:E; [|done]. wp_go. done.
Qed.

Lemma Builder_preadd_keeps_error Marshal (b : nat) (key : string) (σ : world) :
  Builder.Err (builders σ !!! b) ≠ None →
  let σ' := exec (Builder_preadd Marshal b key) σ in
  eval (Builder_preadd Marshal b key) σ ≠ None ∧
  Builder.Err (builders σ' !!! b) ≠ None ∧ sinks σ' = sinks σ ∧
  Builder.state (builders σ' !!! b) = Builder.state (builders σ !!! b).
Proof.
  intros H. cbv zeta.
  apply (wp_run _ (λ a σ', a ≠ None ∧ Builder.Err (builders σ' !!! b) ≠ None ∧
    sinks σ' = sinks σ ∧
    Builder.state (builders σ' !!! b) = Builder.state (builders σ !!! b))).
  destruct (Builder.Err (builders σ !!! b)) eqn:E; [|done]. wp_go; done.
Qed.

Lemma ListBuilder_preadd_keeps_error (b : nat) (σ : world) :
  ListBuilder.Err (lists σ !!! b) ≠ None →
  let σ' := exec (ListBuilder_preadd b) σ in
  eval (ListBuilder_preadd b) σ ≠ None ∧
  ListBuilder.Err (lists σ' !!! b) ≠ None ∧ sinks σ' = sinks σ ∧
  ListBuilder.state (lists σ' !!! b) = ListBuilder.state (lists σ !!! b).
Proof.
  intros H. cbv zeta.
  apply (wp_run _ (λ a σ', a ≠ None ∧ ListBuilder.Err (lists σ' !!! b) ≠ None ∧
    sinks σ' = sinks σ ∧
    ListBuilder.state (lists σ' !!! b) = ListBuilder.state (lists σ !!! b))).
  destruct (ListBuilder.Err (lists σ !!! b)) eqn:E; [|done]. wp_go; done.
Qed.

Lemma ListBuilder_AddAll_stuck Marshal (b : nat) (args : list value)
    (σ : world) :
  ListBuilder.Err (lists σ !!! b) ≠ None →
  exec (ListBuilder_AddAll Marshal b args) σ = σ.
Proof.
  intros H. destruct args as [|v rest]; [done|].
  cbn [ListBuilder_AddAll]. rewrite exec_bind.
  unfold getL at 1 2. cbn [eval exec fst snd].
  destruct (ListBuilder.Err (lists σ !!! b)); done.
Qed.

(** With an error in [Err] at the start, every operation ends with an
    error in [Err], and every operation except the pointer-returning
    [AddObject] and [AddList] leaves the sinks alone. *)
Lemma Builder_call_with_error Marshal (b : nat) (op : BuilderOp) (σ : world) :
  b < nextB σ →
  Builder.Err (builders σ !!! b) ≠ None →
  let σ' := exec (Builder_call Marshal b op) σ in
  Builder.Err (builders σ' !!! b) ≠ None ∧
  match op with
  | BAddObject _ | BAddList _ => True
  | _ => sinks σ' = sinks σ
  end.
Proof.
  intros Hb H. cbv zeta.
  destruct op as [key v|args|key|key|key f|key f|]; cbn [Builder_call].
  2:{ unfold Builder_AddAll. destruct (negb _).
      - unfold exec, modB. wp_simpl. done.
      - by rewrite Builder_AddAll_loop_stuck. }
  2,3: apply (wp_run _ (λ _ σ', Builder.Err (builders σ' !!! b) ≠ None ∧ True));
    destruct (Builder.Err (builders σ !!! b)) eqn:E; [|done]; wp_go; done.
  all: apply (wp_run _ (λ _ σ', Builder.Err (builders σ' !!! b) ≠ None ∧
                               sinks σ' = sinks σ));
    destruct (Builder.Err (builders σ !!! b)) eqn:E; [|done]; wp_go; done.
Qed.

Lemma ListBuilder_call_with_error Marshal (b : nat) (op : ListBuilderOp)
    (σ : world) :
  b < nextL σ →
  ListBuilder.Err (lists σ !!! b) ≠ None →
  let σ' := exec (ListBuilder_call Marshal b op) σ in
  ListBuilder.Err (lists σ' !!! b) ≠ None ∧
  match op with
  | LAddList => True
  | _ => sinks σ' = sinks σ
  end.
Proof.
  intros Hb H. cbv zeta.
  destruct op as [v|args| | |f|f|]; cbn [ListBuilder_call].
  2:{ by rewrite ListBuilder_AddAll_stuck. }
  3: apply (wp_run _ (λ _ σ', ListBuilder.Err (lists σ' !!! b) ≠ None ∧ True));
    destruct (ListBuilder.Err (lists σ !!! b)) eqn:E; [|done]; wp_go; done.
  all: apply (wp_run _ (λ _ σ', ListBuilder.Err (lists σ' !!! b) ≠ None ∧
                               sinks σ' = sinks σ));
    destruct (ListBuilder.Err (lists σ !!! b)) eqn:E; [|done]; wp_go; done.
Qed.

(** C3.  An operation can write after the error was set.  On a closed
    [Builder], [AddObject] records the mutated-after-close error in its
    [preadd] and then still constructs the child, whose [init] appends an
    opening brace to the shared sink; [Builder.AddList] and
    [ListBuilder.AddList] do the same with an opening bracket, while
    [ListBuilder.AddObject] writes nothing.  And when the comma write of
    [Builder.preadd] fails, the key and the colon are still written by the
    same call. *)
Theorem C3_bytes_after_error :
  (let σ1 := exec (j ← NewBuilder 0; Builder_Close j) empty_world in
   let σ2 := exec (Builder_AddObject json_Marshal 0 "k") σ1 in
   let σ3 := exec (Builder_AddList json_Marshal 0 "k") σ1 in
   output 0 σ1 = bytes "{}" ∧
   Builder.Err (builders σ2 !!! 0) =
     Some (errors_New "Builder mutated after Close()") ∧
   output 0 σ2 = bytes "{}{" ∧
   Builder.Err (builders σ3 !!! 0) =
     Some (errors_New "Builder mutated after Close()") ∧
   output 0 σ3 = bytes "{}[") ∧
  (let σ1 := exec (j ← NewListBuilder 0; ListBuilder_Close j) empty_world in
   let σ2 := exec (ListBuilder_AddList 0) σ1 in
   let σ3 := exec (ListBuilder_AddObject 0) σ1 in
   output 0 σ1 = bytes "[]" ∧
   ListBuilder.Err (lists σ2 !!! 0) =
     Some (errors_New "ListWriter mutated after Close()") ∧
   output 0 σ2 = bytes "[][" ∧
   output 0 σ3 = bytes "[]") ∧
  (let σ1 := exec (j ← NewBuilder 0; Builder_Add json_Marshal j "a" (VInt 1))
               (scripted_world [WriteOk; WriteOk; WriteOk; WriteOk;
                                WriteFail 0 (foreign_error 1)]) in
   let σc := exec (Builder_write 0 commaBytes) σ1 in
   let σ2 := exec (Builder_preadd json_Marshal 0 "b") σ1 in
   Builder.Err (builders σc !!! 0) = Some (foreign_error 1) ∧
   output 0 σc = output 0 σ1 ∧
   output 0 σ2 = output 0 σ1 ++ marshal_string "b" ++ bytes ":").
Proof. vm_compute. done. Qed.

(** ** Unclosed children *)

(** C2.  A child made by [ListBuilder.AddObject] is not recorded in the
    parent: with the child still open, [Add] and [Close] on the parent
    record no error and the list is closed around an unterminated object.
    The same steps with [ListBuilder.AddList], [Builder.AddObject] or
    [Builder.AddList] leave the unclosed-child error in the parent. *)
Theorem C2_ListBuilder_AddObject_child_untracked :
  (let σ1 := exec (j ← NewListBuilder 0; ListBuilder_AddObject j) empty_world in
   let σ2 := exec (ListBuilder_Add json_Marshal 0 (VInt 1)) σ1 in
   let σ3 := exec (ListBuilder_Close 0) σ2 in
   eval (j ← NewListBuilder 0; ListBuilder_AddObject j) empty_world = Some 0 ∧
   Builder.state (builders σ1 !!! 0) ≠ closedState ∧
   ListBuilder.subB (lists σ1 !!! 0) = None ∧
   ListBuilder.Err (lists σ2 !!! 0) = None ∧
   ListBuilder.Err (lists σ3 !!! 0) = None ∧
   output 0 σ3 = bytes "[{,1]") ∧
  (let σ1 := exec (j ← NewListBuilder 0; ListBuilder_AddList j) empty_world in
   let σ2 := exec (ListBuilder_Add json_Marshal 0 (VInt 1)) σ1 in
   ListBuilder.Err (lists σ2 !!! 0) =
     Some (errors_New "A sub-Builder was not closed")) ∧
  (let σ1 := exec (j ← NewBuilder 0; Builder_AddObject json_Marshal j "a")
               empty_world in
   let σ2 := exec (Builder_Add json_Marshal 0 "b" (VInt 1)) σ1 in
   Builder.Err (builders σ2 !!! 0) =
     Some (errors_New "A sub-Builder was not closed")) ∧
  (let σ1 := exec (j ← NewBuilder 0; Builder_AddList json_Marshal j "a")
               empty_world in
   let σ2 := exec (Builder_Add json_Marshal 0 "b" (VInt 1)) σ1 in
   Builder.Err (builders σ2 !!! 0) =
     Some (errors_New "A sub-Builder was not closed")).
Proof. vm_compute. done. Qed.

Ltac wp_upto_preadd :=
  repeat lazymatch goal with
         | |- wp (Builder_preadd _ _ _) _ _ => fail
         | |- wp (ListBuilder_preadd _) _ _ => fail
         | |- wp (Builder_checkSub _) _ _ => fail
         | |- wp (ListBuilder_checkSub _) _ _ => fail
         | |- _ => wp_step
         end.

(** A child recorded in [subB] that carries an error or is not closed is
    found by the parent's next operation, [AddAll] apart. *)
Lemma Builder_pending_child_detected Marshal (b : nat) (op : BuilderOp)
    (c : builderCommon) (σ : world) :
  b < nextB σ →
  Builder.subB (builders σ !!! b) = Some c →
  child_pending c σ →
  is_AddAll_B op = false →
  Builder.Err (builders (exec (Builder_call Marshal b op) σ) !!! b) ≠ None.
Proof.
  intros Hb Hsub Hpend Hop.
  apply (wp_run _ (λ _ σ', Builder.Err (builders σ' !!! b) ≠ None)).
  destruct op as [key v|args|key|key|key f|key f|]; [|done|..];
    cbn [Builder_call].
  6:{ unfold Builder_Close. do 3 wp_step; [wp_go; done|].
      wp_step. apply wp_call. intros err σ1 Hc.
      pose proof (Builder_checkSub_fails b σ
        ltac:(right; by exists c)) as He.
      pose proof (Builder_checkSub_returns_Err b σ) as HE.
      rewrite (eval_of_run _ _ _ _ Hc) in He, HE.
      rewrite (exec_of_run _ _ _ _ Hc) in HE.
      destruct err; [|done]. wp_go. congruence. }
  all: wp_upto_preadd; apply wp_call; intros err σ1 Hp;
    pose proof (Builder_preadd_fails Marshal b key σ
      ltac:(right; right; by exists c)) as He;
    pose proof (Builder_preadd_returns_Err Marshal b key σ) as HE;
    pose proof (Builder_frame_preadd Marshal b key σ) as (HnB & _);
    rewrite (eval_of_run _ _ _ _ Hp) in He, HE;
    rewrite (exec_of_run _ _ _ _ Hp) in HE, HnB;
    (destruct err; [|done]); symmetry in HE; wp_go; done.
Qed.

Lemma ListBuilder_pending_child_detected Marshal (b : nat)
    (op : ListBuilderOp) (c : builderCommon) (σ : world) :
  b < nextL σ →
  ListBuilder.subB (lists σ !!! b) = Some c →
  child_pending c σ →
  is_AddAll_L op = false →
  ListBuilder.Err (lists (exec (ListBuilder_call Marshal b op) σ) !!! b)
  ≠ None.
Proof.
  intros Hb Hsub Hpend Hop.
  apply (wp_run _ (λ _ σ', ListBuilder.Err (lists σ' !!! b) ≠ None)).
  destruct op as [v|args| | |f|f|]; [|done|..]; cbn [ListBuilder_call].
  6:{ unfold ListBuilder_Close. do 3 wp_step; [wp_go; done|].
      wp_step. apply wp_call. intros err σ1 Hc.
      pose proof (ListBuilder_checkSub_fails b σ
        ltac:(right; by exists c)) as He.
      pose proof (ListBuilder_checkSub_returns_Err b σ) as HE.
      rewrite (eval_of_run _ _ _ _ Hc) in He, HE.
      rewrite (exec_of_run _ _ _ _ Hc) in HE.
      destruct err; [|done]. wp_go. congruence. }
  all: wp_upto_preadd; apply wp_call; intros err σ1 Hp;
    pose proof (ListBuilder_preadd_fails b σ
      ltac:(right; right; by exists c)) as He;
    pose proof (ListBuilder_preadd_returns_Err b σ) as HE;
    pose proof (ListBuilder_frame_preadd b σ) as (_ & HnL & _);
    rewrite (eval_of_run _ _ _ _ Hp) in He, HE;
    rewrite (exec_of_run _ _ _ _ Hp) in HE, HnL;
    (destruct err; [|done]); symmetry in HE; wp_go; done.
Qed.

(** The three constructors that record their child: the child is in
    [subB], fresh, and not closed. *)
Lemma Builder_AddObject_records_child Marshal (b : nat) (key : string)
    (σ : world) :
  b < nextB σ →
  let σ' := exec (Builder_AddObject Marshal b key) σ in
  Builder.subB (builders σ' !!! b) = Some (BuilderPtr (nextB σ)) ∧
  Builder.state (builders σ' !!! nextB σ) = 0%Z.
Proof.
  intros Hb. cbv zeta.
  apply (wp_run _ (λ _ σ', Builder.subB (builders σ' !!! b) = _ ∧
                           Builder.state (builders σ' !!! nextB σ) = 0%Z)).
  wp_upto_preadd. apply wp_call. intros err σ1 Hp.
  pose proof (Builder_frame_preadd Marshal b key σ) as (HnB & _).
  rewrite (exec_of_run _ _ _ _ Hp) in HnB. wp_go; done.
Qed.

Lemma Builder_AddList_records_child Marshal (b : nat) (key : string)
    (σ : world) :
  let σ' := exec (Builder_AddList Marshal b key) σ in
  Builder.subB (builders σ' !!! b) = Some (ListBuilderPtr (nextL σ)) ∧
  ListBuilder.state (lists σ' !!! nextL σ) = 0%Z.
Proof.
  cbv zeta.
  apply (wp_run _ (λ _ σ', Builder.subB (builders σ' !!! b) = _ ∧
                           ListBuilder.state (lists σ' !!! nextL σ) = 0%Z)).
  wp_upto_preadd. apply wp_call. intros err σ1 Hp.
  pose proof (Builder_frame_preadd Marshal b key σ) as (_ & HnL & _).
  rewrite (exec_of_run _ _ _ _ Hp) in HnL. wp_go; done.
Qed.

Lemma ListBuilder_AddList_records_child (b : nat) (σ : world) :
  b < nextL σ →
  let σ' := exec (ListBuilder_AddList b) σ in
  ListBuilder.subB (lists σ' !!! b) = Some (ListBuilderPtr (nextL σ)) ∧
  ListBuilder.state (lists σ' !!! nextL σ) = 0%Z.
Proof.
  intros Hb. cbv zeta.
  apply (wp_run _ (λ _ σ', ListBuilder.subB (lists σ' !!! b) = _ ∧
                           ListBuilder.state (lists σ' !!! nextL σ) = 0%Z)).
  wp_upto_preadd. apply wp_call. intros err σ1 Hp.
  pose proof (ListBuilder_frame_preadd b σ) as (_ & HnL & _).
  rewrite (exec_of_run _ _ _ _ Hp) in HnL. wp_go; done.
Qed.

(** [ListBuilder.AddObject] leaves [subB] as [preadd] left it: nil when
    [preadd] succeeded. *)
Lemma ListBuilder_AddObject_records_nothing (b : nat) (σ : world) :
  eval (ListBuilder_preadd b) σ = None →
  ListBuilder.subB (lists (exec (ListBuilder_AddObject b) σ) !!! b) = None.
Proof.
  intros He.
  apply (wp_run _ (λ _ σ', ListBuilder.subB (lists σ' !!! b) = None)).
  unfold ListBuilder_AddObject. wp_step.
  revert He. unfold eval. apply (wp_run _ (λ a σ', a = None → wp _ _ σ')).
  wp_go; try done; intros _; wp_go; done.
Qed.

(** ** The package's tests, run on the model *)

(** [TestBuilder]: the entries of [jsonTests] whose values the model has,
    each followed by [Close] on an empty buffer. *)
Lemma TestBuilder_cases :
  let run (fn : nat → M unit) :=
    let σ := exec (j ← NewBuilder 0; fn j;; Builder_Close j) empty_world in
    (output 0 σ, Builder.Err (builders σ !!! 0)) in
  run (λ j, mret tt) = (bytes "{}", None) ∧
  run (λ j, Builder_Add json_Marshal j "foo" (VInt 7)) =
    (bytes "{" ++ marshal_string "foo" ++ bytes ":7}", None) ∧
  run (λ j, Builder_Add json_Marshal j "foo" (VBool false)) =
    (bytes "{" ++ marshal_string "foo" ++ bytes ":false}", None) ∧
  run (λ j, s ← Builder_AddObject json_Marshal j "foo";
            if s is Some s
            then Builder_Add json_Marshal s "bar" (VInt 7);; Builder_Close s
            else mret tt) =
    (bytes "{" ++ marshal_string "foo" ++ bytes ":{" ++ marshal_string "bar" ++
     bytes ":7}}", None) ∧
  run (λ j, s ← Builder_AddList json_Marshal j "foo";
            if s is Some s
            then ListBuilder_AddAll json_Marshal s [VString "bar"; VInt 7];;
                 ListBuilder_Close s
            else mret tt) =
    (bytes "{" ++ marshal_string "foo" ++ bytes ":[" ++ marshal_string "bar" ++
     bytes ",7]}", None) ∧
  run (λ j, Builder_AddListFunc json_Marshal j "foo" test_g) =
    (bytes "{" ++ marshal_string "foo" ++ bytes ":[1,2,3]}", None) ∧
  run (λ j, Builder_AddObjectFunc json_Marshal j "foo" test_h) =
    (bytes "{" ++ marshal_string "foo" ++ bytes ":{" ++
     marshal_string "corge" ++ bytes ":{" ++ marshal_string "baz" ++
     bytes ":7}," ++ marshal_string "grault" ++ bytes ":{" ++
     marshal_string "garply" ++ bytes ":[1,2,3]}}}", None).
Proof. vm_compute. done. Qed.

(** [TestListBuilder]. *)
Lemma TestListBuilder_cases :
  let run (fn : nat → M unit) :=
    let σ := exec (j ← NewListBuilder 0; fn j;; ListBuilder_Close j)
               empty_world in
    (output 0 σ, ListBuilder.Err (lists σ !!! 0)) in
  run (λ j, mret tt) = (bytes "[]", None) ∧
  run (λ j, ListBuilder_Add json_Marshal j (VString "foo");;
            ListBuilder_Add json_Marshal j (VInt 7)) =
    (bytes "[" ++ marshal_string "foo" ++ bytes ",7]", None) ∧
  run (λ j, ListBuilder_AddAll json_Marshal j [VString "foo"; VInt 7]) =
    (bytes "[" ++ marshal_string "foo" ++ bytes ",7]", None) ∧
  run (λ j, ListBuilder_AddObjectFunc j test_f) =
    (bytes "[{" ++ marshal_string "baz" ++ bytes ":7}]", None) ∧
  run (λ j, ListBuilder_AddListFunc j test_g) = (bytes "[[1,2,3]]", None).
Proof. vm_compute. done. Qed.

(** [TestUnclosedSubBuilder]: the parent is used while the child made by
    [AddObject] is open, and ends with an error. *)
Lemma TestUnclosedSubBuilder_case :
  let σ := exec (j ← NewBuilder 0;
                 Builder_Add json_Marshal j "1" (VInt 1);;
                 s ← Builder_AddObject json_Marshal j "2";
                 (if s is Some s then Builder_Add json_Marshal s "3" (VInt 3)
                  else mret tt);;
                 Builder_Add json_Marshal j "4" (VInt 4)) empty_world in
  Builder.Err (builders σ !!! 0) ≠ None.
Proof. vm_compute. done. Qed.

(** Scenario C: [AddAll] with two pairs. *)
Lemma scenario_C_output :
  output 0 (exec scenario_C empty_world) =
  bytes "{" ++ marshal_string "1" ++ bytes ":" ++ marshal_string "one" ++
  bytes "," ++ marshal_string "2" ++ bytes ":" ++ marshal_string "two" ++
  bytes "}".
Proof. vm_compute. done. Qed.

(** ** Nested documents *)

Lemma Builder_preadd_ready Marshal (b : nat) (w : io_Writer)
    (st : writerState) (sub : option builderCommon) (σ : world)
    (key : string) (out kb : list byte) :
  builders σ !!! b = Builder.mk st w (basicEncoder w) sub None →
  st = startState ∨ st = openedState →
  child_fine sub σ →
  sinks σ !!! w = mkSink out [] →
  Marshal (VString key) = (kb, None) →
  let σ' := exec (Builder_preadd Marshal b key) σ in
  eval (Builder_preadd Marshal b key) σ = None ∧
  builders σ' !!! b = Builder.mk openedState w (basicEncoder w) None None ∧
  sinks σ' !!! w = mkSink (out ++ sep st ++ kb ++ colonBytes) [].
Proof.
  intros HB Hst Hfine HS Hk. cbv zeta.
  apply (wp_run _ (λ a σ', a = None ∧
    builders σ' !!! b = Builder.mk openedState w (basicEncoder w) None None ∧
    sinks σ' !!! w = mkSink (out ++ sep st ++ kb ++ colonBytes) [])).
  unfold sep.
  destruct sub as [[p|p]|];
    unfold child_fine, eval, builderCommon_err, builderCommon_closed in Hfine;
    simpl in Hfine;
    [destruct Hfine as [Hf1 Hf2]..|];
    destruct Hst as [-> | ->]; wp_go; split_and!; try done;
    try case_decide; try done; rewrite <- ?app_assoc; done.
Qed.

Lemma ListBuilder_preadd_ready (b : nat) (w : io_Writer)
    (st : writerState) (sub : option builderCommon) (σ : world)
    (out : list byte) :
  lists σ !!! b = ListBuilder.mk st w (basicEncoder w) sub None →
  st = startState ∨ st = openedState →
  child_fine sub σ →
  sinks σ !!! w = mkSink out [] →
  let σ' := exec (ListBuilder_preadd b) σ in
  eval (ListBuilder_preadd b) σ = None ∧
  lists σ' !!! b = ListBuilder.mk openedState w (basicEncoder w) None None ∧
  sinks σ' !!! w = mkSink (out ++ sep st) [].
Proof.
  intros HB Hst Hfine HS. cbv zeta.
  apply (wp_run _ (λ a σ', a = None ∧
    lists σ' !!! b = ListBuilder.mk openedState w (basicEncoder w) None None ∧
    sinks σ' !!! w = mkSink (out ++ sep st) [])).
  unfold sep.
  destruct sub as [[p|p]|];
    unfold child_fine, eval, builderCommon_err, builderCommon_closed in Hfine;
    simpl in Hfine;
    [destruct Hfine as [Hf1 Hf2]..|];
    destruct Hst as [-> | ->]; wp_go; split_and!; try done;
    try case_decide; try done; rewrite ?app_nil_r; done.
Qed.

Lemma keeps_refl (P Q : nat → Prop) (σ : world) : keeps P Q σ σ.
Proof. unfold keeps. done. Qed.

Lemma keeps_trans (P Q : nat → Prop) (σ1 σ2 σ3 : world) :
  keeps P Q σ1 σ2 → keeps P Q σ2 σ3 → keeps P Q σ1 σ3.
Proof.
  intros (H1 & H2 & H3 & H4) (H1' & H2' & H3' & H4').
  unfold keeps. split_and!; try lia.
  - intros k Hk. rewrite H3', H3; done.
  - intros l Hl. rewrite H4', H4; done.
Qed.

Lemma keeps_weaken (P Q P' Q' : nat → Prop) (σ σ' : world) :
  keeps P Q σ σ' → (∀ k, P' k → P k) → (∀ l, Q' l → Q l) → keeps P' Q' σ σ'.
Proof.
  intros (H1 & H2 & H3 & H4) HP HQ. unfold keeps.
  split_and!; [done..| |]; intros; auto.
Qed.

Lemma Builder_frame_keeps (b : nat) (σ σ' : world) :
  Builder_frame b σ σ' → keeps (λ k, k ≠ b) (λ _, True) σ σ'.
Proof.
  intros (HnB & HnL & HL & HB & _). unfold keeps.
  rewrite HnB, HnL, HL. split_and!; auto.
Qed.

Lemma ListBuilder_frame_keeps (b : nat) (σ σ' : world) :
  ListBuilder_frame b σ σ' → keeps (λ _, True) (λ l, l ≠ b) σ σ'.
Proof.
  intros (HnB & HnL & HB & HL & _). unfold keeps.
  rewrite HnB, HnL, HB. split_and!; auto.
Qed.

Lemma Builder_frame_grows (b : nat) (σ σ' : world) :
  Builder_frame b σ σ' → Builder_grows b σ σ'.
Proof.
  intros H. eapply keeps_weaken; [by apply Builder_frame_keeps|..];
    cbn; intros; tauto.
Qed.

Lemma ListBuilder_frame_grows (b : nat) (σ σ' : world) :
  ListBuilder_frame b σ σ' → ListBuilder_grows b σ σ'.
Proof.
  intros H. eapply keeps_weaken; [by apply ListBuilder_frame_keeps|..];
    cbn; intros; tauto.
Qed.

(** [Add] into a writer that is ready. *)
Lemma Builder_Add_member Marshal (b : nat) (w : io_Writer) (st : writerState)
    (sub : option builderCommon) (σ : world) (key : string) (v : value)
    (out : list byte) :
  builders σ !!! b = Builder.mk st w (basicEncoder w) sub None →
  st = startState ∨ st = openedState →
  child_fine sub σ →
  sinks σ !!! w = mkSink out [] →
  marshals Marshal (VString key) →
  marshals Marshal v →
  let σ' := exec (Builder_Add Marshal b key v) σ in
  builders σ' !!! b = Builder.mk openedState w (basicEncoder w) None None ∧
  sinks σ' !!! w =
    mkSink (out ++ sep st ++ (Marshal (VString key)).1 ++ colonBytes ++
            (Marshal v).1) [] ∧
  Builder_grows b σ σ'.
Proof.
  intros HB Hst Hfine HS Hk Hv. cbv zeta.
  split_and!; [| |apply Builder_frame_grows, Builder_frame_Add].
  all: unfold marshals in Hk, Hv.
  all: destruct (Marshal (VString key)) as [kb kerr] eqn:Ek;
    cbn [fst snd] in Hk |- *; subst kerr.
  all: destruct (Builder_preadd_ready Marshal b w st sub σ key out kb HB Hst
                   Hfine HS Ek) as (He & HB1 & HS1).
  all: unfold exec, Builder_Add; rewrite bind_run.
  all: unfold eval, exec in He, HB1, HS1.
  all: destruct (Builder_preadd Marshal b key σ) as [err σ1];
    cbn [fst snd] in *; subst err.
  all: destruct (Marshal v) as [vb verr] eqn:Ev;
    cbn [fst snd] in Hv |- *; subst verr.
  - refine (wp_run _ (λ _ σ', builders σ' !!! b = _) σ1 _). wp_go. done.
  - refine (wp_run _ (λ _ σ', sinks σ' !!! w = _) σ1 _). wp_go.
    rewrite <- !app_assoc. done.
Qed.

Lemma ListBuilder_Add_elem Marshal (b : nat) (w : io_Writer)
    (st : writerState) (sub : option builderCommon) (σ : world) (v : value)
    (out : list byte) :
  lists σ !!! b = ListBuilder.mk st w (basicEncoder w) sub None →
  st = startState ∨ st = openedState →
  child_fine sub σ →
  sinks σ !!! w = mkSink out [] →
  marshals Marshal v →
  let σ' := exec (ListBuilder_Add Marshal b v) σ in
  lists σ' !!! b = ListBuilder.mk openedState w (basicEncoder w) None None ∧
  sinks σ' !!! w = mkSink (out ++ sep st ++ (Marshal v).1) [] ∧
  ListBuilder_grows b σ σ'.
Proof.
  intros HB Hst Hfine HS Hv. cbv zeta.
  split_and!; [| |apply ListBuilder_frame_grows, ListBuilder_frame_Add].
  all: unfold marshals in Hv.
  all: destruct (ListBuilder_preadd_ready b w st sub σ out HB Hst
                   Hfine HS) as (He & HB1 & HS1).
  all: unfold exec, ListBuilder_Add; rewrite bind_run.
  all: unfold eval, exec in He, HB1, HS1.
  all: destruct (ListBuilder_preadd b σ) as [err σ1];
    cbn [fst snd] in *; subst err.
  all: destruct (Marshal v) as [vb verr] eqn:Ev;
    cbn [fst snd] in Hv |- *; subst verr.
  - refine (wp_run _ (λ _ σ', lists σ' !!! b = _) σ1 _). wp_go. done.
  - refine (wp_run _ (λ _ σ', sinks σ' !!! w = _) σ1 _). wp_go.
    rewrite <- !app_assoc. done.
Qed.

(** [Close] on a writer that is ready. *)
Lemma Builder_Close_fine (b : nat) (σ : world) (st : writerState)
    (w : io_Writer) (en : encoder) (sub : option builderCommon)
    (out : list byte) :
  builders σ !!! b = Builder.mk st w en sub None →
  st ≠ closedState →
  child_fine sub σ →
  sinks σ !!! w = mkSink out [] →
  let σ' := exec (Builder_Close b) σ in
  builders σ' !!! b = Builder.mk closedState w en None None ∧
  sinks σ' !!! w = mkSink (out ++ closeBraceBytes) [] ∧
  Builder_grows b σ σ'.
Proof.
  intros HB Hst Hfine HS. cbv zeta.
  split_and!; [| |apply Builder_frame_grows, Builder_frame_Close].
  all: pose proof (Zeqb_closed_false _ Hst) as E.
  all: destruct sub as [[p|p]|];
    unfold child_fine, eval, builderCommon_err, builderCommon_closed in Hfine;
    simpl in Hfine; [destruct Hfine as [Hf1 Hf2]..|].
  1-3: apply (wp_run _ (λ _ σ', builders σ' !!! b = _)); wp_go; done.
  all: apply (wp_run _ (λ _ σ', sinks σ' !!! w = _)); wp_go; done.
Qed.

Lemma ListBuilder_Close_fine (b : nat) (σ : world) (st : writerState)
    (w : io_Writer) (en : encoder) (sub : option builderCommon)
    (out : list byte) :
  lists σ !!! b = ListBuilder.mk st w en sub None →
  st ≠ closedState →
  child_fine sub σ →
  sinks σ !!! w = mkSink out [] →
  let σ' := exec (ListBuilder_Close b) σ in
  lists σ' !!! b = ListBuilder.mk closedState w en None None ∧
  sinks σ' !!! w = mkSink (out ++ closeBracketBytes) [] ∧
  ListBuilder_grows b σ σ'.
Proof.
  intros HB Hst Hfine HS. cbv zeta.
  split_and!; [| |apply ListBuilder_frame_grows, ListBuilder_frame_Close].
  all: pose proof (Zeqb_closed_false _ Hst) as E.
  all: destruct sub as [[p|p]|];
    unfold child_fine, eval, builderCommon_err, builderCommon_closed in Hfine;
    simpl in Hfine; [destruct Hfine as [Hf1 Hf2]..|].
  1-3: apply (wp_run _ (λ _ σ', lists σ' !!! b = _)); wp_go; done.
  all: apply (wp_run _ (λ _ σ', sinks σ' !!! w = _)); wp_go; done.
Qed.

(** Construction of a child on a sink that takes the write. *)
Lemma construct_Builder_fresh (w : io_Writer) (σ : world) (out : list byte) :
  sinks σ !!! w = mkSink out [] →
  construct_Builder w (basicEncoder w) σ =
  (nextB σ,
   World (<[nextB σ := Builder.mk 0%Z w (basicEncoder w) None None]>
            (builders σ))
         (S (nextB σ)) (lists σ) (nextL σ)
         (<[w := mkSink (out ++ openBraceBytes) []]> (sinks σ))).
Proof.
  intros HS. apply wp_pair. unfold construct_Builder. wp_go.
  rewrite insert_insert_eq. done.
Qed.

Lemma construct_ListBuilder_fresh (w : io_Writer) (σ : world)
    (out : list byte) :
  sinks σ !!! w = mkSink out [] →
  construct_ListBuilder w (basicEncoder w) σ =
  (nextL σ,
   World (builders σ) (nextB σ)
         (<[nextL σ := ListBuilder.mk 0%Z w (basicEncoder w) None None]>
            (lists σ))
         (S (nextL σ))
         (<[w := mkSink (out ++ openBracketBytes) []]> (sinks σ))).
Proof.
  intros HS. apply wp_pair. unfold construct_ListBuilder. wp_go.
  rewrite insert_insert_eq. done.
Qed.

(** The pointer-returning constructors, as runs of their parts. *)
Lemma Builder_AddObject_run Marshal (b : nat) (key : string)
    (σ σ1 σ2 : world) (err : option error) (c : nat) :
  Builder_preadd Marshal b key σ = (err, σ1) →
  construct_Builder (Builder.w (builders σ1 !!! b))
    (Builder.e (builders σ1 !!! b)) σ1 = (c, σ2) →
  Builder_AddObject Marshal b key σ =
  (Some c, exec (modB b (Builder.set_subB (Some (BuilderPtr c)))) σ2).
Proof.
  intros Hp Hc. unfold Builder_AddObject, construct_Builder in *.
  cbv [mbind M_bind mret M_ret getB] in *. rewrite Hp.
  destruct (newB _ σ1) as [c0 σ3]. destruct (Builder_init c0 σ3) as [[] σ4].
  injection Hc as -> ->. done.
Qed.

Lemma Builder_AddList_run Marshal (b : nat) (key : string)
    (σ σ1 σ2 : world) (err : option error) (c : nat) :
  Builder_preadd Marshal b key σ = (err, σ1) →
  construct_ListBuilder (Builder.w (builders σ1 !!! b))
    (Builder.e (builders σ1 !!! b)) σ1 = (c, σ2) →
  Builder_AddList Marshal b key σ =
  (Some c, exec (modB b (Builder.set_subB (Some (ListBuilderPtr c)))) σ2).
Proof.
  intros Hp Hc. unfold Builder_AddList, construct_ListBuilder in *.
  cbv [mbind M_bind mret M_ret getB] in *. rewrite Hp.
  destruct (newL _ σ1) as [c0 σ3]. destruct (ListBuilder_init c0 σ3) as [[] σ4].
  injection Hc as -> ->. done.
Qed.

Lemma ListBuilder_AddObject_run (b : nat) (σ σ1 σ2 : world) (c : nat) :
  ListBuilder_preadd b σ = (None, σ1) →
  construct_Builder (ListBuilder.w (lists σ1 !!! b))
    (ListBuilder.e (lists σ1 !!! b)) σ1 = (c, σ2) →
  ListBuilder_AddObject b σ = (Some c, σ2).
Proof.
  intros Hp Hc. unfold ListBuilder_AddObject, construct_Builder in *.
  cbv [mbind M_bind mret M_ret getL] in *. rewrite Hp.
  destruct (newB _ σ1) as [c0 σ3]. destruct (Builder_init c0 σ3) as [[] σ4].
  injection Hc as -> ->. done.
Qed.

Lemma ListBuilder_AddList_run (b : nat) (σ σ1 σ2 : world)
    (err : option error) (c : nat) :
  ListBuilder_preadd b σ = (err, σ1) →
  construct_ListBuilder (ListBuilder.w (lists σ1 !!! b))
    (ListBuilder.e (lists σ1 !!! b)) σ1 = (c, σ2) →
  ListBuilder_AddList b σ =
  (Some c, exec (modL b (ListBuilder.set_subB (Some (ListBuilderPtr c)))) σ2).
Proof.
  intros Hp Hc. unfold ListBuilder_AddList, construct_ListBuilder in *.
  cbv [mbind M_bind mret M_ret getL] in *. rewrite Hp.
  destruct (newL _ σ1) as [c0 σ3]. destruct (ListBuilder_init c0 σ3) as [[] σ4].
  injection Hc as -> ->. done.
Qed.

(** Induction on documents, with the members of objects and lists. *)
Lemma node_ind2 (P : node → Prop) :
  (∀ v, P (NValue v)) →
  (∀ ms, Forall (λ km, P km.2) ms → P (NObjectFunc ms)) →
  (∀ es, Forall P es → P (NListFunc es)) →
  (∀ ms, Forall (λ km, P km.2) ms → P (NObject ms)) →
  (∀ es, Forall P es → P (NList es)) →
  ∀ n, P n.
Proof.
  intros Hv Hof Hlf Ho Hl. fix IH 1. intros [v|ms|es|ms|es].
  - apply Hv.
  - apply Hof.
    refine ((fix go (ms : list (string * node)) : Forall (λ km, P km.2) ms :=
               match ms with
               | [] => List.Forall_nil _
               | km :: ms' => List.Forall_cons _ km ms' (IH km.2) (go ms')
               end) ms).
  - apply Hlf.
    refine ((fix go (es : list node) : Forall P es :=
               match es with
               | [] => List.Forall_nil _
               | m :: es' => List.Forall_cons _ m es' (IH m) (go es')
               end) es).
  - apply Ho.
    refine ((fix go (ms : list (string * node)) : Forall (λ km, P km.2) ms :=
               match ms with
               | [] => List.Forall_nil _
               | km :: ms' => List.Forall_cons _ km ms' (IH km.2) (go ms')
               end) ms).
  - apply Hl.
    refine ((fix go (es : list node) : Forall P es :=
               match es with
               | [] => List.Forall_nil _
               | m :: es' => List.Forall_cons _ m es' (IH m) (go es')
               end) es).
Qed.

Section Tree.

Variable Marshal : value → list byte * option error.

Lemma members_text_start (parts : list (list byte)) :
  members_text startState parts = join_comma parts.
Proof. by destruct parts. Qed.

Lemma members_text_opened (parts : list (list byte)) :
  members_text openedState parts = comma_each parts.
Proof. by destruct parts. Qed.

Lemma inner_members (c : nat) (ms : list (string * node)) :
  (fix go (ms : list (string * node)) : M unit :=
     match ms with
     | [] => mret tt
     | (k, m) :: ms' => build_member Marshal c k m;; go ms'
     end) ms = build_members Marshal c ms.
Proof.
  induction ms as [|[k m] ms IH]; [done|]. cbn [build_members].
  by rewrite IH.
Qed.

Lemma inner_elems (c : nat) (es : list node) :
  (fix go (es : list node) : M unit :=
     match es with
     | [] => mret tt
     | m :: es' => build_elem Marshal c m;; go es'
     end) es = build_elems Marshal c es.
Proof.
  induction es as [|m es IH]; [done|]. cbn [build_elems]. by rewrite IH.
Qed.

Lemma node_ok_members (ms : list (string * node)) :
  (fix all (ms : list (string * node)) : Prop :=
     match ms with
     | [] => True
     | (k, m) :: ms' =>
         marshals Marshal (VString k) ∧ node_ok Marshal m ∧ all ms'
     end) ms ↔
  Forall (λ km, marshals Marshal (VString km.1) ∧ node_ok Marshal km.2) ms.
Proof.
  induction ms as [|[k m] ms IH]; [done|].
  rewrite Forall_cons, <- IH. cbn [fst snd]. tauto.
Qed.

Lemma node_ok_elems (es : list node) :
  (fix all (es : list node) : Prop :=
     match es with
     | [] => True
     | m :: es' => node_ok Marshal m ∧ all es'
     end) es ↔
  Forall (node_ok Marshal) es.
Proof.
  induction es as [|m es IH]; [done|]. rewrite Forall_cons, <- IH. tauto.
Qed.

(** A run of members, given the specification of each. *)
Lemma build_members_spec (ms : list (string * node)) :
  Forall (λ km, member_spec Marshal km.2) ms →
  ∀ b w st sub out σ,
    b < nextB σ →
    builders σ !!! b = Builder.mk st w (basicEncoder w) sub None →
    st = startState ∨ st = openedState →
    child_fine sub σ →
    sinks σ !!! w = mkSink out [] →
    Forall (λ km, marshals Marshal (VString km.1) ∧ node_ok Marshal km.2) ms →
    let σ' := exec (build_members Marshal b ms) σ in
    (∃ sub', builders σ' !!! b =
               Builder.mk (state_after st ms) w (basicEncoder w) sub' None ∧
             child_fine sub' σ') ∧
    sinks σ' !!! w =
      mkSink (out ++ members_text st (map (render_member Marshal) ms)) [] ∧
    Builder_grows b σ σ'.
Proof.
  induction 1 as [|[k m] ms Hm Hms IH];
    intros b w st sub out σ Hb HB Hst Hfine HS Hok; cbv zeta.
  - cbn. rewrite app_nil_r. split_and!; [by exists sub|done|apply keeps_refl].
  - apply Forall_cons in Hok as [[Hk Hn] Hok]. cbn [fst snd] in Hk, Hn, Hm.
    cbn [build_members]. rewrite exec_bind.
    destruct (Hm b k w st sub out σ Hb HB Hst Hfine HS Hk Hn)
      as ((sub1 & HB1 & Hf1) & HS1 & Hg1).
    set (σ1 := exec (build_member Marshal b k m) σ) in *.
    assert (b < nextB σ1) as Hb1 by (destruct Hg1; lia).
    assert (Builder_grows b σ σ1) as Hg1' by done.
    destruct (IH b w openedState sub1 _ σ1 Hb1 HB1 ltac:(by right) Hf1 HS1 Hok)
      as ((sub2 & HB2 & Hf2) & HS2 & Hg2).
    split_and!.
    + exists sub2. split; [|done]. rewrite HB2. by destruct ms.
    + rewrite HS2. f_equal. cbn [map members_text].
      rewrite members_text_opened, <- !app_assoc. done.
    + eapply keeps_trans; [exact Hg1|]. eapply keeps_weaken; [exact Hg2|..];
        destruct Hg1 as (? & ? & _); cbn; intros; lia.
Qed.

Lemma build_elems_spec (es : list node) :
  Forall (elem_spec Marshal) es →
  ∀ b w st sub out σ,
    b < nextL σ →
    lists σ !!! b = ListBuilder.mk st w (basicEncoder w) sub None →
    st = startState ∨ st = openedState →
    child_fine sub σ →
    sinks σ !!! w = mkSink out [] →
    Forall (node_ok Marshal) es →
    let σ' := exec (build_elems Marshal b es) σ in
    (∃ sub', lists σ' !!! b =
               ListBuilder.mk (state_after st es) w (basicEncoder w) sub'
                 None ∧
             child_fine sub' σ') ∧
    sinks σ' !!! w =
      mkSink (out ++ members_text st (map (render Marshal) es)) [] ∧
    ListBuilder_grows b σ σ'.
Proof.
  induction 1 as [|m es Hm Hes IH];
    intros b w st sub out σ Hb HB Hst Hfine HS Hok; cbv zeta.
  - cbn. rewrite app_nil_r. split_and!; [by exists sub|done|apply keeps_refl].
  - apply Forall_cons in Hok as [Hn Hok].
    cbn [build_elems]. rewrite exec_bind.
    destruct (Hm b w st sub out σ Hb HB Hst Hfine HS Hn)
      as ((sub1 & HB1 & Hf1) & HS1 & Hg1).
    set (σ1 := exec (build_elem Marshal b m) σ) in *.
    assert (b < nextL σ1) as Hb1 by (destruct Hg1 as (? & ? & _); lia).
    destruct (IH b w openedState sub1 _ σ1 Hb1 HB1 ltac:(by right) Hf1 HS1 Hok)
      as ((sub2 & HB2 & Hf2) & HS2 & Hg2).
    split_and!.
    + exists sub2. split; [|done]. rewrite HB2. by destruct es.
    + rewrite HS2. f_equal. cbn [map members_text].
      rewrite members_text_opened, <- !app_assoc. done.
    + eapply keeps_trans; [exact Hg1|]. eapply keeps_weaken; [exact Hg2|..];
        destruct Hg1 as (? & ? & _); cbn; intros; lia.
Qed.

End Tree.

Section TreeCases.

Variable Marshal : value → list byte * option error.

Lemma child_fine_modB_Err (b : nat) (sub : option builderCommon) (σ : world) :
  child_fine sub σ →
  child_fine sub (exec (modB b (Builder.set_Err None)) σ).
Proof.
  destruct sub as [[p|p]|]; [| |done];
    unfold child_fine, eval, exec, builderCommon_err, builderCommon_closed,
      modB; simpl; [|done].
  intros [H1 H2]. destruct (decide (p = b)) as [->|Hne].
  - rewrite lookup_total_insert_eq. done.
  - rewrite lookup_total_insert_ne by done. done.
Qed.

Lemma child_fine_modL_Err (b : nat) (sub : option builderCommon) (σ : world) :
  child_fine sub σ →
  child_fine sub (exec (modL b (ListBuilder.set_Err None)) σ).
Proof.
  destruct sub as [[p|p]|]; [| |done];
    unfold child_fine, eval, exec, builderCommon_err, builderCommon_closed,
      modL; simpl; [done|].
  intros [H1 H2]. destruct (decide (p = b)) as [->|Hne].
  - rewrite lookup_total_insert_eq. done.
  - rewrite lookup_total_insert_ne by done. done.
Qed.

Lemma child_fine_closed_B (c : nat) (B : Builder.t) (σ : world) :
  builders σ !!! c = B →
  Builder.state B = closedState → Builder.Err B = None →
  child_fine (Some (BuilderPtr c)) σ.
Proof.
  intros HB Hs He.
  unfold child_fine, eval, builderCommon_err, builderCommon_closed.
  unfold getB, mbind, mret, M_bind, M_ret. cbn [fst snd].
  rewrite HB, Hs, He. done.
Qed.

Lemma child_fine_closed_L (c : nat) (B : ListBuilder.t) (σ : world) :
  lists σ !!! c = B →
  ListBuilder.state B = closedState → ListBuilder.Err B = None →
  child_fine (Some (ListBuilderPtr c)) σ.
Proof.
  intros HB Hs He.
  unfold child_fine, eval, builderCommon_err, builderCommon_closed.
  unfold getL, mbind, mret, M_bind, M_ret. cbn [fst snd].
  rewrite HB, Hs, He. done.
Qed.

Lemma keeps_modB (b : nat) (f : Builder.t → Builder.t) (σ : world) :
  keeps (λ k, k ≠ b) (λ _, True) σ (exec (modB b f) σ).
Proof.
  unfold keeps, exec, modB. cbn. split_and!; try done.
  intros k Hk. by rewrite lookup_total_insert_ne.
Qed.

Lemma keeps_modL (b : nat) (f : ListBuilder.t → ListBuilder.t) (σ : world) :
  keeps (λ _, True) (λ l, l ≠ b) σ (exec (modL b f) σ).
Proof.
  unfold keeps, exec, modL. cbn. split_and!; try done.
  intros k Hk. by rewrite lookup_total_insert_ne.
Qed.

Lemma state_after_open {A} (st : writerState) (parts : list A) :
  st = startState ∨ st = openedState → state_after st parts ≠ closedState.
Proof. intros [-> | ->]; by destruct parts. Qed.

Lemma member_Value (v : value) : member_spec Marshal (NValue v).
Proof.
  intros b key w st sub out σ Hb HB Hst Hfine HS Hk Hok. cbv zeta.
  cbn [node_ok build_member] in *.
  destruct (Builder_Add_member Marshal b w st sub σ key v out HB Hst Hfine HS
              Hk Hok) as (HB' & HS' & Hg).
  split_and!; [by exists None|done|done].
Qed.

Lemma elem_Value (v : value) : elem_spec Marshal (NValue v).
Proof.
  intros b w st sub out σ Hb HB Hst Hfine HS Hok. cbv zeta.
  cbn [node_ok build_elem] in *.
  destruct (ListBuilder_Add_elem Marshal b w st sub σ v out HB Hst Hfine HS
              Hok) as (HB' & HS' & Hg).
  split_and!; [by exists None|done|done].
Qed.

Lemma member_ObjectFunc (ms : list (string * node)) :
  Forall (λ km, member_spec Marshal km.2) ms →
  member_spec Marshal (NObjectFunc ms).
Proof.
  intros Hms b key w st sub out σ Hb HB Hst Hfine HS Hk Hok. cbv zeta.
  cbn [node_ok] in Hok. apply node_ok_members in Hok.
  unfold marshals in Hk. unfold render_member. cbn [fst snd render].
  destruct (Marshal (VString key)) as [kb kerr] eqn:Ek.
  cbn [fst snd] in Hk |- *. subst kerr.
  destruct (Builder_preadd_ready Marshal b w st sub σ key out kb HB Hst Hfine
              HS Ek) as (He & HB1 & HS1).
  pose proof (Builder_frame_preadd Marshal b key σ) as Hfr1.
  unfold eval, exec in He, HB1, HS1, Hfr1.
  destruct (Builder_preadd Marshal b key σ) as [err σ1] eqn:Hp.
  cbn [fst snd] in *. subst err.
  assert (nextB σ1 = nextB σ) as HnB by apply Hfr1.
  pose proof (construct_Builder_fresh w σ1 _ HS1) as Hc. rewrite HnB in Hc.
  match type of Hc with _ = (_, ?x) => set (σ2 := x) in * end.
  destruct (build_members_spec Marshal ms Hms (nextB σ) w startState None
              ((out ++ sep st ++ kb ++ colonBytes) ++ openBraceBytes) σ2)
    as ((sub' & HBc & Hfc) & HS3 & Hg3).
  { subst σ2. cbn. lia. }
  { subst σ2. cbn. by rewrite lookup_total_insert_eq. }
  { by left. }
  { done. }
  { subst σ2. cbn. by rewrite lookup_total_insert_eq. }
  { done. }
  set (σ3 := exec (build_members Marshal (nextB σ) ms) σ2) in *.
  cbn [build_member].
  match goal with |- context [Builder_AddObjectFunc _ _ _ ?f] =>
    destruct (Builder_AddObjectFunc_spec Marshal b key f σ σ1 σ2 σ3 None Hb Hp)
      as (HErr & _ & Hσ')
  end.
  { rewrite HB1. exact Hc. }
  { cbv beta. rewrite inner_members. rewrite bind_run. done. }
  clear HErr. rewrite Hσ'. clear Hσ'. rewrite HBc. cbn [propagated Builder.Err].
  rewrite exec_bind.
  assert (b ≠ nextB σ) as Hne by lia.
  destruct Hfr1 as (_ & HnL & HL1 & HB1' & _).
  pose proof Hg3 as (HnB3 & HnL3 & HB3 & HL3).
  assert (builders σ3 !!! b =
          Builder.mk openedState w (basicEncoder w) None None) as HB3b.
  { rewrite HB3 by (subst σ2; cbn; lia). subst σ2. cbn.
    by rewrite lookup_total_insert_ne. }
  set (σ4 := exec (modB b (Builder.set_Err None)) σ3) in *.
  pose proof (keeps_modB b (Builder.set_Err None) σ3) as Hg4. fold σ4 in Hg4.
  pose proof Hg4 as (HnB4 & HnL4 & HB4 & _).
  assert (builders σ4 !!! b =
          Builder.mk openedState w (basicEncoder w) None None) as HB4b.
  { subst σ4. unfold exec, modB. cbn. rewrite lookup_total_insert_eq, HB3b.
    done. }
  destruct (Builder_Close_fine (nextB σ) σ4 (state_after startState ms) w
              (basicEncoder w) sub'
              (((out ++ sep st ++ kb ++ colonBytes) ++ openBraceBytes) ++
               members_text startState (map (render_member Marshal) ms)))
    as (HBc' & HS' & Hg').
  { rewrite HB4 by done. exact HBc. }
  { apply state_after_open. by left. }
  { by apply child_fine_modB_Err. }
  { exact HS3. }
  pose proof Hg' as (HnB' & HnL' & HB' & HL').
  assert (nextB σ2 = S (nextB σ)) as HnB2 by done.
  assert (nextL σ2 = nextL σ) as HnL2 by (subst σ2; cbn; lia).
  split_and!.
  - exists None. split; [|done]. rewrite HB' by lia. exact HB4b.
  - rewrite HS'. f_equal. rewrite members_text_start.
    rewrite <- !app_assoc. done.
  - unfold Builder_grows.
    eapply keeps_trans.
    { eapply keeps_weaken; [apply Builder_frame_keeps|..].
      - split_and!; [exact HnB|exact HnL|exact HL1|exact HB1'|..];
          rewrite HB1, HB; done.
      - cbn. intros; tauto.
      - done. }
    eapply keeps_trans.
    { instantiate (1 := σ2). unfold keeps. subst σ2. cbn.
      split_and!; try lia; [|done].
      intros k [Hk _]. rewrite lookup_total_insert_ne by lia. done. }
    eapply keeps_trans.
    { eapply keeps_weaken; [exact Hg3|..]; cbn; intros; lia. }
    eapply keeps_trans.
    { eapply keeps_weaken; [exact Hg4|..]; cbn; intros; tauto. }
    eapply keeps_weaken; [exact Hg'|..]; cbn; intros; lia.
Qed.

Lemma member_ListFunc (es : list node) :
  Forall (elem_spec Marshal) es →
  member_spec Marshal (NListFunc es).
Proof.
  intros Hes b key w st sub out σ Hb HB Hst Hfine HS Hk Hok. cbv zeta.
  cbn [node_ok] in Hok. apply node_ok_elems in Hok.
  unfold marshals in Hk. unfold render_member. cbn [fst snd render].
  destruct (Marshal (VString key)) as [kb kerr] eqn:Ek.
  cbn [fst snd] in Hk |- *. subst kerr.
  destruct (Builder_preadd_ready Marshal b w st sub σ key out kb HB Hst Hfine
              HS Ek) as (He & HB1 & HS1).
  pose proof (Builder_frame_preadd Marshal b key σ) as Hfr1.
  unfold eval, exec in He, HB1, HS1, Hfr1.
  destruct (Builder_preadd Marshal b key σ) as [err σ1] eqn:Hp.
  cbn [fst snd] in *. subst err.
  destruct Hfr1 as (HnB & HnL & HL1 & HB1' & _).
  pose proof (construct_ListBuilder_fresh w σ1 _ HS1) as Hc. rewrite HnL in Hc.
  match type of Hc with _ = (_, ?x) => set (σ2 := x) in * end.
  destruct (build_elems_spec Marshal es Hes (nextL σ) w startState None
              ((out ++ sep st ++ kb ++ colonBytes) ++ openBracketBytes) σ2)
    as ((sub' & HBc & Hfc) & HS3 & Hg3).
  { subst σ2. cbn. lia. }
  { subst σ2. cbn. by rewrite lookup_total_insert_eq. }
  { by left. }
  { done. }
  { subst σ2. cbn. by rewrite lookup_total_insert_eq. }
  { done. }
  set (σ3 := exec (build_elems Marshal (nextL σ) es) σ2) in *.
  cbn [build_member].
  match goal with |- context [Builder_AddListFunc _ _ _ ?f] =>
    destruct (Builder_AddListFunc_spec Marshal b key f σ σ1 σ2 σ3 None Hp)
      as (HErr & _ & Hσ')
  end.
  { rewrite HB1. exact Hc. }
  { cbv beta. rewrite inner_elems. rewrite bind_run. done. }
  clear HErr. rewrite Hσ'. clear Hσ'. rewrite HBc.
  cbn [propagated ListBuilder.Err]. rewrite exec_bind.
  pose proof Hg3 as (HnB3 & HnL3 & HB3 & HL3).
  assert (nextB σ2 = nextB σ) as HnB2 by (subst σ2; cbn; lia).
  assert (nextL σ2 = S (nextL σ)) as HnL2 by done.
  assert (builders σ3 !!! b =
          Builder.mk openedState w (basicEncoder w) None None) as HB3b.
  { rewrite HB3 by lia. subst σ2. cbn. done. }
  set (σ4 := exec (modB b (Builder.set_Err None)) σ3) in *.
  pose proof (keeps_modB b (Builder.set_Err None) σ3) as Hg4. fold σ4 in Hg4.
  pose proof Hg4 as (HnB4 & HnL4 & _ & HL4).
  assert (builders σ4 !!! b =
          Builder.mk openedState w (basicEncoder w) None None) as HB4b.
  { subst σ4. unfold exec, modB. cbn. rewrite lookup_total_insert_eq, HB3b.
    done. }
  destruct (ListBuilder_Close_fine (nextL σ) σ4 (state_after startState es) w
              (basicEncoder w) sub'
              (((out ++ sep st ++ kb ++ colonBytes) ++ openBracketBytes) ++
               members_text startState (map (render Marshal) es)))
    as (HBc' & HS' & Hg').
  { rewrite HL4 by done. exact HBc. }
  { apply state_after_open. by left. }
  { by apply child_fine_modB_Err. }
  { exact HS3. }
  pose proof Hg' as (HnB' & HnL' & HB' & HL').
  split_and!.
  - exists None. split; [|done]. rewrite HB' by lia. exact HB4b.
  - rewrite HS'. f_equal. rewrite members_text_start.
    rewrite <- !app_assoc. done.
  - unfold Builder_grows.
    eapply keeps_trans.
    { eapply keeps_weaken; [apply Builder_frame_keeps|..].
      - split_and!; [exact HnB|exact HnL|exact HL1|exact HB1'|..];
          rewrite HB1, HB; done.
      - cbn. intros; tauto.
      - done. }
    eapply keeps_trans.
    { instantiate (1 := σ2). unfold keeps. subst σ2. cbn.
      split_and!; try lia; [done|].
      intros l Hl. rewrite lookup_total_insert_ne by lia. done. }
    eapply keeps_trans.
    { eapply keeps_weaken; [exact Hg3|..]; cbn; intros; lia. }
    eapply keeps_trans.
    { eapply keeps_weaken; [exact Hg4|..]; cbn; intros; tauto. }
    eapply keeps_weaken; [exact Hg'|..]; cbn; intros; lia.
Qed.

Lemma member_Object (ms : list (string * node)) :
  Forall (λ km, member_spec Marshal km.2) ms →
  member_spec Marshal (NObject ms).
Proof.
  intros Hms b key w st sub out σ Hb HB Hst Hfine HS Hk Hok. cbv zeta.
  cbn [node_ok] in Hok. apply node_ok_members in Hok.
  unfold marshals in Hk. unfold render_member. cbn [fst snd render].
  destruct (Marshal (VString key)) as [kb kerr] eqn:Ek.
  cbn [fst snd] in Hk |- *. subst kerr.
  destruct (Builder_preadd_ready Marshal b w st sub σ key out kb HB Hst Hfine
              HS Ek) as (He & HB1 & HS1).
  pose proof (Builder_frame_preadd Marshal b key σ) as Hfr1.
  unfold eval, exec in He, HB1, HS1, Hfr1.
  destruct (Builder_preadd Marshal b key σ) as [err σ1] eqn:Hp.
  cbn [fst snd] in *. subst err.
  destruct Hfr1 as (HnB & HnL & HL1 & HB1' & _).
  pose proof (construct_Builder_fresh w σ1 _ HS1) as Hc. rewrite HnB in Hc.
  match type of Hc with _ = (_, ?x) => set (σ2 := x) in * end.
  assert (b ≠ nextB σ) as Hne by lia.
  pose proof (Builder_AddObject_run Marshal b key σ σ1 σ2 None (nextB σ) Hp)
    as Hrun.
  rewrite HB1 in Hrun. specialize (Hrun Hc).
  set (σ2' := exec (modB b (Builder.set_subB
                              (Some (BuilderPtr (nextB σ))))) σ2) in *.
  pose proof (keeps_modB b (Builder.set_subB (Some (BuilderPtr (nextB σ)))) σ2)
    as Hg2. fold σ2' in Hg2.
  pose proof Hg2 as (HnB2' & HnL2' & HB2' & _).
  assert (nextB σ2 = S (nextB σ)) as HnB2 by done.
  assert (nextL σ2 = nextL σ) as HnL2 by (subst σ2; cbn; lia).
  assert (nextB σ2' = S (nextB σ)) as HnB2'' by done.
  assert (nextL σ2' = nextL σ) as HnL2'' by (subst σ2' σ2; cbn; lia).
  assert (builders σ2' !!! b =
          Builder.mk openedState w (basicEncoder w)
            (Some (BuilderPtr (nextB σ))) None) as HB2b.
  { subst σ2' σ2. unfold exec, modB. cbn.
    rewrite lookup_total_insert_eq, lookup_total_insert_ne, HB1 by lia.
    done. }
  destruct (build_members_spec Marshal ms Hms (nextB σ) w startState None
              ((out ++ sep st ++ kb ++ colonBytes) ++ openBraceBytes) σ2')
    as ((sub' & HBc & Hfc) & HS3 & Hg3).
  { lia. }
  { rewrite HB2' by done. subst σ2. cbn. by rewrite lookup_total_insert_eq. }
  { by left. }
  { done. }
  { subst σ2' σ2. unfold exec, modB. cbn. by rewrite lookup_total_insert_eq. }
  { done. }
  set (σ3 := exec (build_members Marshal (nextB σ) ms) σ2') in *.
  pose proof Hg3 as (HnB3 & HnL3 & HB3 & HL3).
  destruct (Builder_Close_fine (nextB σ) σ3 (state_after startState ms) w
              (basicEncoder w) sub' _ HBc
              ltac:(apply state_after_open; by left) Hfc HS3)
    as (HBc' & HS' & Hg').
  pose proof Hg' as (HnB' & HnL' & HB' & HL').
  assert (exec (build_member Marshal b key (NObject ms)) σ =
          exec (Builder_Close (nextB σ)) σ3) as ->.
  { cbn [build_member]. unfold exec at 1. rewrite bind_run, Hrun.
    cbn [fst snd]. rewrite inner_members. rewrite bind_run. done. }
  split_and!.
  - exists (Some (BuilderPtr (nextB σ))). split.
    + rewrite (HB' b) by (split; lia). rewrite (HB3 b) by (split; lia).
      exact HB2b.
    + by eapply child_fine_closed_B.
  - rewrite HS'. f_equal. rewrite members_text_start.
    rewrite <- !app_assoc. done.
  - unfold Builder_grows.
    eapply keeps_trans.
    { eapply keeps_weaken; [apply Builder_frame_keeps|..].
      - split_and!; [exact HnB|exact HnL|exact HL1|exact HB1'|..];
          rewrite HB1, HB; done.
      - cbn. intros; tauto.
      - done. }
    eapply keeps_trans.
    { instantiate (1 := σ2). unfold keeps. subst σ2' σ2. cbn.
      split_and!; try lia; [|done].
      intros k [Hk _]. rewrite lookup_total_insert_ne by lia. done. }
    eapply keeps_trans.
    { eapply keeps_weaken; [exact Hg2|..]; cbn; intros; tauto. }
    eapply keeps_trans.
    { eapply keeps_weaken; [exact Hg3|..]; cbn; intros; lia. }
    eapply keeps_weaken; [exact Hg'|..]; cbn; intros; lia.
Qed.

Lemma member_List (es : list node) :
  Forall (elem_spec Marshal) es →
  member_spec Marshal (NList es).
Proof.
  intros Hes b key w st sub out σ Hb HB Hst Hfine HS Hk Hok. cbv zeta.
  cbn [node_ok] in Hok. apply node_ok_elems in Hok.
  unfold marshals in Hk. unfold render_member. cbn [fst snd render].
  destruct (Marshal (VString key)) as [kb kerr] eqn:Ek.
  cbn [fst snd] in Hk |- *. subst kerr.
  destruct (Builder_preadd_ready Marshal b w st sub σ key out kb HB Hst Hfine
              HS Ek) as (He & HB1 & HS1).
  pose proof (Builder_frame_preadd Marshal b key σ) as Hfr1.
  unfold eval, exec in He, HB1, HS1, Hfr1.
  destruct (Builder_preadd Marshal b key σ) as [err σ1] eqn:Hp.
  cbn [fst snd] in *. subst err.
  destruct Hfr1 as (HnB & HnL & HL1 & HB1' & _).
  pose proof (construct_ListBuilder_fresh w σ1 _ HS1) as Hc. rewrite HnL in Hc.
  match type of Hc with _ = (_, ?x) => set (σ2 := x) in * end.
  pose proof (Builder_AddList_run Marshal b key σ σ1 σ2 None (nextL σ) Hp)
    as Hrun.
  rewrite HB1 in Hrun. specialize (Hrun Hc).
  set (σ2' := exec (modB b (Builder.set_subB
                              (Some (ListBuilderPtr (nextL σ))))) σ2) in *.
  pose proof (keeps_modB b (Builder.set_subB
                              (Some (ListBuilderPtr (nextL σ)))) σ2)
    as Hg2. fold σ2' in Hg2.
  pose proof Hg2 as (HnB2' & HnL2' & HB2' & HL2').
  assert (nextB σ2 = nextB σ) as HnB2 by (subst σ2; cbn; lia).
  assert (nextL σ2 = S (nextL σ)) as HnL2 by done.
  assert (nextB σ2' = nextB σ) as HnB2'' by (subst σ2' σ2; cbn; lia).
  assert (nextL σ2' = S (nextL σ)) as HnL2'' by done.
  assert (builders σ2' !!! b =
          Builder.mk openedState w (basicEncoder w)
            (Some (ListBuilderPtr (nextL σ))) None) as HB2b.
  { subst σ2' σ2. unfold exec, modB. cbn.
    rewrite lookup_total_insert_eq, HB1. done. }
  destruct (build_elems_spec Marshal es Hes (nextL σ) w startState None
              ((out ++ sep st ++ kb ++ colonBytes) ++ openBracketBytes) σ2')
    as ((sub' & HBc & Hfc) & HS3 & Hg3).
  { lia. }
  { rewrite HL2' by done. subst σ2. cbn. by rewrite lookup_total_insert_eq. }
  { by left. }
  { done. }
  { subst σ2' σ2. unfold exec, modB. cbn. by rewrite lookup_total_insert_eq. }
  { done. }
  set (σ3 := exec (build_elems Marshal (nextL σ) es) σ2') in *.
  pose proof Hg3 as (HnB3 & HnL3 & HB3 & HL3).
  destruct (ListBuilder_Close_fine (nextL σ) σ3 (state_after startState es) w
              (basicEncoder w) sub' _ HBc
              ltac:(apply state_after_open; by left) Hfc HS3)
    as (HBc' & HS' & Hg').
  pose proof Hg' as (HnB' & HnL' & HB' & HL').
  assert (exec (build_member Marshal b key (NList es)) σ =
          exec (ListBuilder_Close (nextL σ)) σ3) as ->.
  { cbn [build_member]. unfold exec at 1. rewrite bind_run, Hrun.
    cbn [fst snd]. rewrite inner_elems. rewrite bind_run. done. }
  split_and!.
  - exists (Some (ListBuilderPtr (nextL σ))). split.
    + rewrite (HB' b) by lia. rewrite (HB3 b) by lia. exact HB2b.
    + by eapply child_fine_closed_L.
  - rewrite HS'. f_equal. rewrite members_text_start.
    rewrite <- !app_assoc. done.
  - unfold Builder_grows.
    eapply keeps_trans.
    { eapply keeps_weaken; [apply Builder_frame_keeps|..].
      - split_and!; [exact HnB|exact HnL|exact HL1|exact HB1'|..];
          rewrite HB1, HB; done.
      - cbn. intros; tauto.
      - done. }
    eapply keeps_trans.
    { instantiate (1 := σ2). unfold keeps. subst σ2' σ2. cbn.
      split_and!; try lia; [done|].
      intros l Hl. rewrite lookup_total_insert_ne by lia. done. }
    eapply keeps_trans.
    { eapply keeps_weaken; [exact Hg2|..]; cbn; intros; tauto. }
    eapply keeps_trans.
    { eapply keeps_weaken; [exact Hg3|..]; cbn; intros; lia. }
    eapply keeps_weaken; [exact Hg'|..]; cbn; intros; lia.
Qed.

Lemma elem_ObjectFunc (ms : list (string * node)) :
  Forall (λ km, member_spec Marshal km.2) ms →
  elem_spec Marshal (NObjectFunc ms).
Proof.
  intros Hms b w st sub out σ Hb HB Hst Hfine HS Hok. cbv zeta.
  cbn [node_ok] in Hok. apply node_ok_members in Hok. cbn [render].
  destruct (ListBuilder_preadd_ready b w st sub σ out HB Hst Hfine HS)
    as (He & HB1 & HS1).
  pose proof (ListBuilder_frame_preadd b σ) as Hfr1.
  unfold eval, exec in He, HB1, HS1, Hfr1.
  destruct (ListBuilder_preadd b σ) as [err σ1] eqn:Hp.
  cbn [fst snd] in *. subst err.
  pose proof (ListBuilder_frame_keeps _ _ _ Hfr1) as Hg1.
  destruct Hfr1 as (HnB & HnL & HB1' & HL1 & _).
  pose proof (construct_Builder_fresh w σ1 _ HS1) as Hc. rewrite HnB in Hc.
  match type of Hc with _ = (_, ?x) => set (σ2 := x) in * end.
  destruct (build_members_spec Marshal ms Hms (nextB σ) w startState None
              ((out ++ sep st) ++ openBraceBytes) σ2)
    as ((sub' & HBc & Hfc) & HS3 & Hg3).
  { subst σ2. cbn. lia. }
  { subst σ2. cbn. by rewrite lookup_total_insert_eq. }
  { by left. }
  { done. }
  { subst σ2. cbn. by rewrite lookup_total_insert_eq. }
  { done. }
  set (σ3 := exec (build_members Marshal (nextB σ) ms) σ2) in *.
  cbn [build_elem].
  match goal with |- context [ListBuilder_AddObjectFunc _ ?f] =>
    destruct (ListBuilder_AddObjectFunc_spec b f σ σ1 σ2 σ3 None Hp)
      as (HErr & _ & Hσ')
  end.
  { rewrite HB1. exact Hc. }
  { cbv beta. rewrite inner_members. rewrite bind_run. done. }
  clear HErr. rewrite Hσ'. clear Hσ'. rewrite HBc. cbn [propagated Builder.Err].
  rewrite exec_bind.
  pose proof Hg3 as (HnB3 & HnL3 & HB3 & HL3).
  assert (nextB σ2 = S (nextB σ)) as HnB2 by done.
  assert (nextL σ2 = nextL σ) as HnL2 by (subst σ2; cbn; lia).
  assert (lists σ3 !!! b =
          ListBuilder.mk openedState w (basicEncoder w) None None) as HB3b.
  { rewrite HL3 by lia. subst σ2. cbn. done. }
  set (σ4 := exec (modL b (ListBuilder.set_Err None)) σ3) in *.
  pose proof (keeps_modL b (ListBuilder.set_Err None) σ3) as Hg4.
  fold σ4 in Hg4.
  pose proof Hg4 as (HnB4 & HnL4 & HB4 & _).
  assert (lists σ4 !!! b =
          ListBuilder.mk openedState w (basicEncoder w) None None) as HB4b.
  { subst σ4. unfold exec, modL. cbn. rewrite lookup_total_insert_eq, HB3b.
    done. }
  destruct (Builder_Close_fine (nextB σ) σ4 (state_after startState ms) w
              (basicEncoder w) sub'
              (((out ++ sep st) ++ openBraceBytes) ++
               members_text startState (map (render_member Marshal) ms)))
    as (HBc' & HS' & Hg').
  { rewrite HB4 by done. exact HBc. }
  { apply state_after_open. by left. }
  { by apply child_fine_modL_Err. }
  { exact HS3. }
  pose proof Hg' as (HnB' & HnL' & HB' & HL').
  split_and!.
  - exists None. split; [|done]. rewrite HL' by lia. exact HB4b.
  - rewrite HS'. f_equal. rewrite members_text_start.
    rewrite <- !app_assoc. done.
  - unfold ListBuilder_grows.
    eapply keeps_trans.
    { eapply keeps_weaken; [exact Hg1|..]; cbn; intros; tauto. }
    eapply keeps_trans.
    { instantiate (1 := σ2). unfold keeps. subst σ2. cbn.
      split_and!; try lia; [|done].
      intros k Hk. rewrite lookup_total_insert_ne by lia. done. }
    eapply keeps_trans.
    { eapply keeps_weaken; [exact Hg3|..]; cbn; intros; lia. }
    eapply keeps_trans.
    { eapply keeps_weaken; [exact Hg4|..]; cbn; intros; tauto. }
    eapply keeps_weaken; [exact Hg'|..]; cbn; intros; lia.
Qed.

Lemma elem_ListFunc (es : list node) :
  Forall (elem_spec Marshal) es →
  elem_spec Marshal (NListFunc es).
Proof.
  intros Hes b w st sub out σ Hb HB Hst Hfine HS Hok. cbv zeta.
  cbn [node_ok] in Hok. apply node_ok_elems in Hok. cbn [render].
  destruct (ListBuilder_preadd_ready b w st sub σ out HB Hst Hfine HS)
    as (He & HB1 & HS1).
  pose proof (ListBuilder_frame_preadd b σ) as Hfr1.
  unfold eval, exec in He, HB1, HS1, Hfr1.
  destruct (ListBuilder_preadd b σ) as [err σ1] eqn:Hp.
  cbn [fst snd] in *. subst err.
  pose proof (ListBuilder_frame_keeps _ _ _ Hfr1) as Hg1.
  destruct Hfr1 as (HnB & HnL & HB1' & HL1 & _).
  pose proof (construct_ListBuilder_fresh w σ1 _ HS1) as Hc. rewrite HnL in Hc.
  match type of Hc with _ = (_, ?x) => set (σ2 := x) in * end.
  assert (b ≠ nextL σ) as Hne by lia.
  destruct (build_elems_spec Marshal es Hes (nextL σ) w startState None
              ((out ++ sep st) ++ openBracketBytes) σ2)
    as ((sub' & HBc & Hfc) & HS3 & Hg3).
  { subst σ2. cbn. lia. }
  { subst σ2. cbn. by rewrite lookup_total_insert_eq. }
  { by left. }
  { done. }
  { subst σ2. cbn. by rewrite lookup_total_insert_eq. }
  { done. }
  set (σ3 := exec (build_elems Marshal (nextL σ) es) σ2) in *.
  cbn [build_elem].
  match goal with |- context [ListBuilder_AddListFunc _ ?f] =>
    destruct (ListBuilder_AddListFunc_spec b f σ σ1 σ2 σ3 None Hb Hp)
      as (HErr & _ & Hσ')
  end.
  { rewrite HB1. exact Hc. }
  { cbv beta. rewrite inner_elems. rewrite bind_run. done. }
  clear HErr. rewrite Hσ'. clear Hσ'. rewrite HBc.
  cbn [propagated ListBuilder.Err]. rewrite exec_bind.
  pose proof Hg3 as (HnB3 & HnL3 & HB3 & HL3).
  assert (nextB σ2 = nextB σ) as HnB2 by (subst σ2; cbn; lia).
  assert (nextL σ2 = S (nextL σ)) as HnL2 by done.
  assert (lists σ3 !!! b =
          ListBuilder.mk openedState w (basicEncoder w) None None) as HB3b.
  { rewrite HL3 by (split; lia). subst σ2. cbn.
    by rewrite lookup_total_insert_ne. }
  set (σ4 := exec (modL b (ListBuilder.set_Err None)) σ3) in *.
  pose proof (keeps_modL b (ListBuilder.set_Err None) σ3) as Hg4.
  fold σ4 in Hg4.
  pose proof Hg4 as (HnB4 & HnL4 & _ & HL4).
  assert (lists σ4 !!! b =
          ListBuilder.mk openedState w (basicEncoder w) None None) as HB4b.
  { subst σ4. unfold exec, modL. cbn. rewrite lookup_total_insert_eq, HB3b.
    done. }
  destruct (ListBuilder_Close_fine (nextL σ) σ4 (state_after startState es) w
              (basicEncoder w) sub'
              (((out ++ sep st) ++ openBracketBytes) ++
               members_text startState (map (render Marshal) es)))
    as (HBc' & HS' & Hg').
  { rewrite HL4 by done. exact HBc. }
  { apply state_after_open. by left. }
  { by apply child_fine_modL_Err. }
  { exact HS3. }
  pose proof Hg' as (HnB' & HnL' & HB' & HL').
  split_and!.
  - exists None. split; [|done]. rewrite HL' by (split; lia). exact HB4b.
  - rewrite HS'. f_equal. rewrite members_text_start.
    rewrite <- !app_assoc. done.
  - unfold ListBuilder_grows.
    eapply keeps_trans.
    { eapply keeps_weaken; [exact Hg1|..]; cbn; intros; tauto. }
    eapply keeps_trans.
    { instantiate (1 := σ2). unfold keeps. subst σ2. cbn.
      split_and!; try lia; [done|].
      intros l [Hl _]. rewrite lookup_total_insert_ne by lia. done. }
    eapply keeps_trans.
    { eapply keeps_weaken; [exact Hg3|..]; cbn; intros; lia. }
    eapply keeps_trans.
    { eapply keeps_weaken; [exact Hg4|..]; cbn; intros; tauto. }
    eapply keeps_weaken; [exact Hg'|..]; cbn; intros; lia.
Qed.

Lemma elem_Object (ms : list (string * node)) :
  Forall (λ km, member_spec Marshal km.2) ms →
  elem_spec Marshal (NObject ms).
Proof.
  intros Hms b w st sub out σ Hb HB Hst Hfine HS Hok. cbv zeta.
  cbn [node_ok] in Hok. apply node_ok_members in Hok. cbn [render].
  destruct (ListBuilder_preadd_ready b w st sub σ out HB Hst Hfine HS)
    as (He & HB1 & HS1).
  pose proof (ListBuilder_frame_preadd b σ) as Hfr1.
  unfold eval, exec in He, HB1, HS1, Hfr1.
  destruct (ListBuilder_preadd b σ) as [err σ1] eqn:Hp.
  cbn [fst snd] in *. subst err.
  pose proof (ListBuilder_frame_keeps _ _ _ Hfr1) as Hg1.
  destruct Hfr1 as (HnB & HnL & HB1' & HL1 & _).
  pose proof (construct_Builder_fresh w σ1 _ HS1) as Hc. rewrite HnB in Hc.
  match type of Hc with _ = (_, ?x) => set (σ2 := x) in * end.
  pose proof (ListBuilder_AddObject_run b σ σ1 σ2 (nextB σ) Hp) as Hrun.
  rewrite HB1 in Hrun. specialize (Hrun Hc).
  assert (nextB σ2 = S (nextB σ)) as HnB2 by done.
  assert (nextL σ2 = nextL σ) as HnL2 by (subst σ2; cbn; lia).
  destruct (build_members_spec Marshal ms Hms (nextB σ) w startState None
              ((out ++ sep st) ++ openBraceBytes) σ2)
    as ((sub' & HBc & Hfc) & HS3 & Hg3).
  { lia. }
  { subst σ2. cbn. by rewrite lookup_total_insert_eq. }
  { by left. }
  { done. }
  { subst σ2. cbn. by rewrite lookup_total_insert_eq. }
  { done. }
  set (σ3 := exec (build_members Marshal (nextB σ) ms) σ2) in *.
  pose proof Hg3 as (HnB3 & HnL3 & HB3 & HL3).
  destruct (Builder_Close_fine (nextB σ) σ3 (state_after startState ms) w
              (basicEncoder w) sub' _ HBc
              ltac:(apply state_after_open; by left) Hfc HS3)
    as (HBc' & HS' & Hg').
  pose proof Hg' as (HnB' & HnL' & HB' & HL').
  assert (exec (build_elem Marshal b (NObject ms)) σ =
          exec (Builder_Close (nextB σ)) σ3) as ->.
  { cbn [build_elem]. unfold exec at 1. rewrite bind_run, Hrun.
    cbn [fst snd]. rewrite inner_members. rewrite bind_run. done. }
  split_and!.
  - exists None. split; [|done].
    rewrite (HL' b) by lia. rewrite (HL3 b) by lia. subst σ2. cbn. done.
  - rewrite HS'. f_equal. rewrite members_text_start.
    rewrite <- !app_assoc. done.
  - unfold ListBuilder_grows.
    eapply keeps_trans.
    { eapply keeps_weaken; [exact Hg1|..]; cbn; intros; tauto. }
    eapply keeps_trans.
    { instantiate (1 := σ2). unfold keeps. subst σ2. cbn.
      split_and!; try lia; [|done].
      intros k Hk. rewrite lookup_total_insert_ne by lia. done. }
    eapply keeps_trans.
    { eapply keeps_weaken; [exact Hg3|..]; cbn; intros; lia. }
    eapply keeps_weaken; [exact Hg'|..]; cbn; intros; lia.
Qed.

Lemma elem_List (es : list node) :
  Forall (elem_spec Marshal) es →
  elem_spec Marshal (NList es).
Proof.
  intros Hes b w st sub out σ Hb HB Hst Hfine HS Hok. cbv zeta.
  cbn [node_ok] in Hok. apply node_ok_elems in Hok. cbn [render].
  destruct (ListBuilder_preadd_ready b w st sub σ out HB Hst Hfine HS)
    as (He & HB1 & HS1).
  pose proof (ListBuilder_frame_preadd b σ) as Hfr1.
  unfold eval, exec in He, HB1, HS1, Hfr1.
  destruct (ListBuilder_preadd b σ) as [err σ1] eqn:Hp.
  cbn [fst snd] in *. subst err.
  pose proof (ListBuilder_frame_keeps _ _ _ Hfr1) as Hg1.
  destruct Hfr1 as (HnB & HnL & HB1' & HL1 & _).
  pose proof (construct_ListBuilder_fresh w σ1 _ HS1) as Hc. rewrite HnL in Hc.
  match type of Hc with _ = (_, ?x) => set (σ2 := x) in * end.
  assert (b ≠ nextL σ) as Hne by lia.
  pose proof (ListBuilder_AddList_run b σ σ1 σ2 None (nextL σ) Hp) as Hrun.
  rewrite HB1 in Hrun. specialize (Hrun Hc).
  set (σ2' := exec (modL b (ListBuilder.set_subB
                              (Some (ListBuilderPtr (nextL σ))))) σ2) in *.
  pose proof (keeps_modL b (ListBuilder.set_subB
                              (Some (ListBuilderPtr (nextL σ)))) σ2)
    as Hg2. fold σ2' in Hg2.
  pose proof Hg2 as (HnB2' & HnL2' & HB2' & HL2').
  assert (nextB σ2 = nextB σ) as HnB2 by (subst σ2; cbn; lia).
  assert (nextL σ2 = S (nextL σ)) as HnL2 by done.
  assert (nextB σ2' = nextB σ) as HnB2'' by (subst σ2' σ2; cbn; lia).
  assert (nextL σ2' = S (nextL σ)) as HnL2'' by done.
  assert (lists σ2' !!! b =
          ListBuilder.mk openedState w (basicEncoder w)
            (Some (ListBuilderPtr (nextL σ))) None) as HB2b.
  { subst σ2' σ2. unfold exec, modL. cbn.
    rewrite lookup_total_insert_eq, lookup_total_insert_ne, HB1 by lia.
    done. }
  destruct (build_elems_spec Marshal es Hes (nextL σ) w startState None
              ((out ++ sep st) ++ openBracketBytes) σ2')
    as ((sub' & HBc & Hfc) & HS3 & Hg3).
  { lia. }
  { rewrite HL2' by done. subst σ2. cbn. by rewrite lookup_total_insert_eq. }
  { by left. }
  { done. }
  { subst σ2' σ2. unfold exec, modL. cbn. by rewrite lookup_total_insert_eq. }
  { done. }
  set (σ3 := exec (build_elems Marshal (nextL σ) es) σ2') in *.
  pose proof Hg3 as (HnB3 & HnL3 & HB3 & HL3).
  destruct (ListBuilder_Close_fine (nextL σ) σ3 (state_after startState es) w
              (basicEncoder w) sub' _ HBc
              ltac:(apply state_after_open; by left) Hfc HS3)
    as (HBc' & HS' & Hg').
  pose proof Hg' as (HnB' & HnL' & HB' & HL').
  assert (exec (build_elem Marshal b (NList es)) σ =
          exec (ListBuilder_Close (nextL σ)) σ3) as ->.
  { cbn [build_elem]. unfold exec at 1. rewrite bind_run, Hrun.
    cbn [fst snd]. rewrite inner_elems. rewrite bind_run. done. }
  split_and!.
  - exists (Some (ListBuilderPtr (nextL σ))). split.
    + rewrite (HL' b) by (split; lia). rewrite (HL3 b) by (split; lia).
      exact HB2b.
    + by eapply child_fine_closed_L.
  - rewrite HS'. f_equal. rewrite members_text_start.
    rewrite <- !app_assoc. done.
  - unfold ListBuilder_grows.
    eapply keeps_trans.
    { eapply keeps_weaken; [exact Hg1|..]; cbn; intros; tauto. }
    eapply keeps_trans.
    { instantiate (1 := σ2). unfold keeps. subst σ2' σ2. cbn.
      split_and!; try lia; [done|].
      intros l [Hl _]. rewrite lookup_total_insert_ne by lia. done. }
    eapply keeps_trans.
    { eapply keeps_weaken; [exact Hg2|..]; cbn; intros; tauto. }
    eapply keeps_trans.
    { eapply keeps_weaken; [exact Hg3|..]; cbn; intros; lia. }
    eapply keeps_weaken; [exact Hg'|..]; cbn; intros; lia.
Qed.

End TreeCases.

Section TreeTop.

Variable Marshal : value → list byte * option error.

(** Every document is written in full, as a member and as an element. *)
Lemma node_spec (n : node) : member_spec Marshal n ∧ elem_spec Marshal n.
Proof.
  induction n as [v|ms IH|es IH|ms IH|es IH] using node_ind2.
  - split; [apply member_Value|apply elem_Value].
  - assert (Forall (λ km, member_spec Marshal km.2) ms) as H
      by (eapply Forall_impl; [exact IH|]; by intros ? [? ?]).
    split; [by apply member_ObjectFunc|by apply elem_ObjectFunc].
  - assert (Forall (elem_spec Marshal) es) as H
      by (eapply Forall_impl; [exact IH|]; by intros ? [? ?]).
    split; [by apply member_ListFunc|by apply elem_ListFunc].
  - assert (Forall (λ km, member_spec Marshal km.2) ms) as H
      by (eapply Forall_impl; [exact IH|]; by intros ? [? ?]).
    split; [by apply member_Object|by apply elem_Object].
  - assert (Forall (elem_spec Marshal) es) as H
      by (eapply Forall_impl; [exact IH|]; by intros ? [? ?]).
    split; [by apply member_List|by apply elem_List].
Qed.

End TreeTop.

Section TreeAddAll.

Variable Marshal : value → list byte * option error.

Lemma reliable_sink (w : io_Writer) (σ : world) :
  reliable w σ → sinks σ !!! w = mkSink (output w σ) [].
Proof.
  unfold reliable, output. destruct (sinks σ !!! w) as [o s]. cbn.
  by intros ->.
Qed.

(** [AddAll] on pairs with string keys is the run of [Add] calls. *)
Lemma Builder_AddAll_loop_members (b : nat) (w : io_Writer)
    (kvs : list (string * value)) :
  Forall (λ kv, marshals Marshal (VString kv.1) ∧ marshals Marshal kv.2)
    kvs →
  ∀ i σ, Builder_ready b w σ →
  exec (Builder_AddAll_loop Marshal b i (flat_pairs kvs)) σ =
  exec (build_members Marshal b (map (λ kv, (kv.1, NValue kv.2)) kvs)) σ.
Proof.
  induction 1 as [|[key v] kvs [Hk Hv] Hkvs IH];
    intros i σ (Hb & Hw & st & sub & HB & Hst & Hfine); [done|].
  cbn [flat_pairs map build_members fst snd].
  rewrite Builder_AddAll_loop_cons by (by rewrite HB).
  rewrite exec_bind. cbn [build_member].
  destruct (member_Value Marshal v b key w st sub _ σ Hb HB Hst Hfine
              (reliable_sink _ _ Hw) Hk Hv)
    as ((sub' & HB' & Hf') & HS' & Hg').
  cbn [build_member] in HB', Hf', HS', Hg'.
  apply IH. split_and!.
  - destruct Hg' as (? & _). lia.
  - unfold reliable. by rewrite HS'.
  - exists openedState, sub'. split_and!; [done|by right|done].
Qed.

End TreeAddAll.

(** X1.  On a sink that takes every write, a fresh [Builder], the calls
    that build the members [ms] one after the other and [Close] append to
    the sink the compact text of the object, and the writer ends closed
    and without error.  A member is a value given to [Add] or a nested
    object or list, built by [AddObjectFunc] or [AddListFunc] or through
    the writer that [AddObject] or [AddList] returns, to any depth; every
    key and every value is assumed to marshal. *)
Theorem X1_nested_object_document
    (Marshal : value → list byte * option error) (w : io_Writer) (σ : world)
    (ms : list (string * node)) :
  reliable w σ →
  node_ok Marshal (NObject ms) →
  let j := eval (NewBuilder w) σ in
  let σ' := exec (j ← NewBuilder w;
                  build_members Marshal j ms;; Builder_Close j) σ in
  output w σ' = output w σ ++ render Marshal (NObject ms) ∧
  Builder.Err (builders σ' !!! j) = None ∧
  Builder.state (builders σ' !!! j) = closedState.
Proof.
  intros Hw Hok. cbv zeta. cbn [node_ok] in Hok.
  apply node_ok_members in Hok.
  destruct (NewBuilder_reliable w σ Hw) as (Hj & HB & HS & Hn).
  rewrite exec_bind, exec_bind.
  set (j := eval (NewBuilder w) σ) in *.
  set (σ1 := exec (NewBuilder w) σ) in *.
  destruct (build_members_spec Marshal ms
              ltac:(apply Forall_forall; intros; apply node_spec)
              j w startState None _ σ1 ltac:(lia) HB ltac:(by left) I HS Hok)
    as ((sub' & HB2 & Hf2) & HS2 & _).
  destruct (Builder_Close_fine j _ _ _ _ _ _ HB2
              ltac:(apply state_after_open; by left) Hf2 HS2)
    as (HB3 & HS3 & _).
  unfold output at 1. rewrite HS3, HB3. cbn [written render Builder.Err
    Builder.state]. rewrite members_text_start, <- !app_assoc. done.
Qed.

Lemma X1_nested_object_document_witness :
  reliable 0 empty_world ∧
  node_ok json_Marshal (NObject doc_example) ∧
  output 0 (exec (j ← NewBuilder 0;
                  build_members json_Marshal j doc_example;;
                  Builder_Close j) empty_world) =
  bytes "{" ++ marshal_string "a" ++ bytes ":1," ++ marshal_string "o" ++
  bytes ":{" ++ marshal_string "x" ++ bytes ":[1,2]}," ++
  marshal_string "l" ++ bytes ":[{},true]," ++ marshal_string "p" ++
  bytes ":{" ++ marshal_string "q" ++ bytes ":[]," ++ marshal_string "r" ++
  bytes ":" ++ marshal_string "s" ++ bytes "}}".
Proof.
  assert (reliable 0 empty_world) as Hw by reflexivity.
  assert (node_ok json_Marshal (NObject doc_example)) as Hok
    by (vm_compute; tauto).
  split_and!; [done..|].
  destruct (X1_nested_object_document json_Marshal 0 empty_world doc_example
              Hw Hok) as (Hout & _).
  rewrite Hout. vm_compute. reflexivity.
Defined.

(** X2.  The same for a list: a fresh [ListBuilder], the calls that
    build the elements [es] one after the other and [Close] append the
    compact text of the list; the writer ends closed and without error. *)
Theorem X2_nested_list_document
    (Marshal : value → list byte * option error) (w : io_Writer) (σ : world)
    (es : list node) :
  reliable w σ →
  node_ok Marshal (NList es) →
  let j := eval (NewListBuilder w) σ in
  let σ' := exec (j ← NewListBuilder w;
                  build_elems Marshal j es;; ListBuilder_Close j) σ in
  output w σ' = output w σ ++ render Marshal (NList es) ∧
  ListBuilder.Err (lists σ' !!! j) = None ∧
  ListBuilder.state (lists σ' !!! j) = closedState.
Proof.
  intros Hw Hok. cbv zeta. cbn [node_ok] in Hok.
  apply node_ok_elems in Hok.
  destruct (NewListBuilder_reliable w σ Hw) as (Hj & HB & HS & Hn).
  rewrite exec_bind, exec_bind.
  set (j := eval (NewListBuilder w) σ) in *.
  set (σ1 := exec (NewListBuilder w) σ) in *.
  destruct (build_elems_spec Marshal es
              ltac:(apply Forall_forall; intros; apply node_spec)
              j w startState None _ σ1 ltac:(lia) HB ltac:(by left) I HS Hok)
    as ((sub' & HB2 & Hf2) & HS2 & _).
  destruct (ListBuilder_Close_fine j _ _ _ _ _ _ HB2
              ltac:(apply state_after_open; by left) Hf2 HS2)
    as (HB3 & HS3 & _).
  unfold output at 1. rewrite HS3, HB3. cbn [written render ListBuilder.Err
    ListBuilder.state]. rewrite members_text_start, <- !app_assoc. done.
Qed.

Lemma X2_nested_list_document_witness :
  reliable 0 empty_world ∧
  node_ok json_Marshal (NList list_example) ∧
  output 0 (exec (j ← NewListBuilder 0;
                  build_elems json_Marshal j list_example;;
                  ListBuilder_Close j) empty_world) =
  bytes "[1,{" ++ marshal_string "k" ++ bytes ":[false]},[{}," ++
  marshal_string "s" ++ bytes "],[]]".
Proof.
  assert (reliable 0 empty_world) as Hw by reflexivity.
  assert (node_ok json_Marshal (NList list_example)) as Hok
    by (vm_compute; tauto).
  split_and!; [done..|].
  destruct (X2_nested_list_document json_Marshal 0 empty_world list_example
              Hw Hok) as (Hout & _).
  rewrite Hout. vm_compute. reflexivity.
Defined.

(** X3.  In a [Builder] that takes the next member, the calls that build
    the document [n] under [key] append the separator (nothing for the
    first member, a comma otherwise), the key, a colon and the text of
    [n]; the writer is again ready, in state opened, and no struct
    allocated before, other than the writer's own, has changed. *)
Theorem X3_member_in_ready_Builder
    (Marshal : value → list byte * option error) (b : nat) (key : string)
    (n : node) (w : io_Writer) (σ : world) :
  Builder_ready b w σ →
  marshals Marshal (VString key) →
  node_ok Marshal n →
  let σ' := exec (build_member Marshal b key n) σ in
  Builder_ready b w σ' ∧
  Builder.state (builders σ' !!! b) = openedState ∧
  output w σ' = output w σ ++ sep (Builder.state (builders σ !!! b)) ++
                (Marshal (VString key)).1 ++ colonBytes ++ render Marshal n ∧
  Builder_grows b σ σ'.
Proof.
  intros (Hb & Hw & st & sub & HB & Hst & Hfine) Hk Hok. cbv zeta.
  destruct (proj1 (node_spec Marshal n) b key w st sub _ σ Hb HB Hst Hfine
              (reliable_sink _ _ Hw) Hk Hok)
    as ((sub' & HB' & Hf') & HS' & Hg').
  split_and!.
  - split_and!.
    + destruct Hg' as (? & _). lia.
    + unfold reliable. by rewrite HS'.
    + exists openedState, sub'. split_and!; [done|by right|done].
  - by rewrite HB'.
  - unfold output at 1. rewrite HS', HB. done.
  - done.
Qed.

Lemma X3_member_in_ready_Builder_witness :
  let σ := exec (NewBuilder 0) empty_world in
  let σ' := exec (build_member json_Marshal 0 "o"
                    (NObject [("x", NListFunc [NValue (VInt 1)])])) σ in
  Builder_ready 0 0 σ ∧
  output 0 σ' = bytes "{" ++ marshal_string "o" ++ bytes ":{" ++
                marshal_string "x" ++ bytes ":[1]}".
Proof.
  cbv zeta.
  assert (Builder_ready 0 0 (exec (NewBuilder 0) empty_world)) as Hr.
  { split_and!; [vm_compute; lia|reflexivity|].
    exists startState, None. split_and!; [reflexivity|by left|done]. }
  split; [exact Hr|].
  destruct (X3_member_in_ready_Builder json_Marshal 0 "o"
              (NObject [("x", NListFunc [NValue (VInt 1)])]) 0 _ Hr)
    as (_ & _ & Hout & _).
  - reflexivity.
  - vm_compute. tauto.
  - rewrite Hout. vm_compute. reflexivity.
Defined.

(** X4.  In a [ListBuilder] that takes the next element, the calls that
    build the document [n] append the separator and the text of [n]; the
    writer is again ready, in state opened, and no struct allocated
    before, other than the writer's own, has changed. *)
Theorem X4_element_in_ready_ListBuilder
    (Marshal : value → list byte * option error) (b : nat) (n : node)
    (w : io_Writer) (σ : world) :
  ListBuilder_ready b w σ →
  node_ok Marshal n →
  let σ' := exec (build_elem Marshal b n) σ in
  ListBuilder_ready b w σ' ∧
  ListBuilder.state (lists σ' !!! b) = openedState ∧
  output w σ' = output w σ ++ sep (ListBuilder.state (lists σ !!! b)) ++
                render Marshal n ∧
  ListBuilder_grows b σ σ'.
Proof.
  intros (Hb & Hw & st & sub & HB & Hst & Hfine) Hok. cbv zeta.
  destruct (proj2 (node_spec Marshal n) b w st sub _ σ Hb HB Hst Hfine
              (reliable_sink _ _ Hw) Hok)
    as ((sub' & HB' & Hf') & HS' & Hg').
  split_and!.
  - split_and!.
    + destruct Hg' as (_ & ? & _). lia.
    + unfold reliable. by rewrite HS'.
    + exists openedState, sub'. split_and!; [done|by right|done].
  - by rewrite HB'.
  - unfold output at 1. rewrite HS', HB. done.
  - done.
Qed.

Lemma X4_element_in_ready_ListBuilder_witness :
  let σ := exec (j ← NewListBuilder 0; ListBuilder_Add json_Marshal j (VInt 7))
             empty_world in
  let σ' := exec (build_elem json_Marshal 0
                    (NObject [("x", NList [NValue (VInt 1)])])) σ in
  ListBuilder_ready 0 0 σ ∧
  output 0 σ' = bytes "[7,{" ++ marshal_string "x" ++ bytes ":[1]}".
Proof.
  cbv zeta.
  set (σ := exec (j ← NewListBuilder 0; ListBuilder_Add json_Marshal j (VInt 7))
              empty_world).
  assert (ListBuilder_ready 0 0 σ) as Hr.
  { split_and!; [vm_compute; lia|reflexivity|].
    exists openedState, None. split_and!; [reflexivity|by right|done]. }
  split; [exact Hr|].
  destruct (X4_element_in_ready_ListBuilder json_Marshal 0
              (NObject [("x", NList [NValue (VInt 1)])]) 0 σ Hr)
    as (_ & _ & Hout & _).
  - vm_compute. tauto.
  - rewrite Hout. vm_compute. reflexivity.
Defined.

(** X5.  On a [Builder] that takes the next member, [AddAll] on pairs of
    a string key and a value, all of which marshal, does what the [Add]
    calls on the pairs do, one after the other. *)
Theorem X5_Builder_AddAll_is_run_of_Add
    (Marshal : value → list byte * option error) (b : nat) (w : io_Writer)
    (kvs : list (string * value)) (σ : world) :
  Builder_ready b w σ →
  Forall (λ kv, marshals Marshal (VString kv.1) ∧ marshals Marshal kv.2)
    kvs →
  exec (Builder_AddAll Marshal b (flat_pairs kvs)) σ =
  exec (build_members Marshal b (map (λ kv, (kv.1, NValue kv.2)) kvs)) σ.
Proof.
  intros Hr Hm. rewrite Builder_AddAll_even.
  - by eapply Builder_AddAll_loop_members.
  - rewrite flat_pairs_length, Nat.mul_comm. apply Nat.Div0.mod_mul.
Qed.

Lemma X5_Builder_AddAll_is_run_of_Add_witness :
  let σ := exec (NewBuilder 0) empty_world in
  Builder_ready 0 0 σ ∧
  exec (Builder_AddAll json_Marshal 0
          [VString "1"; VString "one"; VString "2"; VInt 2]) σ =
  exec (Builder_Add json_Marshal 0 "1" (VString "one");;
        Builder_Add json_Marshal 0 "2" (VInt 2);; mret tt) σ.
Proof.
  cbv zeta.
  assert (Builder_ready 0 0 (exec (NewBuilder 0) empty_world)) as Hr.
  { split_and!; [vm_compute; lia|reflexivity|].
    exists startState, None. split_and!; [reflexivity|by left|done]. }
  split; [exact Hr|].
  apply (X5_Builder_AddAll_is_run_of_Add json_Marshal 0 0
           [("1", VString "one"); ("2", VInt 2)] _ Hr).
  repeat constructor.
Defined.

(** X6.  On a [ListBuilder] that takes the next element, [AddAll] on
    values that marshal does what the [Add] calls on the values do, one
    after the other. *)
Theorem X6_ListBuilder_AddAll_is_run_of_Add
    (Marshal : value → list byte * option error) (b : nat) (w : io_Writer)
    (vs : list value) (σ : world) :
  ListBuilder_ready b w σ →
  Forall (marshals Marshal) vs →
  exec (ListBuilder_AddAll Marshal b vs) σ =
  exec (build_elems Marshal b (map NValue vs)) σ.
Proof.
  intros Hr Hm. revert σ Hr.
  induction Hm as [|v vs Hv Hvs IH];
    intros σ (Hb & Hw & st & sub & HB & Hst & Hfine); [done|].
  cbn [map build_elems ListBuilder_AddAll].
  rewrite exec_bind. unfold getL at 1 2. cbn [eval exec fst snd].
  rewrite HB. cbn [ListBuilder.Err]. rewrite !exec_bind. cbn [build_elem].
  destruct (elem_Value Marshal v b w st sub _ σ Hb HB Hst Hfine
              (reliable_sink _ _ Hw) Hv)
    as ((sub' & HB' & Hf') & HS' & Hg').
  cbn [build_elem] in HB', Hf', HS', Hg'.
  apply IH. split_and!.
  - destruct Hg' as (_ & ? & _). lia.
  - unfold reliable. by rewrite HS'.
  - exists openedState, sub'. split_and!; [done|by right|done].
Qed.

Lemma X6_ListBuilder_AddAll_is_run_of_Add_witness :
  let σ := exec (NewListBuilder 0) empty_world in
  ListBuilder_ready 0 0 σ ∧
  exec (ListBuilder_AddAll json_Marshal 0 [VString "bar"; VInt 7]) σ =
  exec (ListBuilder_Add json_Marshal 0 (VString "bar");;
        ListBuilder_Add json_Marshal 0 (VInt 7);; mret tt) σ.
Proof.
  cbv zeta.
  assert (ListBuilder_ready 0 0 (exec (NewListBuilder 0) empty_world)) as Hr.
  { split_and!; [vm_compute; lia|reflexivity|].
    exists startState, None. split_and!; [reflexivity|by left|done]. }
  split; [exact Hr|].
  apply (X6_ListBuilder_AddAll_is_run_of_Add json_Marshal 0 0
           [VString "bar"; VInt 7] _ Hr).
  repeat constructor.
Defined.

(** ** Operations on a writer in error *)

Lemma Builder_preadd_in_error Marshal (b : nat) (key : string) (σ : world) :
  Builder.Err (builders σ !!! b) ≠ None →
  let σ' := exec (Builder_preadd Marshal b key) σ in
  eval (Builder_preadd Marshal b key) σ ≠ None ∧
  sinks σ' = sinks σ ∧
  Builder.Err (builders σ' !!! b) ≠ None ∧
  Builder.state (builders σ' !!! b) = Builder.state (builders σ !!! b) ∧
  Builder.subB (builders σ' !!! b) = Builder.subB (builders σ !!! b) ∧
  Builder_frame b σ σ'.
Proof.
  intros H. cbv zeta.
  destruct (Builder_preadd_keeps_error Marshal b key σ H) as (? & ? & ? & ?).
  split_and!; try done; [|apply Builder_frame_preadd].
  apply (wp_run _ (λ _ σ', Builder.subB (builders σ' !!! b) =
                           Builder.subB (builders σ !!! b))).
  destruct (Builder.Err (builders σ !!! b)) eqn:E; [|done]. wp_go; done.
Qed.

Lemma Builder_Add_preadd_fails Marshal (b : nat) (key : string) (v : value)
    (σ : world) :
  eval (Builder_preadd Marshal b key) σ ≠ None →
  exec (Builder_Add Marshal b key v) σ = exec (Builder_preadd Marshal b key) σ.
Proof.
  unfold Builder_Add. rewrite exec_bind.
  destruct (eval (Builder_preadd Marshal b key) σ); done.
Qed.

Lemma Builder_Close_in_error (b : nat) (σ : world) :
  Builder.Err (builders σ !!! b) ≠ None →
  let σ' := exec (Builder_Close b) σ in
  sinks σ' = sinks σ ∧
  Builder.Err (builders σ' !!! b) ≠ None ∧
  Builder.state (builders σ' !!! b) = Builder.state (builders σ !!! b) ∧
  Builder.subB (builders σ' !!! b) = Builder.subB (builders σ !!! b) ∧
  Builder_frame b σ σ'.
Proof.
  intros H. cbv zeta. split_and!; [..|apply Builder_frame_Close].
  all: destruct (Builder.Err (builders σ !!! b)) eqn:E; [|done].
  - apply (wp_run _ (λ _ σ', sinks σ' = sinks σ)). wp_go; done.
  - apply (wp_run _ (λ _ σ', Builder.Err (builders σ' !!! b) ≠ None)).
    wp_go; done.
  - apply (wp_run _ (λ _ σ', Builder.state (builders σ' !!! b) =
                             Builder.state (builders σ !!! b))).
    wp_go; done.
  - apply (wp_run _ (λ _ σ', Builder.subB (builders σ' !!! b) =
                             Builder.subB (builders σ !!! b))).
    wp_go; done.
Qed.

Lemma Builder_call_in_error Marshal (b : nat) (op : BuilderOp) (σ : world) :
  Builder.Err (builders σ !!! b) ≠ None →
  constructs_child_B op = false →
  let σ' := exec (Builder_call Marshal b op) σ in
  sinks σ' = sinks σ ∧
  Builder.Err (builders σ' !!! b) ≠ None ∧
  Builder.state (builders σ' !!! b) = Builder.state (builders σ !!! b) ∧
  Builder.subB (builders σ' !!! b) = Builder.subB (builders σ !!! b) ∧
  Builder_frame b σ σ'.
Proof.
  intros H Hop. cbv zeta.
  destruct op as [key v|args|key|key|key f|key f|]; try done;
    cbn [Builder_call].
  - destruct (Builder_preadd_in_error Marshal b key σ H) as (He & Hr).
    by rewrite Builder_Add_preadd_fails.
  - unfold Builder_AddAll. destruct (negb _).
    + unfold Builder_frame, exec, modB. wp_simpl. split_and!; try done.
      intros b' Hb'. by rewrite lookup_total_insert_ne.
    + rewrite Builder_AddAll_loop_stuck by done. by split_and!.
  - destruct (Builder_preadd_in_error Marshal b key σ H) as (He & Hr).
    by rewrite Builder_AddObjectFunc_preadd_fails.
  - destruct (Builder_preadd_in_error Marshal b key σ H) as (He & Hr).
    by rewrite Builder_AddListFunc_preadd_fails.
  - by apply Builder_Close_in_error.
Qed.

Lemma ListBuilder_preadd_in_error (b : nat) (σ : world) :
  ListBuilder.Err (lists σ !!! b) ≠ None →
  let σ' := exec (ListBuilder_preadd b) σ in
  eval (ListBuilder_preadd b) σ ≠ None ∧
  sinks σ' = sinks σ ∧
  ListBuilder.Err (lists σ' !!! b) ≠ None ∧
  ListBuilder.state (lists σ' !!! b) = ListBuilder.state (lists σ !!! b) ∧
  ListBuilder.subB (lists σ' !!! b) = ListBuilder.subB (lists σ !!! b) ∧
  ListBuilder_frame b σ σ'.
Proof.
  intros H. cbv zeta.
  destruct (ListBuilder_preadd_keeps_error b σ H) as (? & ? & ? & ?).
  split_and!; try done; [|apply ListBuilder_frame_preadd].
  apply (wp_run _ (λ _ σ', ListBuilder.subB (lists σ' !!! b) =
                           ListBuilder.subB (lists σ !!! b))).
  destruct (ListBuilder.Err (lists σ !!! b)) eqn:E; [|done]. wp_go; done.
Qed.

Lemma ListBuilder_Add_preadd_fails Marshal (b : nat) (v : value) (σ : world) :
  eval (ListBuilder_preadd b) σ ≠ None →
  exec (ListBuilder_Add Marshal b v) σ = exec (ListBuilder_preadd b) σ.
Proof.
  unfold ListBuilder_Add. rewrite exec_bind.
  destruct (eval (ListBuilder_preadd b) σ); done.
Qed.

Lemma ListBuilder_AddObject_preadd_fails (b : nat) (σ : world) :
  eval (ListBuilder_preadd b) σ ≠ None →
  exec (ListBuilder_AddObject b) σ = exec (ListBuilder_preadd b) σ.
Proof.
  unfold ListBuilder_AddObject. rewrite exec_bind.
  destruct (eval (ListBuilder_preadd b) σ); done.
Qed.

Lemma ListBuilder_Close_in_error (b : nat) (σ : world) :
  ListBuilder.Err (lists σ !!! b) ≠ None →
  let σ' := exec (ListBuilder_Close b) σ in
  sinks σ' = sinks σ ∧
  ListBuilder.Err (lists σ' !!! b) ≠ None ∧
  ListBuilder.state (lists σ' !!! b) = ListBuilder.state (lists σ !!! b) ∧
  ListBuilder.subB (lists σ' !!! b) = ListBuilder.subB (lists σ !!! b) ∧
  ListBuilder_frame b σ σ'.
Proof.
  intros H. cbv zeta. split_and!; [..|apply ListBuilder_frame_Close].
  all: destruct (ListBuilder.Err (lists σ !!! b)) eqn:E; [|done].
  - apply (wp_run _ (λ _ σ', sinks σ' = sinks σ)). wp_go; done.
  - apply (wp_run _ (λ _ σ', ListBuilder.Err (lists σ' !!! b) ≠ None)).
    wp_go; done.
  - apply (wp_run _ (λ _ σ', ListBuilder.state (lists σ' !!! b) =
                             ListBuilder.state (lists σ !!! b))).
    wp_go; done.
  - apply (wp_run _ (λ _ σ', ListBuilder.subB (lists σ' !!! b) =
                             ListBuilder.subB (lists σ !!! b))).
    wp_go; done.
Qed.

Lemma ListBuilder_call_in_error Marshal (b : nat) (op : ListBuilderOp)
    (σ : world) :
  ListBuilder.Err (lists σ !!! b) ≠ None →
  constructs_child_L op = false →
  let σ' := exec (ListBuilder_call Marshal b op) σ in
  sinks σ' = sinks σ ∧
  ListBuilder.Err (lists σ' !!! b) ≠ None ∧
  ListBuilder.state (lists σ' !!! b) = ListBuilder.state (lists σ !!! b) ∧
  ListBuilder.subB (lists σ' !!! b) = ListBuilder.subB (lists σ !!! b) ∧
  ListBuilder_frame b σ σ'.
Proof.
  intros H Hop. cbv zeta.
  destruct op as [v|args| | |f|f|]; try done; cbn [ListBuilder_call].
  - destruct (ListBuilder_preadd_in_error b σ H) as (He & Hr).
    by rewrite ListBuilder_Add_preadd_fails.
  - rewrite ListBuilder_AddAll_stuck by done. by split_and!.
  - destruct (ListBuilder_preadd_in_error b σ H) as (He & Hr).
    rewrite exec_bind. change (exec (mret tt) ?s) with s.
    by rewrite ListBuilder_AddObject_preadd_fails.
  - destruct (ListBuilder_preadd_in_error b σ H) as (He & Hr).
    by rewrite ListBuilder_AddObjectFunc_preadd_fails.
  - destruct (ListBuilder_preadd_in_error b σ H) as (He & Hr).
    by rewrite ListBuilder_AddListFunc_preadd_fails.
  - by apply ListBuilder_Close_in_error.
Qed.

(** X7.  Once a [Builder] holds an error, a run of any operations other
    than [AddObject] and [AddList] writes nothing to any sink, allocates
    nothing and changes nothing but the writer's [Err], which stays
    non-nil; in particular [Close] does not close the writer, and a
    builder function given to [AddObjectFunc] or [AddListFunc] is not
    run. *)
Theorem X7_Builder_in_error_writes_nothing
    (Marshal : value → list byte * option error) (b : nat)
    (ops : list BuilderOp) (σ : world) :
  Builder.Err (builders σ !!! b) ≠ None →
  Forall (λ op, constructs_child_B op = false) ops →
  let σ' := exec (Builder_calls Marshal b ops) σ in
  sinks σ' = sinks σ ∧
  Builder.Err (builders σ' !!! b) ≠ None ∧
  Builder.state (builders σ' !!! b) = Builder.state (builders σ !!! b) ∧
  Builder.subB (builders σ' !!! b) = Builder.subB (builders σ !!! b) ∧
  Builder_frame b σ σ'.
Proof.
  intros H Hops. cbv zeta. revert σ H.
  induction Hops as [|op ops Hop Hops IH]; intros σ H.
  - by split_and!.
  - cbn [Builder_calls]. rewrite exec_bind.
    destruct (Builder_call_in_error Marshal b op σ H Hop)
      as (HS & HE & Hst & Hsub & Hfr).
    destruct (IH _ HE) as (HS' & HE' & Hst' & Hsub' & Hfr').
    split_and!; [congruence|done|congruence|congruence|by etrans].
Qed.

Lemma X7_Builder_in_error_writes_nothing_witness :
  let σ := exec (NewBuilder 0)
             (scripted_world [WriteFail 0 (foreign_error 1)]) in
  let σ' := exec (Builder_calls json_Marshal 0
                    [BAdd "a" (VInt 1); BAddAll [VString "b"; VInt 2];
                     BAddObjectFunc "c" test_f; BClose]) σ in
  Builder.Err (builders σ !!! 0) = Some (foreign_error 1) ∧
  output 0 σ' = [] ∧
  Builder.Err (builders σ' !!! 0) ≠ None ∧
  Builder.state (builders σ' !!! 0) = startState.
Proof.
  cbv zeta.
  set (σ := exec (NewBuilder 0)
              (scripted_world [WriteFail 0 (foreign_error 1)])).
  assert (Builder.Err (builders σ !!! 0) ≠ None) as H by (vm_compute; done).
  destruct (X7_Builder_in_error_writes_nothing json_Marshal 0
              [BAdd "a" (VInt 1); BAddAll [VString "b"; VInt 2];
               BAddObjectFunc "c" test_f; BClose] σ H)
    as (HS & HE & Hst & _).
  - repeat constructor.
  - split_and!; [reflexivity| |exact HE|].
    + unfold output. rewrite HS. reflexivity.
    + rewrite Hst. reflexivity.
Defined.

(** X8.  Once a [ListBuilder] holds an error, a run of any operations
    other than [AddList] writes nothing to any sink, allocates nothing and
    changes nothing but the writer's [Err], which stays non-nil. *)
Theorem X8_ListBuilder_in_error_writes_nothing
    (Marshal : value → list byte * option error) (b : nat)
    (ops : list ListBuilderOp) (σ : world) :
  ListBuilder.Err (lists σ !!! b) ≠ None →
  Forall (λ op, constructs_child_L op = false) ops →
  let σ' := exec (ListBuilder_calls Marshal b ops) σ in
  sinks σ' = sinks σ ∧
  ListBuilder.Err (lists σ' !!! b) ≠ None ∧
  ListBuilder.state (lists σ' !!! b) = ListBuilder.state (lists σ !!! b) ∧
  ListBuilder.subB (lists σ' !!! b) = ListBuilder.subB (lists σ !!! b) ∧
  ListBuilder_frame b σ σ'.
Proof.
  intros H Hops. cbv zeta. revert σ H.
  induction Hops as [|op ops Hop Hops IH]; intros σ H.
  - by split_and!.
  - cbn [ListBuilder_calls]. rewrite exec_bind.
    destruct (ListBuilder_call_in_error Marshal b op σ H Hop)
      as (HS & HE & Hst & Hsub & Hfr).
    destruct (IH _ HE) as (HS' & HE' & Hst' & Hsub' & Hfr').
    split_and!; [congruence|done|congruence|congruence|by etrans].
Qed.

Lemma X8_ListBuilder_in_error_writes_nothing_witness :
  let σ := exec (j ← NewListBuilder 0; ListBuilder_Add json_Marshal j (VInt 1))
             (scripted_world [WriteOk; WriteFail 0 (foreign_error 1)]) in
  let σ' := exec (ListBuilder_calls json_Marshal 0
                    [LAdd (VInt 2); LAddObject; LAddListFunc test_g;
                     LAddAll [VInt 3]; LClose]) σ in
  ListBuilder.Err (lists σ !!! 0) = Some (foreign_error 1) ∧
  output 0 σ' = bytes "[" ∧
  ListBuilder.Err (lists σ' !!! 0) ≠ None ∧
  ListBuilder.state (lists σ' !!! 0) = openedState.
Proof.
  cbv zeta.
  set (σ := exec (j ← NewListBuilder 0;
                  ListBuilder_Add json_Marshal j (VInt 1))
              (scripted_world [WriteOk; WriteFail 0 (foreign_error 1)])).
  assert (ListBuilder.Err (lists σ !!! 0) ≠ None) as H by (vm_compute; done).
  destruct (X8_ListBuilder_in_error_writes_nothing json_Marshal 0
              [LAdd (VInt 2); LAddObject; LAddListFunc test_g;
               LAddAll [VInt 3]; LClose] σ H)
    as (HS & HE & Hst & _).
  - repeat constructor.
  - split_and!; [reflexivity| |exact HE|].
    + unfold output. rewrite HS. reflexivity.
    + rewrite Hst. reflexivity.
Defined.

(** ** A child that carries an error or is left open *)

Lemma Builder_checkSub_pending (b : nat) (c : builderCommon) (σ : world) :
  Builder.Err (builders σ !!! b) = None →
  Builder.subB (builders σ !!! b) = Some c →
  child_pending c σ →
  let σ' := exec (Builder_checkSub b) σ in
  eval (Builder_checkSub b) σ = Some (child_error c σ) ∧
  Builder.Err (builders σ' !!! b) = Some (child_error c σ) ∧
  Builder.subB (builders σ' !!! b) = None ∧
  Builder.state (builders σ' !!! b) = Builder.state (builders σ !!! b) ∧
  sinks σ' = sinks σ.
Proof.
  intros HE Hsub Hp. cbv zeta.
  apply (wp_run _ (λ a σ', a = Some (child_error c σ) ∧
    Builder.Err (builders σ' !!! b) = Some (child_error c σ) ∧
    Builder.subB (builders σ' !!! b) = None ∧
    Builder.state (builders σ' !!! b) = Builder.state (builders σ !!! b) ∧
    sinks σ' = sinks σ)).
  unfold child_error.
  destruct c as [p|p], Hp as [Hp|Hp];
    unfold eval, builderCommon_err, builderCommon_closed in Hp |- *;
    simpl in Hp |- *.
  - destruct (Builder.Err (builders σ !!! p)) eqn:E; [|done]. wp_go. done.
  - destruct (Builder.Err (builders σ !!! p)) eqn:E; wp_go; done.
  - destruct (ListBuilder.Err (lists σ !!! p)) eqn:E; [|done]. wp_go. done.
  - destruct (ListBuilder.Err (lists σ !!! p)) eqn:E; wp_go; done.
Qed.

Lemma Builder_preadd_open (Marshal : value → list byte * option error)
    (b : nat) (key : string) (σ : world) :
  Builder.state (builders σ !!! b) ≠ closedState →
  eval (Builder_checkSub b) σ ≠ None →
  Builder_preadd Marshal b key σ = Builder_checkSub b σ.
Proof.
  intros Hst He. apply wp_pair. pose proof (Zeqb_closed_false _ Hst) as E.
  unfold Builder_preadd. wp_upto_preadd. apply wp_call. intros err σ1 Hc.
  rewrite (eval_of_run _ _ _ _ Hc) in He.
  destruct err; [|done]. by apply wp_ret.
Qed.

Lemma Builder_Close_open (b : nat) (σ : world) :
  Builder.state (builders σ !!! b) ≠ closedState →
  eval (Builder_checkSub b) σ ≠ None →
  exec (Builder_Close b) σ = exec (Builder_checkSub b) σ.
Proof.
  intros Hst He. pose proof (Zeqb_closed_false _ Hst) as E.
  apply (wp_run _ (λ _ σ', σ' = exec (Builder_checkSub b) σ)).
  unfold Builder_Close. wp_upto_preadd. apply wp_call. intros err σ1 Hc.
  rewrite (eval_of_run _ _ _ _ Hc) in He.
  rewrite (exec_of_run _ _ _ _ Hc).
  destruct err; [|done]. by apply wp_ret.
Qed.

Lemma construct_Builder_keeps (w : io_Writer) (en : encoder) (σ : world) :
  let σ' := exec (construct_Builder w en) σ in
  eval (construct_Builder w en) σ = nextB σ ∧
  (∀ b, b < nextB σ → builders σ' !!! b = builders σ !!! b) ∧
  lists σ' = lists σ.
Proof.
  cbv zeta.
  apply (wp_run _ (λ a σ', a = nextB σ ∧
    (∀ b, b < nextB σ → builders σ' !!! b = builders σ !!! b) ∧
    lists σ' = lists σ)).
  unfold construct_Builder. wp_go; split_and!; try done;
    intros b Hb; rewrite ?lookup_total_insert_ne by lia; done.
Qed.

Lemma construct_ListBuilder_keeps (w : io_Writer) (en : encoder) (σ : world) :
  let σ' := exec (construct_ListBuilder w en) σ in
  eval (construct_ListBuilder w en) σ = nextL σ ∧
  (∀ b, b < nextL σ → lists σ' !!! b = lists σ !!! b) ∧
  builders σ' = builders σ.
Proof.
  cbv zeta.
  apply (wp_run _ (λ a σ', a = nextL σ ∧
    (∀ b, b < nextL σ → lists σ' !!! b = lists σ !!! b) ∧
    builders σ' = builders σ)).
  unfold construct_ListBuilder. wp_go; split_and!; try done;
    intros b Hb; rewrite ?lookup_total_insert_ne by lia; done.
Qed.

(** X9.  A [Builder] without error and not closed, whose recorded child
    carries an error or is not closed, reports it at its next operation
    other than [AddAll]: [Err] becomes the child's own error if it has
    one, and the unclosed-child error otherwise.  Unless the operation is
    [AddObject] or [AddList], nothing is written, the child is forgotten
    and the state is as before. *)
Theorem X9_Builder_reports_pending_child
    (Marshal : value → list byte * option error) (b : nat) (op : BuilderOp)
    (c : builderCommon) (σ : world) :
  b < nextB σ →
  Builder.Err (builders σ !!! b) = None →
  Builder.state (builders σ !!! b) ≠ closedState →
  Builder.subB (builders σ !!! b) = Some c →
  child_pending c σ →
  is_AddAll_B op = false →
  let σ' := exec (Builder_call Marshal b op) σ in
  Builder.Err (builders σ' !!! b) = Some (child_error c σ) ∧
  (constructs_child_B op = false →
   sinks σ' = sinks σ ∧
   Builder.subB (builders σ' !!! b) = None ∧
   Builder.state (builders σ' !!! b) = Builder.state (builders σ !!! b)).
Proof.
  intros Hb HE Hst Hsub Hp Hop. cbv zeta.
  destruct (Builder_checkSub_pending b c σ HE Hsub Hp)
    as (He & HE' & Hsub' & Hst' & HS').
  assert (eval (Builder_checkSub b) σ ≠ None) as Hne by (by rewrite He).
  assert (∀ key, Builder_preadd Marshal b key σ = Builder_checkSub b σ)
    as Hpre by (intros key; by apply Builder_preadd_open).
  assert (∀ key, eval (Builder_preadd Marshal b key) σ ≠ None) as Hpe
    by (intros key; unfold eval; by rewrite Hpre).
  assert (∀ key, exec (Builder_preadd Marshal b key) σ =
                 exec (Builder_checkSub b) σ) as Hpx
    by (intros key; unfold exec; by rewrite Hpre).
  pose proof (Builder_frame_checkSub b σ) as (HnB & HnL & _).
  destruct op as [key v|args|key|key|key f|key f|]; try done;
    cbn [Builder_call constructs_child_B].
  - rewrite Builder_Add_preadd_fails, Hpx by done. done.
  - split; [|done]. rewrite exec_bind. change (exec (mret tt) ?s) with s.
    unfold exec in HE', HnB.
    destruct (Builder_checkSub b σ) as [err σ1] eqn:Hc.
    cbn [fst snd] in HE', HnB.
    destruct (construct_Builder (Builder.w (builders σ1 !!! b))
                (Builder.e (builders σ1 !!! b)) σ1) as [c' σ2] eqn:Hc'.
    pose proof (construct_Builder_keeps (Builder.w (builders σ1 !!! b))
                  (Builder.e (builders σ1 !!! b)) σ1) as (_ & Hk & _).
    unfold exec in Hk. rewrite Hc' in Hk. cbn [fst snd] in Hk.
    unfold exec at 1.
    rewrite (Builder_AddObject_run Marshal b key σ σ1 σ2 err c'
               ltac:(by rewrite Hpre) Hc').
    unfold exec, modB. cbn [fst snd builders].
    rewrite lookup_total_insert_eq. cbn. rewrite Hk by lia. done.
  - split; [|done]. rewrite exec_bind. change (exec (mret tt) ?s) with s.
    unfold exec in HE', HnB.
    destruct (Builder_checkSub b σ) as [err σ1] eqn:Hc.
    cbn [fst snd] in HE', HnB.
    destruct (construct_ListBuilder (Builder.w (builders σ1 !!! b))
                (Builder.e (builders σ1 !!! b)) σ1) as [c' σ2] eqn:Hc'.
    pose proof (construct_ListBuilder_keeps (Builder.w (builders σ1 !!! b))
                  (Builder.e (builders σ1 !!! b)) σ1) as (_ & _ & Hk).
    unfold exec in Hk. rewrite Hc' in Hk. cbn [fst snd] in Hk.
    unfold exec at 1.
    rewrite (Builder_AddList_run Marshal b key σ σ1 σ2 err c'
               ltac:(by rewrite Hpre) Hc').
    unfold exec, modB. cbn [fst snd builders].
    rewrite lookup_total_insert_eq. cbn. rewrite Hk. done.
  - rewrite Builder_AddObjectFunc_preadd_fails, Hpx by done. done.
  - rewrite Builder_AddListFunc_preadd_fails, Hpx by done. done.
  - rewrite Builder_Close_open by done. done.
Qed.

Lemma X9_Builder_reports_pending_child_witness :
  let σ := exec (j ← NewBuilder 0; Builder_AddObject json_Marshal j "a")
             empty_world in
  let σ' := exec (Builder_Add json_Marshal 0 "b" (VInt 1)) σ in
  child_pending (BuilderPtr 1) σ ∧
  Builder.Err (builders σ' !!! 0) =
    Some (errors_New "A sub-Builder was not closed") ∧
  output 0 σ' = output 0 σ.
Proof.
  cbv zeta.
  set (σ := exec (j ← NewBuilder 0; Builder_AddObject json_Marshal j "a")
              empty_world).
  assert (child_pending (BuilderPtr 1) σ) as Hp by (right; reflexivity).
  split; [exact Hp|].
  destruct (X9_Builder_reports_pending_child json_Marshal 0
              (BAdd "b" (VInt 1)) (BuilderPtr 1) σ) as (HE & Hrest);
    [vm_compute; lia|reflexivity|by vm_compute|reflexivity|exact Hp|
     reflexivity|].
  destruct (Hrest eq_refl) as (HS & _).
  split; [exact HE|]. unfold output.
  change (exec (Builder_call json_Marshal 0 (BAdd "b" (VInt 1))) σ)
    with (exec (Builder_Add json_Marshal 0 "b" (VInt 1)) σ) in HS.
  by rewrite HS.
Defined.

Lemma ListBuilder_checkSub_pending (b : nat) (c : builderCommon) (σ : world) :
  ListBuilder.Err (lists σ !!! b) = None →
  ListBuilder.subB (lists σ !!! b) = Some c →
  child_pending c σ →
  let σ' := exec (ListBuilder_checkSub b) σ in
  eval (ListBuilder_checkSub b) σ = Some (child_error c σ) ∧
  ListBuilder.Err (lists σ' !!! b) = Some (child_error c σ) ∧
  ListBuilder.subB (lists σ' !!! b) = None ∧
  ListBuilder.state (lists σ' !!! b) = ListBuilder.state (lists σ !!! b) ∧
  sinks σ' = sinks σ.
Proof.
  intros HE Hsub Hp. cbv zeta.
  apply (wp_run _ (λ a σ', a = Some (child_error c σ) ∧
    ListBuilder.Err (lists σ' !!! b) = Some (child_error c σ) ∧
    ListBuilder.subB (lists σ' !!! b) = None ∧
    ListBuilder.state (lists σ' !!! b) = ListBuilder.state (lists σ !!! b) ∧
    sinks σ' = sinks σ)).
  unfold child_error.
  destruct c as [p|p], Hp as [Hp|Hp];
    unfold eval, builderCommon_err, builderCommon_closed in Hp |- *;
    simpl in Hp |- *.
  - destruct (Builder.Err (builders σ !!! p)) eqn:E; [|done]. wp_go. done.
  - destruct (Builder.Err (builders σ !!! p)) eqn:E; wp_go; done.
  - destruct (ListBuilder.Err (lists σ !!! p)) eqn:E; [|done]. wp_go. done.
  - destruct (ListBuilder.Err (lists σ !!! p)) eqn:E; wp_go; done.
Qed.

Lemma ListBuilder_preadd_open (b : nat) (σ : world) :
  ListBuilder.state (lists σ !!! b) ≠ closedState →
  eval (ListBuilder_checkSub b) σ ≠ None →
  ListBuilder_preadd b σ = ListBuilder_checkSub b σ.
Proof.
  intros Hst He. apply wp_pair. pose proof (Zeqb_closed_false _ Hst) as E.
  unfold ListBuilder_preadd. wp_upto_preadd. apply wp_call. intros err σ1 Hc.
  rewrite (eval_of_run _ _ _ _ Hc) in He.
  destruct err; [|done]. by apply wp_ret.
Qed.

Lemma ListBuilder_Close_open (b : nat) (σ : world) :
  ListBuilder.state (lists σ !!! b) ≠ closedState →
  eval (ListBuilder_checkSub b) σ ≠ None →
  exec (ListBuilder_Close b) σ = exec (ListBuilder_checkSub b) σ.
Proof.
  intros Hst He. pose proof (Zeqb_closed_false _ Hst) as E.
  apply (wp_run _ (λ _ σ', σ' = exec (ListBuilder_checkSub b) σ)).
  unfold ListBuilder_Close. wp_upto_preadd. apply wp_call. intros err σ1 Hc.
  rewrite (eval_of_run _ _ _ _ Hc) in He.
  rewrite (exec_of_run _ _ _ _ Hc).
  destruct err; [|done]. by apply wp_ret.
Qed.

(** X10.  The same for a [ListBuilder]: the child it recorded, if it
    carries an error or is not closed, is reported at the next operation
    other than [AddAll], with the child's own error first.  Unless the
    operation is [AddList], nothing is written, the child is forgotten and
    the state is as before; [AddObject] then returns nil. *)
Theorem X10_ListBuilder_reports_pending_child
    (Marshal : value → list byte * option error) (b : nat)
    (op : ListBuilderOp) (c : builderCommon) (σ : world) :
  b < nextL σ →
  ListBuilder.Err (lists σ !!! b) = None →
  ListBuilder.state (lists σ !!! b) ≠ closedState →
  ListBuilder.subB (lists σ !!! b) = Some c →
  child_pending c σ →
  is_AddAll_L op = false →
  let σ' := exec (ListBuilder_call Marshal b op) σ in
  ListBuilder.Err (lists σ' !!! b) = Some (child_error c σ) ∧
  (constructs_child_L op = false →
   sinks σ' = sinks σ ∧
   ListBuilder.subB (lists σ' !!! b) = None ∧
   ListBuilder.state (lists σ' !!! b) = ListBuilder.state (lists σ !!! b)).
Proof.
  intros Hb HE Hst Hsub Hp Hop. cbv zeta.
  destruct (ListBuilder_checkSub_pending b c σ HE Hsub Hp)
    as (He & HE' & Hsub' & Hst' & HS').
  assert (eval (ListBuilder_checkSub b) σ ≠ None) as Hne by (by rewrite He).
  pose proof (ListBuilder_preadd_open b σ Hst Hne) as Hpre.
  assert (eval (ListBuilder_preadd b) σ ≠ None) as Hpe
    by (unfold eval; by rewrite Hpre).
  assert (exec (ListBuilder_preadd b) σ = exec (ListBuilder_checkSub b) σ)
    as Hpx by (unfold exec; by rewrite Hpre).
  pose proof (ListBuilder_frame_checkSub b σ) as (HnB & HnL & _).
  destruct op as [v|args| | |f|f|]; try done;
    cbn [ListBuilder_call constructs_child_L].
  - rewrite ListBuilder_Add_preadd_fails, Hpx by done. done.
  - rewrite exec_bind. change (exec (mret tt) ?s) with s.
    rewrite ListBuilder_AddObject_preadd_fails, Hpx by done. done.
  - split; [|done]. rewrite exec_bind. change (exec (mret tt) ?s) with s.
    unfold exec in HE', HnL.
    destruct (ListBuilder_checkSub b σ) as [err σ1] eqn:Hc.
    cbn [fst snd] in HE', HnL.
    destruct (construct_ListBuilder (ListBuilder.w (lists σ1 !!! b))
                (ListBuilder.e (lists σ1 !!! b)) σ1) as [c' σ2] eqn:Hc'.
    pose proof (construct_ListBuilder_keeps (ListBuilder.w (lists σ1 !!! b))
                  (ListBuilder.e (lists σ1 !!! b)) σ1) as (_ & Hk & _).
    unfold exec in Hk. rewrite Hc' in Hk. cbn [fst snd] in Hk.
    unfold exec at 1.
    rewrite (ListBuilder_AddList_run b σ σ1 σ2 err c' Hpre Hc').
    unfold exec, modL. cbn [fst snd lists].
    rewrite lookup_total_insert_eq. cbn. rewrite Hk by lia. done.
  - rewrite ListBuilder_AddObjectFunc_preadd_fails, Hpx by done. done.
  - rewrite ListBuilder_AddListFunc_preadd_fails, Hpx by done. done.
  - rewrite ListBuilder_Close_open by done. done.
Qed.

Lemma X10_ListBuilder_reports_pending_child_witness :
  let σ := exec (j ← NewListBuilder 0; ListBuilder_AddList j) empty_world in
  let σ' := exec (ListBuilder_Close 0) σ in
  child_pending (ListBuilderPtr 1) σ ∧
  ListBuilder.Err (lists σ' !!! 0) =
    Some (errors_New "A sub-Builder was not closed") ∧
  output 0 σ' = bytes "[[" ∧
  ListBuilder.state (lists σ' !!! 0) = openedState.
Proof.
  cbv zeta.
  set (σ := exec (j ← NewListBuilder 0; ListBuilder_AddList j) empty_world).
  assert (child_pending (ListBuilderPtr 1) σ) as Hp by (right; reflexivity).
  split; [exact Hp|].
  destruct (X10_ListBuilder_reports_pending_child json_Marshal 0 LClose
              (ListBuilderPtr 1) σ) as (HE & Hrest);
    [vm_compute; lia|reflexivity|by vm_compute|reflexivity|exact Hp|
     reflexivity|].
  destruct (Hrest eq_refl) as (HS & _ & Hst).
  change (exec (ListBuilder_call json_Marshal 0 LClose) σ)
    with (exec (ListBuilder_Close 0) σ) in *.
  split_and!; [exact HE| |].
  - unfold output. rewrite HS. reflexivity.
  - rewrite Hst. reflexivity.
Defined.

(** ** The writers made by AddObject and AddList *)

(** X11.  The writer that [Builder.AddObject], [Builder.AddList] or
    [ListBuilder.AddList] returns is a freshly allocated struct in the
    start state, without a child, that writes to the parent's sink
    through the parent's encoder, and it is recorded as the parent's
    child; all this whatever the pre-add protocol returned.
    [ListBuilder.AddObject] does the same when the protocol succeeds,
    except that it records nothing. *)
Theorem X11_child_shares_sink_and_encoder
    (Marshal : value → list byte * option error) (b : nat) (σ : world) :
  (∀ key, b < nextB σ →
     let c := nextB σ in
     let σ' := exec (Builder_AddObject Marshal b key) σ in
     eval (Builder_AddObject Marshal b key) σ = Some c ∧
     nextB σ' = S c ∧
     Builder.w (builders σ' !!! c) = Builder.w (builders σ !!! b) ∧
     Builder.e (builders σ' !!! c) = Builder.e (builders σ !!! b) ∧
     Builder.state (builders σ' !!! c) = startState ∧
     Builder.subB (builders σ' !!! c) = None ∧
     Builder.subB (builders σ' !!! b) = Some (BuilderPtr c)) ∧
  (∀ key,
     let c := nextL σ in
     let σ' := exec (Builder_AddList Marshal b key) σ in
     eval (Builder_AddList Marshal b key) σ = Some c ∧
     nextL σ' = S c ∧
     ListBuilder.w (lists σ' !!! c) = Builder.w (builders σ !!! b) ∧
     ListBuilder.e (lists σ' !!! c) = Builder.e (builders σ !!! b) ∧
     ListBuilder.state (lists σ' !!! c) = startState ∧
     ListBuilder.subB (lists σ' !!! c) = None ∧
     Builder.subB (builders σ' !!! b) = Some (ListBuilderPtr c)) ∧
  (b < nextL σ →
     let c := nextL σ in
     let σ' := exec (ListBuilder_AddList b) σ in
     eval (ListBuilder_AddList b) σ = Some c ∧
     nextL σ' = S c ∧
     ListBuilder.w (lists σ' !!! c) = ListBuilder.w (lists σ !!! b) ∧
     ListBuilder.e (lists σ' !!! c) = ListBuilder.e (lists σ !!! b) ∧
     ListBuilder.state (lists σ' !!! c) = startState ∧
     ListBuilder.subB (lists σ' !!! c) = None ∧
     ListBuilder.subB (lists σ' !!! b) = Some (ListBuilderPtr c)) ∧
  (eval (ListBuilder_preadd b) σ = None →
     let c := nextB σ in
     let σ' := exec (ListBuilder_AddObject b) σ in
     eval (ListBuilder_AddObject b) σ = Some c ∧
     nextB σ' = S c ∧
     Builder.w (builders σ' !!! c) = ListBuilder.w (lists σ !!! b) ∧
     Builder.e (builders σ' !!! c) = ListBuilder.e (lists σ !!! b) ∧
     Builder.state (builders σ' !!! c) = startState ∧
     Builder.subB (builders σ' !!! c) = None ∧
     ListBuilder.subB (lists σ' !!! b) = None).
Proof.
  split_and!.
  - intros key Hb. cbv zeta.
    apply (wp_run _ (λ a σ', a = Some (nextB σ) ∧ nextB σ' = S (nextB σ) ∧
      Builder.w (builders σ' !!! nextB σ) = Builder.w (builders σ !!! b) ∧
      Builder.e (builders σ' !!! nextB σ) = Builder.e (builders σ !!! b) ∧
      Builder.state (builders σ' !!! nextB σ) = startState ∧
      Builder.subB (builders σ' !!! nextB σ) = None ∧
      Builder.subB (builders σ' !!! b) = Some (BuilderPtr (nextB σ)))).
    wp_upto_preadd. apply wp_call. intros err σ1 Hp.
    pose proof (Builder_frame_preadd Marshal b key σ)
      as (HnB & _ & _ & _ & Hw & He).
    rewrite (exec_of_run _ _ _ _ Hp) in HnB, Hw, He.
    rewrite <- Hw, <- He, <- HnB. wp_go; done.
  - intros key. cbv zeta.
    apply (wp_run _ (λ a σ', a = Some (nextL σ) ∧ nextL σ' = S (nextL σ) ∧
      ListBuilder.w (lists σ' !!! nextL σ) = Builder.w (builders σ !!! b) ∧
      ListBuilder.e (lists σ' !!! nextL σ) = Builder.e (builders σ !!! b) ∧
      ListBuilder.state (lists σ' !!! nextL σ) = startState ∧
      ListBuilder.subB (lists σ' !!! nextL σ) = None ∧
      Builder.subB (builders σ' !!! b) = Some (ListBuilderPtr (nextL σ)))).
    wp_upto_preadd. apply wp_call. intros err σ1 Hp.
    pose proof (Builder_frame_preadd Marshal b key σ)
      as (_ & HnL & _ & _ & Hw & He).
    rewrite (exec_of_run _ _ _ _ Hp) in HnL, Hw, He.
    rewrite <- Hw, <- He, <- HnL. wp_go; done.
  - intros Hb. cbv zeta.
    apply (wp_run _ (λ a σ', a = Some (nextL σ) ∧ nextL σ' = S (nextL σ) ∧
      ListBuilder.w (lists σ' !!! nextL σ) = ListBuilder.w (lists σ !!! b) ∧
      ListBuilder.e (lists σ' !!! nextL σ) = ListBuilder.e (lists σ !!! b) ∧
      ListBuilder.state (lists σ' !!! nextL σ) = startState ∧
      ListBuilder.subB (lists σ' !!! nextL σ) = None ∧
      ListBuilder.subB (lists σ' !!! b) = Some (ListBuilderPtr (nextL σ)))).
    wp_upto_preadd. apply wp_call. intros err σ1 Hp.
    pose proof (ListBuilder_frame_preadd b σ)
      as (_ & HnL & _ & _ & Hw & He).
    rewrite (exec_of_run _ _ _ _ Hp) in HnL, Hw, He.
    rewrite <- Hw, <- He, <- HnL. wp_go; done.
  - intros Hpe. cbv zeta.
    pose proof (ListBuilder_AddObject_records_nothing b σ Hpe) as Hn.
    cut (eval (ListBuilder_AddObject b) σ = Some (nextB σ) ∧
         nextB (exec (ListBuilder_AddObject b) σ) = S (nextB σ) ∧
         Builder.w (builders (exec (ListBuilder_AddObject b) σ) !!! nextB σ) =
           ListBuilder.w (lists σ !!! b) ∧
         Builder.e (builders (exec (ListBuilder_AddObject b) σ) !!! nextB σ) =
           ListBuilder.e (lists σ !!! b) ∧
         Builder.state (builders (exec (ListBuilder_AddObject b) σ)
                          !!! nextB σ) = startState ∧
         Builder.subB (builders (exec (ListBuilder_AddObject b) σ)
                         !!! nextB σ) = None).
    { intros (? & ? & ? & ? & ? & ?). by split_and!. }
    apply (wp_run _ (λ a σ', a = Some (nextB σ) ∧ nextB σ' = S (nextB σ) ∧
      Builder.w (builders σ' !!! nextB σ) = ListBuilder.w (lists σ !!! b) ∧
      Builder.e (builders σ' !!! nextB σ) = ListBuilder.e (lists σ !!! b) ∧
      Builder.state (builders σ' !!! nextB σ) = startState ∧
      Builder.subB (builders σ' !!! nextB σ) = None)).
    wp_upto_preadd. apply wp_call. intros err σ1 Hp.
    pose proof (ListBuilder_frame_preadd b σ)
      as (HnB & _ & _ & _ & Hw & He).
    rewrite (exec_of_run _ _ _ _ Hp) in HnB, Hw, He.
    rewrite (eval_of_run _ _ _ _ Hp) in Hpe. subst err.
    rewrite <- Hw, <- He, <- HnB. wp_go; done.
Qed.

Lemma X11_child_shares_sink_and_encoder_witness :
  let σ := exec (NewBuilder 0) empty_world in
  let σ' := exec (Builder_AddObject json_Marshal 0 "k") σ in
  0 < nextB σ ∧
  eval (Builder_AddObject json_Marshal 0 "k") σ = Some 1 ∧
  Builder.w (builders σ' !!! 1) = 0 ∧
  Builder.subB (builders σ' !!! 0) = Some (BuilderPtr 1).
Proof.
  cbv zeta.
  set (σ := exec (NewBuilder 0) empty_world).
  assert (0 < nextB σ) as Hb by (vm_compute; lia).
  destruct (proj1 (X11_child_shares_sink_and_encoder json_Marshal 0 σ) "k" Hb)
    as (He & _ & Hw & _ & _ & _ & Hs).
  split_and!; [exact Hb|exact He|exact Hw|exact Hs].
Defined.

(** ** The streaming encoder *)

Lemma last_snoc_byte (q : list byte) (c : byte) : last (q ++ [c]) = Some c.
Proof. by rewrite last_snoc. Qed.

Lemma eqb_newline_false (c : byte) : c ≠ newline → Byte.eqb c newline = false.
Proof.
  intros H. destruct (Byte.eqb c newline) eqn:E; [|done].
  by apply byte_dec_bl in E.
Qed.

Lemma io_Write_n_reliable (w : io_Writer) (x : list byte) (σ : world) :
  reliable w σ →
  let σ' := exec (io_Write_n w x) σ in
  eval (io_Write_n w x) σ = (List.length x, None) ∧
  output w σ' = output w σ ++ x ∧
  reliable w σ'.
Proof.
  unfold reliable, eval, exec, io_Write_n, io_Write, Sink_Write, output.
  intros ->. cbn. rewrite lookup_total_insert_eq. cbn.
  rewrite length_app. split_and!; [f_equal; lia|done..].
Qed.

Lemma trimTrailingNewlineWriter_Write_newline (w : io_Writer) (q : list byte)
    (σ : world) :
  trimTrailingNewlineWriter_Write w (q ++ [newline]) σ =
  (r ← io_Write_n w q; mret (Some r)) σ.
Proof.
  unfold trimTrailingNewlineWriter_Write.
  rewrite last_snoc_byte. change (Byte.eqb newline newline) with true.
  rewrite length_app. cbn [List.length].
  replace (List.length q + 1 - 1) with (List.length q) by lia.
  by rewrite take_app_length.
Qed.

(** X12.  [trimTrailingNewlineWriter.Write] panics on an empty slice and
    writes nothing.  On a slice that ends in a newline it hands the
    slice without that one newline to the underlying writer, and on any
    other slice the slice itself; the result is the underlying writer's.
    On a sink that accepts every write, a slice that ends in a newline is
    therefore answered with a count one short of its length and a nil
    error. *)
Theorem X12_trimTrailingNewlineWriter_Write (w : io_Writer) (σ : world) :
  trimTrailingNewlineWriter_Write w [] σ = (None, σ) ∧
  (∀ q, trimTrailingNewlineWriter_Write w (q ++ [newline]) σ =
        (r ← io_Write_n w q; mret (Some r)) σ) ∧
  (∀ q c, c ≠ newline →
        trimTrailingNewlineWriter_Write w (q ++ [c]) σ =
        (r ← io_Write_n w (q ++ [c]); mret (Some r)) σ) ∧
  (∀ q, reliable w σ →
        let p := q ++ [newline] in
        let σ' := exec (trimTrailingNewlineWriter_Write w p) σ in
        eval (trimTrailingNewlineWriter_Write w p) σ =
          Some (List.length p - 1, None) ∧
        output w σ' = output w σ ++ q).
Proof.
  split_and!.
  - done.
  - intros q. apply trimTrailingNewlineWriter_Write_newline.
  - intros q c Hc. unfold trimTrailingNewlineWriter_Write.
    by rewrite last_snoc_byte, eqb_newline_false.
  - intros q Hw. cbv zeta.
    destruct (io_Write_n_reliable w q σ Hw) as (He & Ho & _).
    unfold eval, exec in *.
    rewrite trimTrailingNewlineWriter_Write_newline, bind_run.
    rewrite length_app. cbn [List.length].
    replace (List.length q + 1 - 1) with (List.length q) by lia.
    destruct (io_Write_n w q σ) as [r σ1]. cbn [fst snd] in *.
    by subst r.
Qed.

Lemma X12_trimTrailingNewlineWriter_Write_witness :
  newline ≠ "a"%byte ∧ reliable 0 empty_world ∧
  eval (trimTrailingNewlineWriter_Write 0 (bytes "a" ++ [newline; newline]))
    empty_world = Some (2, None) ∧
  output 0 (exec (trimTrailingNewlineWriter_Write 0
                    (bytes "a" ++ [newline; newline])) empty_world) =
    bytes "a" ++ [newline] ∧
  output 0 (exec (trimTrailingNewlineWriter_Write 0 (bytes "ba"))
              empty_world) = bytes "ba".
Proof.
  assert (reliable 0 empty_world) as Hw by reflexivity.
  destruct (X12_trimTrailingNewlineWriter_Write 0 empty_world)
    as (_ & _ & H3 & H4).
  destruct (H4 (bytes "a" ++ [newline]) Hw) as (He & Ho).
  specialize (H3 (bytes "b") "a"%byte ltac:(done)).
  split_and!; [done|exact Hw|exact He|exact Ho|].
  change (bytes "ba") with (bytes "b" ++ ["a"%byte]).
  unfold exec. rewrite H3. reflexivity.
Defined.

(** X13.  [streamingEncoder.encode] against [basicEncoder.encode], both
    over the sink [w].  When the value marshals, a fresh streaming
    encoder puts on the sink what the basic encoder puts there (the
    newline that [Encode] adds is trimmed), returns the same error and
    never panics; a write error is kept in the encoder.  When the value
    does not marshal, the streaming encoder returns the marshal error,
    where the basic encoder returns nil; neither writes.  And an encoder
    that keeps an error returns it without marshalling or writing. *)
Theorem X13_streamingEncoder_encode
    (Marshal : value → list byte * option error) (w : io_Writer)
    (arg : value) (σ : world) :
  ((Marshal arg).2 = None →
   streamingEncoder_encode Marshal (newStreamingEncoder w) arg σ =
   (Some (eval (encode Marshal (basicEncoder w) arg) σ,
          mkEncoder w (eval (encode Marshal (basicEncoder w) arg) σ)),
    exec (encode Marshal (basicEncoder w) arg) σ)) ∧
  (∀ e, (Marshal arg).2 = Some e →
   streamingEncoder_encode Marshal (newStreamingEncoder w) arg σ =
     (Some (Some e, newStreamingEncoder w), σ) ∧
   encode Marshal (basicEncoder w) arg σ = (None, σ)) ∧
  (∀ e, streamingEncoder_encode Marshal (mkEncoder w (Some e)) arg σ =
        (Some (Some e, mkEncoder w (Some e)), σ)).
Proof.
  split_and!.
  - intros Hm. unfold streamingEncoder_encode, newStreamingEncoder, encode,
      eval, exec.
    cbn [enc_err enc_w]. destruct (Marshal arg) as [bs merr].
    cbn [snd] in Hm. subst merr.
    rewrite bind_run, trimTrailingNewlineWriter_Write_newline, bind_run.
    unfold io_Write_n.
    destruct (io_Write w bs σ) as [[err|] σ1]; done.
  - intros e Hm. unfold streamingEncoder_encode, newStreamingEncoder, encode.
    cbn [enc_err enc_w]. destruct (Marshal arg) as [bs merr].
    cbn [snd] in Hm. subst merr. done.
  - done.
Qed.

Lemma X13_streamingEncoder_encode_witness :
  (json_Marshal (VInt 5)).2 = None ∧
  (json_Marshal VChan).2 ≠ None ∧
  output 0 (exec (streamingEncoder_encode json_Marshal (newStreamingEncoder 0)
                    (VInt 5)) empty_world) = bytes "5" ∧
  (∃ e, eval (streamingEncoder_encode json_Marshal (newStreamingEncoder 0)
                VChan) empty_world = Some (Some e, newStreamingEncoder 0)) ∧
  eval (encode json_Marshal (basicEncoder 0) VChan) empty_world = None.
Proof.
  assert ((json_Marshal (VInt 5)).2 = None) as H5 by reflexivity.
  destruct (X13_streamingEncoder_encode json_Marshal 0 (VInt 5) empty_world)
    as (H1 & _).
  destruct (X13_streamingEncoder_encode json_Marshal 0 VChan empty_world)
    as (_ & H2 & _).
  split_and!; [exact H5|by vm_compute| | |].
  - unfold exec. rewrite (H1 H5). reflexivity.
  - destruct (json_Marshal VChan) as [bs [e|]] eqn:E; [|by vm_compute in E].
    exists e. unfold eval. by rewrite (proj1 (H2 e eq_refl)).
  - destruct (json_Marshal VChan) as [bs [e|]] eqn:E; [|by vm_compute in E].
    unfold eval. by rewrite (proj2 (H2 e eq_refl)).
Defined.

(** ** Laws of AddAll, frames and constructors *)

Lemma ListBuilder_AddAll_cons Marshal (b : nat) (v : value)
    (vs : list value) (σ : world) :
  ListBuilder.Err (lists σ !!! b) = None →
  exec (ListBuilder_AddAll Marshal b (v :: vs)) σ =
  exec (ListBuilder_AddAll Marshal b vs) (exec (ListBuilder_Add Marshal b v) σ).
Proof.
  intros HE. cbn [ListBuilder_AddAll]. rewrite exec_bind.
  unfold getL at 1 2. cbn [eval exec fst snd]. rewrite HE.
  by rewrite exec_bind.
Qed.

Lemma ListBuilder_AddAll_app Marshal (b : nat) (xs ys : list value)
    (σ : world) :
  exec (ListBuilder_AddAll Marshal b (xs ++ ys)) σ =
  exec (ListBuilder_AddAll Marshal b ys)
    (exec (ListBuilder_AddAll Marshal b xs) σ).
Proof.
  revert σ. induction xs as [|v xs IH]; intros σ; [done|].
  cbn [app].
  destruct (ListBuilder.Err (lists σ !!! b)) as [e|] eqn:E.
  - rewrite !(ListBuilder_AddAll_stuck _ _ (_ :: _) σ) by (by rewrite E).
    rewrite ListBuilder_AddAll_stuck; [done|]. by rewrite E.
  - rewrite !ListBuilder_AddAll_cons by done. apply IH.
Qed.

(** X14.  [ListBuilder.AddAll] composes: on [xs ++ ys] it does what
    [AddAll] on [xs] followed by [AddAll] on [ys] does, whatever the
    state of the writer and of the sink.  It is the run of [Add] calls
    that stops at the first call that leaves an error: with no error at
    the start it adds the first value and goes on with the rest, and
    with an error in [Err] it does nothing at all. *)
Theorem X14_ListBuilder_AddAll_composes
    (Marshal : value → list byte * option error) (b : nat) (σ : world) :
  (∀ xs ys,
     exec (ListBuilder_AddAll Marshal b (xs ++ ys)) σ =
     exec (ListBuilder_AddAll Marshal b xs;;
           ListBuilder_AddAll Marshal b ys) σ) ∧
  (∀ v vs, ListBuilder.Err (lists σ !!! b) = None →
     exec (ListBuilder_AddAll Marshal b (v :: vs)) σ =
     exec (ListBuilder_Add Marshal b v;; ListBuilder_AddAll Marshal b vs) σ) ∧
  (∀ vs, ListBuilder.Err (lists σ !!! b) ≠ None →
     exec (ListBuilder_AddAll Marshal b vs) σ = σ).
Proof.
  split_and!.
  - intros xs ys. rewrite exec_bind. apply ListBuilder_AddAll_app.
  - intros v vs HE. rewrite exec_bind. by apply ListBuilder_AddAll_cons.
  - intros vs HE. by apply ListBuilder_AddAll_stuck.
Qed.

Lemma X14_ListBuilder_AddAll_composes_witness :
  let σ := exec (NewListBuilder 0) empty_world in
  ListBuilder.Err (lists σ !!! 0) = None ∧
  output 0 (exec (ListBuilder_AddAll json_Marshal 0 [VInt 1; VInt 2]) σ) =
  output 0 (exec (ListBuilder_Add json_Marshal 0 (VInt 1);;
                  ListBuilder_AddAll json_Marshal 0 [VInt 2]) σ).
Proof.
  cbv zeta.
  assert (ListBuilder.Err (lists (exec (NewListBuilder 0) empty_world) !!! 0)
          = None) as HE by reflexivity.
  split; [exact HE|].
  by rewrite (proj1 (proj2 (X14_ListBuilder_AddAll_composes json_Marshal 0 _))
                (VInt 1) [VInt 2] HE).
Defined.

Lemma Builder_frame_AddAll_loop Marshal (b : nat) (args : list value) :
  ∀ i, framed (Builder_frame b) (Builder_AddAll_loop Marshal b i args).
Proof.
  assert (∀ n args, List.length args ≤ n →
            ∀ i, framed (Builder_frame b)
                   (Builder_AddAll_loop Marshal b i args)) as H.
  { clear args. induction n as [|n IH]; intros args Hn i σ.
    - destruct args; [apply reflexivity|cbn in Hn; lia].
    - destruct args as [|k [|v rest]]; [apply reflexivity..|].
      cbn [Builder_AddAll_loop]. rewrite exec_bind.
      unfold getB at 1 2. cbn [eval exec fst snd].
      destruct (Builder.Err (builders σ !!! b)); [apply reflexivity|].
      destruct k as [key| | |].
      1:{ rewrite exec_bind. etrans; [apply Builder_frame_Add|].
          apply IH. cbn [List.length] in Hn. lia. }
      all: apply Builder_frame_modB; intros []; done. }
  by apply (H (List.length args)).
Qed.

Lemma ListBuilder_frame_AddAll Marshal (b : nat) (args : list value) :
  framed (ListBuilder_frame b) (ListBuilder_AddAll Marshal b args).
Proof.
  induction args as [|v rest IH]; intros σ; [apply reflexivity|].
  cbn [ListBuilder_AddAll]. rewrite exec_bind.
  unfold getL at 1 2. cbn [eval exec fst snd].
  destruct (ListBuilder.Err (lists σ !!! b)); [apply reflexivity|].
  rewrite exec_bind. etrans; [apply ListBuilder_frame_Add|apply IH].
Qed.

(** X15.  [Add], [AddAll] and [Close] of a writer allocate nothing and
    leave every other [Builder] and [ListBuilder] struct as it was, the
    recorded child included, which they only read; the writer keeps its
    sink and its encoder. *)
Theorem X15_plain_operations_frame
    (Marshal : value → list byte * option error) (b : nat) (σ : world) :
  (∀ key v, Builder_frame b σ (exec (Builder_Add Marshal b key v) σ)) ∧
  (∀ args, Builder_frame b σ (exec (Builder_AddAll Marshal b args) σ)) ∧
  Builder_frame b σ (exec (Builder_Close b) σ) ∧
  (∀ v, ListBuilder_frame b σ (exec (ListBuilder_Add Marshal b v) σ)) ∧
  (∀ args,
     ListBuilder_frame b σ (exec (ListBuilder_AddAll Marshal b args) σ)) ∧
  ListBuilder_frame b σ (exec (ListBuilder_Close b) σ).
Proof.
  split_and!.
  - intros key v. apply Builder_frame_Add.
  - intros args. unfold Builder_AddAll. destruct (negb _).
    + apply Builder_frame_modB. intros []; done.
    + apply Builder_frame_AddAll_loop.
  - apply Builder_frame_Close.
  - intros v. apply ListBuilder_frame_Add.
  - intros args. apply ListBuilder_frame_AddAll.
  - apply ListBuilder_frame_Close.
Qed.

(** X16.  [init] on a struct that is not in the start state records the
    init'd-after-being-mutated error and then writes nothing.  The
    constructors never meet that case: [NewBuilder] and [NewListBuilder]
    always return a fresh writer in the start state, without a child,
    over the given sink, whose [Err] is what the sink answered to the
    opening delimiter: nil when it was accepted, the sink's error
    otherwise. *)
Theorem X16_init_and_constructors (σ : world) :
  (∀ b, Builder.state (builders σ !!! b) ≠ startState →
     let σ' := exec (Builder_init b) σ in
     Builder.Err (builders σ' !!! b) =
       Some (errors_New "Builder init'd after being mutated") ∧
     sinks σ' = sinks σ) ∧
  (∀ b, ListBuilder.state (lists σ !!! b) ≠ startState →
     let σ' := exec (ListBuilder_init b) σ in
     ListBuilder.Err (lists σ' !!! b) =
       Some (errors_New "ListBuilder init'd after being mutated") ∧
     sinks σ' = sinks σ) ∧
  (∀ w,
     let r := Sink_Write (sinks σ !!! w) openBraceBytes in
     let σ' := exec (NewBuilder w) σ in
     eval (NewBuilder w) σ = nextB σ ∧
     builders σ' !!! nextB σ =
       Builder.mk startState w (basicEncoder w) None r.2 ∧
     sinks σ' !!! w = r.1 ∧
     (∀ w', w' ≠ w → sinks σ' !!! w' = sinks σ !!! w')) ∧
  (∀ w,
     let r := Sink_Write (sinks σ !!! w) openBracketBytes in
     let σ' := exec (NewListBuilder w) σ in
     eval (NewListBuilder w) σ = nextL σ ∧
     lists σ' !!! nextL σ =
       ListBuilder.mk startState w (basicEncoder w) None r.2 ∧
     sinks σ' !!! w = r.1 ∧
     (∀ w', w' ≠ w → sinks σ' !!! w' = sinks σ !!! w')).
Proof.
  split_and!.
  - intros b Hst. cbv zeta.
    apply (wp_run _ (λ _ σ', Builder.Err (builders σ' !!! b) = _ ∧
                             sinks σ' = sinks σ)).
    assert ((Builder.state (builders σ !!! b) =? startState)%Z = false) as E
      by (by apply Z.eqb_neq).
    unfold Builder_init. wp_go. done.
  - intros b Hst. cbv zeta.
    apply (wp_run _ (λ _ σ', ListBuilder.Err (lists σ' !!! b) = _ ∧
                             sinks σ' = sinks σ)).
    assert ((ListBuilder.state (lists σ !!! b) =? startState)%Z = false) as E
      by (by apply Z.eqb_neq).
    unfold ListBuilder_init. wp_go. done.
  - intros w. cbv zeta.
    apply (wp_run _ (λ a σ', a = nextB σ ∧
      builders σ' !!! nextB σ = Builder.mk startState w (basicEncoder w) None
        (Sink_Write (sinks σ !!! w) openBraceBytes).2 ∧
      sinks σ' !!! w = (Sink_Write (sinks σ !!! w) openBraceBytes).1 ∧
      (∀ w', w' ≠ w → sinks σ' !!! w' = sinks σ !!! w'))).
    unfold NewBuilder. wp_go. split_and!; try done.
    intros w' Hw'. by rewrite lookup_total_insert_ne.
  - intros w. cbv zeta.
    apply (wp_run _ (λ a σ', a = nextL σ ∧
      lists σ' !!! nextL σ = ListBuilder.mk startState w (basicEncoder w) None
        (Sink_Write (sinks σ !!! w) openBracketBytes).2 ∧
      sinks σ' !!! w = (Sink_Write (sinks σ !!! w) openBracketBytes).1 ∧
      (∀ w', w' ≠ w → sinks σ' !!! w' = sinks σ !!! w'))).
    unfold NewListBuilder. wp_go. split_and!; try done.
    intros w' Hw'. by rewrite lookup_total_insert_ne.
Qed.

Lemma X16_init_and_constructors_witness :
  let σ := exec (j ← NewBuilder 0; Builder_Add json_Marshal j "a" (VInt 1))
             empty_world in
  let σ' := exec (Builder_init 0) σ in
  Builder.state (builders σ !!! 0) ≠ startState ∧
  Builder.Err (builders σ' !!! 0) =
    Some (errors_New "Builder init'd after being mutated") ∧
  output 0 σ' = output 0 σ ∧
  Builder.Err (builders (exec (NewBuilder 0)
                 (scripted_world [WriteFail 0 (foreign_error 1)])) !!! 0) =
    Some (foreign_error 1).
Proof.
  cbv zeta.
  set (σ := exec (j ← NewBuilder 0; Builder_Add json_Marshal j "a" (VInt 1))
              empty_world).
  assert (Builder.state (builders σ !!! 0) ≠ startState) as Hst
    by (by vm_compute).
  destruct (proj1 (X16_init_and_constructors σ) 0 Hst) as (HE & HS).
  destruct (proj1 (proj2 (proj2 (X16_init_and_constructors
              (scripted_world [WriteFail 0 (foreign_error 1)])))) 0)
    as (_ & HB & _).
  split_and!; [exact Hst|exact HE|unfold output; by rewrite HS|].
  exact (f_equal Builder.Err HB).
Defined.

(** ** The benchmark *)

Lemma BenchmarkBuilder_adds_members (j : nat) (k : nat) :
  ∀ i, BenchmarkBuilder_adds j i k =
       build_members json_Marshal j (bench_members i k).
Proof.
  induction k as [|k IH]; intros i; [done|].
  cbn [BenchmarkBuilder_adds]. rewrite IH. done.
Qed.

Lemma bench_members_ok (i k : nat) :
  Forall (λ km, marshals json_Marshal (VString km.1) ∧
                node_ok json_Marshal km.2) (bench_members i k).
Proof.
  unfold bench_members. apply Forall_map, Forall_forall. intros n _. done.
Qed.

Lemma BenchmarkBuilder_round (buf : io_Writer) (benchLoad : nat) (σ : world) :
  reliable buf σ →
  let j := eval (NewBuilder buf) σ in
  let σ' := exec (j ← NewBuilder buf;
                  BenchmarkBuilder_adds j 0 benchLoad;;
                  Builder_Close j) σ in
  j = nextB σ ∧
  output buf σ' = output buf σ ++ openBraceBytes ++
    join_comma (map (render_member json_Marshal) (bench_members 0 benchLoad)) ++
    closeBraceBytes ∧
  Builder.Err (builders σ' !!! j) = None ∧
  reliable buf σ'.
Proof.
  intros Hw. cbv zeta.
  destruct (NewBuilder_reliable buf σ Hw) as (Hj & HB & HS & Hn).
  rewrite exec_bind, exec_bind, BenchmarkBuilder_adds_members.
  set (j := eval (NewBuilder buf) σ) in *.
  set (σ1 := exec (NewBuilder buf) σ) in *.
  destruct (build_members_spec json_Marshal (bench_members 0 benchLoad)
              ltac:(apply Forall_forall; intros; apply node_spec)
              j buf startState None _ σ1 ltac:(lia) HB ltac:(by left) I HS
              (bench_members_ok 0 benchLoad))
    as ((sub' & HB2 & Hf2) & HS2 & _).
  destruct (Builder_Close_fine j _ _ _ _ _ _ HB2
              ltac:(apply state_after_open; by left) Hf2 HS2)
    as (HB3 & HS3 & _).
  split_and!; [done| | |].
  - unfold output at 1. rewrite HS3. cbn [written].
    rewrite members_text_start, <- !app_assoc. done.
  - by rewrite HB3.
  - unfold reliable. by rewrite HS3.
Qed.

(** X17.  [BenchmarkBuilder] never reaches [b.Fatal]: whatever the load
    and the number of rounds, on a buffer every round ends with a nil
    [Err]; and a round puts on the buffer the object of the numbers below
    the load, each under its decimal name, in increasing order. *)
Theorem X17_BenchmarkBuilder_never_fatal (buf : io_Writer)
    (benchLoad N : nat) (σ : world) :
  reliable buf σ →
  eval (BenchmarkBuilder buf benchLoad N) σ = None ∧
  output buf (exec (j ← NewBuilder buf;
                    BenchmarkBuilder_adds j 0 benchLoad;;
                    Builder_Close j) σ) =
    output buf σ ++ openBraceBytes ++
    join_comma (map (λ n, marshal_string (strconv_Itoa n) ++ colonBytes ++
                          bytes (strconv_Itoa n)) (seq 0 benchLoad)) ++
    closeBraceBytes.
Proof.
  intros Hw. split.
  - revert σ Hw. induction N as [|N IH]; intros σ Hw; [done|].
    destruct (BenchmarkBuilder_round buf benchLoad σ Hw)
      as (Hj & _ & HE & Hw').
    cbn [BenchmarkBuilder]. rewrite !exec_bind in HE, Hw'.
    rewrite !eval_bind. unfold getB at 1 2. cbn [eval exec fst snd].
    cbn [eval exec fst snd] in HE. rewrite HE. rewrite eval_bind.
    apply IH. unfold reliable, exec, bytes_Buffer_Reset. cbn.
    rewrite lookup_total_insert_eq. exact Hw'.
  - destruct (BenchmarkBuilder_round buf benchLoad σ Hw) as (_ & Ho & _).
    rewrite Ho. unfold bench_members. rewrite map_map. done.
Qed.

Lemma X17_BenchmarkBuilder_never_fatal_witness :
  reliable 0 empty_world ∧
  eval (BenchmarkBuilder 0 3 2) empty_world = None ∧
  output 0 (exec (j ← NewBuilder 0;
                  BenchmarkBuilder_adds j 0 3;;
                  Builder_Close j) empty_world) =
  bytes "{" ++ marshal_string "0" ++ bytes ":0," ++ marshal_string "1" ++
  bytes ":1," ++ marshal_string "2" ++ bytes ":2}".
Proof.
  assert (reliable 0 empty_world) as Hw by reflexivity.
  destruct (X17_BenchmarkBuilder_never_fatal 0 3 2 empty_world Hw)
    as (He & Ho).
  split_and!; [exact Hw|exact He|].
  rewrite Ho. vm_compute. reflexivity.
Defined.

(** ** Runs that end without error and are not documents *)

(** C4.  A run of [Add] calls ending in [Close] can leave [Err] nil at
    every step and yet not write the compact document.  When the sink
    refuses the comma before the second entry, [preadd] records the
    sink's error and then overwrites it with the result of encoding the
    key, nil; the entry is written without its comma, [Close] succeeds,
    and the sink holds the two entries with no comma between them.  And
    when a value does not marshal, [encode] returns nil and writes
    nothing, so the sink holds a key with no value. *)
Theorem C4_error_free_run_not_compact :
  (let σ0 := scripted_world [WriteOk; WriteOk; WriteOk; WriteOk;
                             WriteFail 0 (foreign_error 1)] in
   let σ1 := exec (j ← NewBuilder 0; Builder_Add json_Marshal j "a" (VInt 1))
               σ0 in
   let σc := exec (Builder_write 0 commaBytes) σ1 in
   let σ2 := exec (Builder_Add json_Marshal 0 "b" (VInt 2)) σ1 in
   let σ3 := exec (Builder_Close 0) σ2 in
   Builder.Err (builders σ1 !!! 0) = None ∧
   Builder.Err (builders σc !!! 0) = Some (foreign_error 1) ∧
   Builder.Err (builders σ2 !!! 0) = None ∧
   Builder.Err (builders σ3 !!! 0) = None ∧
   Builder.state (builders σ3 !!! 0) = closedState ∧
   output 0 σ3 = bytes "{" ++ marshal_string "a" ++ bytes ":1" ++
                 marshal_string "b" ++ bytes ":2}" ∧
   output 0 σ3 ≠ openBraceBytes ++
                 join_comma (map (entry_bytes json_Marshal)
                               [("a", VInt 1); ("b", VInt 2)]) ++
                 closeBraceBytes) ∧
  (let σ1 := exec (j ← NewBuilder 0; Builder_Add json_Marshal j "foo" VChan)
               empty_world in
   let σ2 := exec (Builder_Add json_Marshal 0 "x" (VInt 1)) σ1 in
   let σ3 := exec (Builder_Close 0) σ2 in
   Builder.Err (builders σ1 !!! 0) = None ∧
   Builder.Err (builders σ2 !!! 0) = None ∧
   Builder.Err (builders σ3 !!! 0) = None ∧
   Builder.state (builders σ3 !!! 0) = closedState ∧
   output 0 σ3 = bytes "{" ++ marshal_string "foo" ++ bytes ":," ++
                 marshal_string "x" ++ bytes ":1}").
Proof. vm_compute. split_and!; done. Qed.

(** C7.  A builder function that returns nil and leaves a child of its
    own open: [AddObjectFunc] and [AddListFunc] read the child writer's
    [Err] before they call its [Close], so the unclosed-child error that
    this [Close] records stays with the child.  The parent's [Err] is
    nil, also after its own [Close]; the child is not closed; and the
    sink holds a document that is cut short.  So for all four
    methods. *)
Theorem C7_error_of_Close_lost :
  let f : BuilderFunc := λ w, Builder_AddObject json_Marshal w "x";; mret None in
  let g : ListBuilderFunc := λ w, ListBuilder_AddList w;; mret None in
  let unclosed := Some (errors_New "A sub-Builder was not closed") in
  (let σ := exec (j ← NewBuilder 0;
                  Builder_AddObjectFunc json_Marshal j "foo" f;;
                  Builder_Close j) empty_world in
   Builder.Err (builders σ !!! 0) = None ∧
   Builder.state (builders σ !!! 0) = closedState ∧
   Builder.Err (builders σ !!! 1) = unclosed ∧
   Builder.state (builders σ !!! 1) ≠ closedState ∧
   output 0 σ = bytes "{" ++ marshal_string "foo" ++ bytes ":{" ++
                marshal_string "x" ++ bytes ":{}") ∧
  (let σ := exec (j ← NewBuilder 0;
                  Builder_AddListFunc json_Marshal j "foo" g;;
                  Builder_Close j) empty_world in
   Builder.Err (builders σ !!! 0) = None ∧
   Builder.state (builders σ !!! 0) = closedState ∧
   ListBuilder.Err (lists σ !!! 0) = unclosed ∧
   ListBuilder.state (lists σ !!! 0) ≠ closedState ∧
   output 0 σ = bytes "{" ++ marshal_string "foo" ++ bytes ":[[}") ∧
  (let σ := exec (j ← NewListBuilder 0;
                  ListBuilder_AddObjectFunc j f;;
                  ListBuilder_Close j) empty_world in
   ListBuilder.Err (lists σ !!! 0) = None ∧
   ListBuilder.state (lists σ !!! 0) = closedState ∧
   Builder.Err (builders σ !!! 0) = unclosed ∧
   Builder.state (builders σ !!! 0) ≠ closedState ∧
   output 0 σ = bytes "[{" ++ marshal_string "x" ++ bytes ":{]") ∧
  (let σ := exec (j ← NewListBuilder 0;
                  ListBuilder_AddListFunc j g;;
                  ListBuilder_Close j) empty_world in
   ListBuilder.Err (lists σ !!! 0) = None ∧
   ListBuilder.state (lists σ !!! 0) = closedState ∧
   ListBuilder.Err (lists σ !!! 1) = unclosed ∧
   ListBuilder.state (lists σ !!! 1) ≠ closedState ∧
   output 0 σ = bytes "[[[]").
Proof. vm_compute. split_and!; done. Qed.

(** ** AddAll and the Add calls it makes *)

Lemma build_members_values Marshal (b : nat) (kvs : list (string * value)) :
  build_members Marshal b (map (λ kv, (kv.1, NValue kv.2)) kvs) =
  Builder_adds Marshal b kvs.
Proof.
  induction kvs as [|[key v] kvs IH]; [done|].
  cbn [map build_members Builder_adds fst snd build_member]. by rewrite IH.
Qed.

Lemma Builder_AddAll_loop_step Marshal (b i : nat) (key : string) (v : value)
    (rest : list value) (σ : world) :
  exec (Builder_AddAll_loop Marshal b i (VString key :: v :: rest)) σ =
  if Builder.Err (builders σ !!! b) is None
  then exec (Builder_Add Marshal b key v;;
             Builder_AddAll_loop Marshal b (i + 2) rest) σ
  else σ.
Proof.
  destruct (Builder.Err (builders σ !!! b)) as [e|] eqn:E.
  - apply Builder_AddAll_loop_stuck. by rewrite E.
  - rewrite exec_bind. by apply Builder_AddAll_loop_cons.
Qed.

Lemma Builder_AddAll_pairs_then_bad_key Marshal (b : nat) (w : io_Writer)
    (pre : list (string * value)) (k v : value) (rest : list value)
    (σ : world) :
  Builder_ready b w σ →
  Forall (λ kv, marshals Marshal (VString kv.1) ∧ marshals Marshal kv.2)
    pre →
  is_string k = false →
  List.length rest mod 2 = 0 →
  let err := Some (fmt_Errorf_not_string (2 * List.length pre) k) in
  let σ' := exec (Builder_AddAll Marshal b (flat_pairs pre ++ k :: v :: rest))
              σ in
  σ' = exec (Builder_adds Marshal b pre;; modB b (Builder.set_Err err)) σ ∧
  Builder.Err (builders σ' !!! b) = err ∧
  output w σ' = output w σ ++
    members_text (Builder.state (builders σ !!! b))
      (map (entry_bytes Marshal) pre).
Proof.
  intros Hr Hm Hk Hrest. cbv zeta.
  pose proof Hr as (Hb & Hw & st & sub & HB & Hst & Hfine).
  assert (exec (Builder_AddAll Marshal b (flat_pairs pre)) σ =
          exec (Builder_adds Marshal b pre) σ) as Hpre.
  { rewrite Builder_AddAll_even
      by (rewrite flat_pairs_length, Nat.mul_comm; apply Nat.Div0.mod_mul).
    rewrite (Builder_AddAll_loop_members Marshal b w pre Hm 0 σ Hr).
    by rewrite build_members_values. }
  destruct (build_members_spec Marshal
              (map (λ kv, (kv.1, NValue kv.2)) pre)
              ltac:(apply Forall_forall; intros; apply node_spec)
              b w st sub _ σ Hb HB Hst Hfine (reliable_sink _ _ Hw))
    as ((sub' & HB' & _) & HS' & _).
  { apply Forall_map. eapply Forall_impl; [exact Hm|]. by intros [??]. }
  rewrite build_members_values in HB', HS'.
  rewrite map_map in HS'.
  rewrite (Builder_AddAll_bad_key Marshal b pre k v rest σ Hk Hrest).
  rewrite Hpre, HB'. cbn [Builder.Err]. rewrite exec_bind.
  split_and!; [done| |].
  - unfold exec, modB. cbn. by rewrite lookup_total_insert_eq.
  - unfold output. unfold exec at 1, modB. cbn [snd sinks].
    rewrite HS', HB. done.
Qed.

(** C8.  [Builder.AddAll] with an odd number of arguments records the
    usage error and leaves every sink as it was.  With an even number
    its loop takes the arguments two at a time: while [Err] is nil, a
    string key and the value after it are given to [Add], and the loop
    goes on behind them; once [Err] is not nil nothing more is
    processed.  With a value that is not a string in a key position,
    after a run of pairs, it does what [AddAll] on those pairs alone
    does and then, if the writer is still without error, records the
    usage error naming the position.  On a writer that takes the next
    member, with pairs that marshal, that is: the [Add] calls of the
    pairs before the position, whose entries are on the sink, and then
    the usage error; nothing from the position on is written. *)
Theorem C8_AddAll_usage_errors (Marshal : value → list byte * option error)
    (b : nat) (σ : world) :
  (∀ args, List.length args mod 2 ≠ 0 →
     let σ' := exec (Builder_AddAll Marshal b args) σ in
     sinks σ' = sinks σ ∧
     Builder.Err (builders σ' !!! b) =
       Some (errors_New "AddAll takes an even number of args")) ∧
  (∀ args, List.length args mod 2 = 0 →
     exec (Builder_AddAll Marshal b args) σ =
     exec (Builder_AddAll_loop Marshal b 0 args) σ) ∧
  (∀ i key v rest,
     exec (Builder_AddAll_loop Marshal b i (VString key :: v :: rest)) σ =
     if Builder.Err (builders σ !!! b) is None
     then exec (Builder_Add Marshal b key v;;
                Builder_AddAll_loop Marshal b (i + 2) rest) σ
     else σ) ∧
  (∀ pre k v rest, is_string k = false → List.length rest mod 2 = 0 →
     let σ1 := exec (Builder_AddAll Marshal b (flat_pairs pre)) σ in
     exec (Builder_AddAll Marshal b (flat_pairs pre ++ k :: v :: rest)) σ =
     if Builder.Err (builders σ1 !!! b) is None
     then exec (modB b (Builder.set_Err
                  (Some (fmt_Errorf_not_string (2 * List.length pre) k)))) σ1
     else σ1) ∧
  (∀ pre rest, List.length rest mod 2 = 0 →
     let σ1 := exec (Builder_AddAll Marshal b (flat_pairs pre)) σ in
     Builder.Err (builders σ1 !!! b) ≠ None →
     exec (Builder_AddAll Marshal b (flat_pairs pre ++ rest)) σ = σ1) ∧
  (∀ w pre k v rest,
     Builder_ready b w σ →
     Forall (λ kv, marshals Marshal (VString kv.1) ∧ marshals Marshal kv.2)
       pre →
     is_string k = false → List.length rest mod 2 = 0 →
     let err := Some (fmt_Errorf_not_string (2 * List.length pre) k) in
     let σ' := exec (Builder_AddAll Marshal b
                       (flat_pairs pre ++ k :: v :: rest)) σ in
     σ' = exec (Builder_adds Marshal b pre;; modB b (Builder.set_Err err)) σ ∧
     Builder.Err (builders σ' !!! b) = err ∧
     output w σ' = output w σ ++
       members_text (Builder.state (builders σ !!! b))
         (map (entry_bytes Marshal) pre)).
Proof.
  split_and!.
  - intros args. apply Builder_AddAll_odd.
  - intros args. apply Builder_AddAll_even.
  - intros i key v rest. apply Builder_AddAll_loop_step.
  - intros pre k v rest. apply Builder_AddAll_bad_key.
  - intros pre rest. apply Builder_AddAll_stops.
  - intros w pre k v rest. apply Builder_AddAll_pairs_then_bad_key.
Qed.

Lemma C8_AddAll_usage_errors_witness :
  let σ := exec (NewBuilder 0) empty_world in
  let σ' := exec (Builder_AddAll json_Marshal 0
                    [VString "a"; VInt 1; VInt 2; VInt 3]) σ in
  Builder_ready 0 0 σ ∧
  Builder.Err (builders
    (exec (Builder_AddAll json_Marshal 0 [VString "k"]) σ) !!! 0) =
    Some (errors_New "AddAll takes an even number of args") ∧
  σ' = exec (Builder_Add json_Marshal 0 "a" (VInt 1);;
             modB 0 (Builder.set_Err
                       (Some (fmt_Errorf_not_string 2 (VInt 2))))) σ ∧
  Builder.Err (builders σ' !!! 0) =
    Some (fmt_Errorf_not_string 2 (VInt 2)) ∧
  output 0 σ' = bytes "{" ++ marshal_string "a" ++ bytes ":1".
Proof.
  cbv zeta.
  set (σ := exec (NewBuilder 0) empty_world).
  assert (Builder_ready 0 0 σ) as Hr.
  { split_and!; [vm_compute; lia|reflexivity|].
    exists startState, None. split_and!; [reflexivity|by left|done]. }
  destruct (C8_AddAll_usage_errors json_Marshal 0 σ)
    as (Hodd & _ & _ & _ & _ & Hbad).
  destruct (Hbad 0 [("a", VInt 1)] (VInt 2) (VInt 3) [] Hr
              ltac:(repeat constructor) eq_refl eq_refl)
    as (Hrun & HE & Hout).
  split_and!; [exact Hr| |exact Hrun|exact HE|].
  - apply (Hodd [VString "k"]). done.
  - change (flat_pairs [("a", VInt 1)] ++ [VInt 2; VInt 3])
      with [VString "a"; VInt 1; VInt 2; VInt 3] in Hout.
    rewrite Hout. vm_compute. reflexivity.
Defined.

(** ** Closed writers, in full *)

Lemma sinks_io_Write (w : io_Writer) (x : list byte) (σ : world) :
  sinks (exec (io_Write w x) σ) =
  <[w := (Sink_Write (sinks σ !!! w) x).1]> (sinks σ).
Proof. unfold exec, io_Write. by destruct (Sink_Write _ _). Qed.

Lemma eval_io_Write (w : io_Writer) (x : list byte) (σ : world) :
  eval (io_Write w x) σ = (Sink_Write (sinks σ !!! w) x).2.
Proof. unfold eval, io_Write. by destruct (Sink_Write _ _). Qed.

(** On a closed [Builder] the loop of [AddAll] does nothing, or records
    one error. *)
Lemma Builder_AddAll_loop_on_closed Marshal (b : nat) (args : list value)
    (i : nat) (σ : world) :
  Builder.state (builders σ !!! b) = closedState →
  exec (Builder_AddAll_loop Marshal b i args) σ = σ ∨
  ∃ e, exec (Builder_AddAll_loop Marshal b i args) σ =
       exec (modB b (Builder.set_Err (Some e))) σ.
Proof.
  intros H. destruct args as [|k [|v rest]]; [by left..|].
  destruct (Builder.Err (builders σ !!! b)) eqn:E.
  { left. apply Builder_AddAll_loop_stuck. by rewrite E. }
  right. destruct k as [key| | |].
  1:{ eexists. rewrite Builder_AddAll_loop_cons, Builder_Add_closed by done.
      apply Builder_AddAll_loop_stuck.
      unfold exec, modB. cbn. by rewrite lookup_total_insert_eq. }
  all: eexists; cbn [Builder_AddAll_loop]; rewrite exec_bind;
    unfold getB at 1 2; cbn [eval exec fst snd]; rewrite E; reflexivity.
Qed.

Lemma Builder_call_on_closed Marshal (b : nat) (op : BuilderOp) (σ : world) :
  b < nextB σ →
  Builder.state (builders σ !!! b) = closedState →
  let σ' := exec (Builder_call Marshal b op) σ in
  b < nextB σ' ∧
  sinks σ' =
    if child_delimiter_B op is Some x
    then sinks (exec (io_Write (Builder.w (builders σ !!! b)) x) σ)
    else sinks σ.
Proof.
  intros Hb H. cbv zeta.
  assert (∀ e, let σ' := exec (modB b (Builder.set_Err e)) σ in
               b < nextB σ' ∧ sinks σ' = sinks σ) as Hmod by done.
  destruct op as [key v|args|key|key|key f|key f|];
    cbn [Builder_call child_delimiter_B].
  - rewrite Builder_Add_closed by done. apply Hmod.
  - unfold Builder_AddAll. destruct (negb _); [apply Hmod|].
    destruct (Builder_AddAll_loop_on_closed Marshal b args 0 σ H)
      as [->|[e ->]]; [done|apply Hmod].
  - rewrite sinks_io_Write.
    apply (wp_run _ (λ _ σ', b < nextB σ' ∧ sinks σ' = _)).
    wp_go; split; try lia; done.
  - rewrite sinks_io_Write.
    apply (wp_run _ (λ _ σ', b < nextB σ' ∧ sinks σ' = _)).
    wp_go; split; try lia; done.
  - rewrite Builder_AddObjectFunc_preadd_fails
      by (unfold eval; by rewrite Builder_preadd_closed).
    unfold exec at 1 2. rewrite Builder_preadd_closed by done. apply Hmod.
  - rewrite Builder_AddListFunc_preadd_fails
      by (unfold eval; by rewrite Builder_preadd_closed).
    unfold exec at 1 2. rewrite Builder_preadd_closed by done. apply Hmod.
  - rewrite Builder_Close_closed by done. apply Hmod.
Qed.

Lemma Builder_Close_writes_closed (b : nat) (σ : world) :
  Builder.state (builders σ !!! b) = closedState →
  Builder_Close_writes b σ = false.
Proof. unfold Builder_Close_writes. by intros ->. Qed.

Lemma Builder_calls_on_closed Marshal (b : nat) (ops : list BuilderOp)
    (σ : world) :
  b < nextB σ →
  Builder.state (builders σ !!! b) = closedState →
  let σ' := exec (Builder_calls Marshal b ops) σ in
  Builder.state (builders σ' !!! b) = closedState ∧
  b < nextB σ' ∧
  Builder_closing_writes Marshal b ops σ = 0 ∧
  (Forall (λ op, constructs_child_B op = false) ops → sinks σ' = sinks σ).
Proof.
  revert σ. induction ops as [|op ops IH]; intros σ Hb H; cbv zeta.
  - by split_and!.
  - cbn [Builder_calls Builder_closing_writes]. rewrite exec_bind.
    destruct (Builder_call_closed Marshal b op σ Hb H) as [H' _].
    destruct (Builder_call_on_closed Marshal b op σ Hb H) as [Hb' HS].
    destruct (IH _ Hb' H') as (H'' & Hb'' & Hn & HS').
    rewrite Hn, Builder_Close_writes_closed by done.
    split_and!; [done|done|by destruct op|].
    intros Hops. apply Forall_cons in Hops as [Hop Hops].
    rewrite HS' by done. rewrite HS. by destruct op.
Qed.

(** [checkSub] writes nothing and leaves the state alone. *)
Lemma Builder_checkSub_keeps (b : nat) (σ : world) :
  let σ' := exec (Builder_checkSub b) σ in
  sinks σ' = sinks σ ∧
  Builder.state (builders σ' !!! b) = Builder.state (builders σ !!! b).
Proof.
  cbv zeta. split.
  - apply (wp_run _ (λ _ σ', sinks σ' = sinks σ)). wp_go; done.
  - apply (wp_run _ (λ _ σ', Builder.state (builders σ' !!! b) =
                             Builder.state (builders σ !!! b))).
    wp_go; done.
Qed.

Lemma child_fine_or_pending (sub : option builderCommon) (σ : world) :
  child_fine sub σ ∨ ∃ c, sub = Some c ∧ child_pending c σ.
Proof.
  destruct sub as [c|]; [|by left].
  unfold child_fine, child_pending.
  destruct (eval (builderCommon_err c) σ) as [e|] eqn:E1.
  { right. exists c. split; [done|]. left. by rewrite E1. }
  destruct (eval (builderCommon_closed c) σ) eqn:E2; [by left|].
  right. exists c. split; [done|]. by right.
Qed.

Lemma child_fine_not_pending (c : builderCommon) (σ : world) :
  child_fine (Some c) σ → child_pending c σ → False.
Proof.
  unfold child_fine, child_pending. intros [H1 H2] [H|H]; congruence.
Qed.

Lemma Builder_checkSub_fine (b : nat) (σ : world) :
  Builder.Err (builders σ !!! b) = None →
  child_fine (Builder.subB (builders σ !!! b)) σ →
  eval (Builder_checkSub b) σ = None.
Proof.
  intros HE Hf. apply (wp_run _ (λ a _, a = None)).
  destruct (Builder.subB (builders σ !!! b)) as [[p|p]|] eqn:Hs;
    unfold child_fine, eval, builderCommon_err, builderCommon_closed in Hf;
    simpl in Hf; [destruct Hf as [Hf1 Hf2]..|]; wp_go; done.
Qed.

Lemma Builder_Close_writes_iff (b : nat) (σ : world) :
  Builder_Close_writes b σ = true ↔
  Builder.state (builders σ !!! b) ≠ closedState ∧
  Builder.Err (builders σ !!! b) = None ∧
  child_fine (Builder.subB (builders σ !!! b)) σ.
Proof.
  unfold Builder_Close_writes. rewrite andb_true_iff, negb_true_iff, Z.eqb_neq.
  split.
  - intros [Hst Hc]. split; [done|].
    destruct (eval (Builder_checkSub b) σ) eqn:E; [done|].
    destruct (Builder.Err (builders σ !!! b)) eqn:HE.
    { exfalso. revert E. apply Builder_checkSub_fails. left. by rewrite HE. }
    split; [done|].
    destruct (child_fine_or_pending (Builder.subB (builders σ !!! b)) σ)
      as [Hf|(c & Hs & Hp)]; [done|].
    exfalso. revert E. apply Builder_checkSub_fails. right. by exists c.
  - intros (Hst & HE & Hf). split; [done|].
    by rewrite Builder_checkSub_fine.
Qed.

Lemma Builder_Close_writes_true (b : nat) (σ : world) :
  Builder_Close_writes b σ = true →
  let w := Builder.w (builders σ !!! b) in
  let σ' := exec (Builder_Close b) σ in
  sinks σ' = sinks (exec (io_Write w closeBraceBytes) σ) ∧
  Builder.state (builders σ' !!! b) = closedState ∧
  Builder.Err (builders σ' !!! b) = eval (io_Write w closeBraceBytes) σ ∧
  nextB σ' = nextB σ.
Proof.
  intros H. apply Builder_Close_writes_iff in H as (Hst & HE & Hf).
  cbv zeta. rewrite sinks_io_Write, eval_io_Write.
  pose proof (Zeqb_closed_false _ Hst) as E.
  apply (wp_run _ (λ _ σ', sinks σ' = _ ∧
    Builder.state (builders σ' !!! b) = closedState ∧
    Builder.Err (builders σ' !!! b) = _ ∧ nextB σ' = nextB σ)).
  unfold Builder_Close. wp_upto_preadd. apply wp_call. intros err σ1 Hc.
  pose proof (Builder_checkSub_fine b σ HE Hf) as He.
  pose proof (Builder_checkSub_returns_Err b σ) as HE1.
  pose proof (Builder_checkSub_keeps b σ) as (HS1 & Hst1).
  pose proof (Builder_frame_checkSub b σ) as (HnB & _ & _ & _ & Hw & _).
  rewrite (eval_of_run _ _ _ _ Hc) in He, HE1.
  rewrite (exec_of_run _ _ _ _ Hc) in HE1, HS1, Hst1, HnB, Hw.
  subst err. symmetry in HE1.
  rewrite <- Hw, <- HS1, <- HnB. wp_go; done.
Qed.

Lemma Builder_Close_writes_false (b : nat) (σ : world) :
  Builder_Close_writes b σ = false →
  let σ' := exec (Builder_Close b) σ in
  sinks σ' = sinks σ ∧
  Builder.state (builders σ' !!! b) = Builder.state (builders σ !!! b).
Proof.
  unfold Builder_Close_writes. intros H. cbv zeta.
  destruct (Z.eqb_spec (Builder.state (builders σ !!! b)) closedState)
    as [Hc|Hc].
  - rewrite Builder_Close_closed by done. unfold exec, modB. cbn.
    by rewrite lookup_total_insert_eq.
  - cbn in H. rewrite Builder_Close_open; [apply Builder_checkSub_keeps|done|].
    by destruct (eval (Builder_checkSub b) σ).
Qed.

(** No operation gives a pointer back, given that the builder functions
    give none back. *)
Lemma Builder_call_allocated Marshal (b : nat) (op : BuilderOp) (σ : world) :
  BuilderOp_allocates_only op →
  nextB σ ≤ nextB (exec (Builder_call Marshal b op) σ).
Proof.
  intros Hop.
  destruct op as [key v|args|key|key|key f|key f|]; cbn [Builder_call].
  - by destruct (Builder_frame_Add Marshal b key v σ) as (-> & _).
  - unfold Builder_AddAll. destruct (negb _); [done|].
    by destruct (Builder_frame_AddAll_loop Marshal b args 0 σ) as (-> & _).
  - apply (wp_run _ (λ _ σ', nextB σ ≤ nextB σ')).
    wp_upto_preadd. apply wp_call. intros err σ1 Hp.
    pose proof (Builder_frame_preadd Marshal b key σ) as (HnB & _).
    rewrite (exec_of_run _ _ _ _ Hp) in HnB. wp_go; lia.
  - apply (wp_run _ (λ _ σ', nextB σ ≤ nextB σ')).
    wp_upto_preadd. apply wp_call. intros err σ1 Hp.
    pose proof (Builder_frame_preadd Marshal b key σ) as (HnB & _).
    rewrite (exec_of_run _ _ _ _ Hp) in HnB. wp_go; lia.
  - apply (wp_run _ (λ _ σ', nextB σ ≤ nextB σ')).
    unfold Builder_AddObjectFunc. wp_step. apply wp_call. intros err σ1 Hp.
    pose proof (Builder_frame_preadd Marshal b key σ) as (HnB & _).
    rewrite (exec_of_run _ _ _ _ Hp) in HnB.
    destruct err; [apply wp_ret; lia|].
    wp_go.
    all: apply wp_call; intros ferr σ3 Hf.
    all: match type of Hf with ?g ?c ?s = _ =>
           destruct (Hop c s) as [Hf3 _]
         end.
    all: rewrite (exec_of_run _ _ _ _ Hf) in Hf3; cbn in Hf3.
    all: wp_upto_Close; apply wp_call; intros [] σ5 Hcl.
    all: match type of Hcl with Builder_Close ?c ?σ4 = _ =>
           pose proof (Builder_frame_Close c σ4) as (HnB5 & _);
           rewrite (exec_of_run _ _ _ _ Hcl) in HnB5
         end.
    all: cbn in HnB5; lia.
  - apply (wp_run _ (λ _ σ', nextB σ ≤ nextB σ')).
    unfold Builder_AddListFunc. wp_step. apply wp_call. intros err σ1 Hp.
    pose proof (Builder_frame_preadd Marshal b key σ) as (HnB & _).
    rewrite (exec_of_run _ _ _ _ Hp) in HnB.
    destruct err; [apply wp_ret; lia|].
    wp_go.
    all: apply wp_call; intros ferr σ3 Hf.
    all: match type of Hf with ?g ?c ?s = _ =>
           destruct (Hop c s) as [Hf3 _]
         end.
    all: rewrite (exec_of_run _ _ _ _ Hf) in Hf3; cbn in Hf3.
    all: wp_upto_Close; apply wp_call; intros [] σ5 Hcl.
    all: match type of Hcl with ListBuilder_Close ?c ?σ4 = _ =>
           pose proof (ListBuilder_frame_Close c σ4) as (HnB5 & _);
           rewrite (exec_of_run _ _ _ _ Hcl) in HnB5
         end.
    all: cbn in HnB5; lia.
  - by destruct (Builder_frame_Close b σ) as (-> & _).
Qed.

(** Over a run of calls at most one [Close] gets to its write. *)
Lemma Builder_closing_writes_once Marshal (b : nat) (ops : list BuilderOp)
    (σ : world) :
  b < nextB σ →
  Forall BuilderOp_allocates_only ops →
  Builder_closing_writes Marshal b ops σ ≤ 1.
Proof.
  intros Hb Hops. revert σ Hb.
  induction Hops as [|op ops Hop Hops IH]; intros σ Hb; [cbn; lia|].
  cbn [Builder_closing_writes].
  pose proof (Builder_call_allocated Marshal b op σ Hop) as Hn.
  assert (b < nextB (exec (Builder_call Marshal b op) σ)) as Hb' by lia.
  specialize (IH _ Hb').
  destruct op; cbv iota; try lia.
  destruct (Builder_Close_writes b σ) eqn:E; [|lia].
  destruct (Builder_Close_writes_true b σ E) as (_ & Hst & _).
  destruct (Builder_calls_on_closed Marshal b ops _ Hb' Hst)
    as (_ & _ & -> & _).
  done.
Qed.

Lemma Builder_AddAll_on_closed Marshal (b : nat) (σ : world) :
  Builder.state (builders σ !!! b) = closedState →
  (∀ key v rest,
     Builder.Err (builders σ !!! b) = None →
     List.length rest mod 2 = 0 →
     Builder.Err (builders (exec (Builder_AddAll Marshal b
                                    (VString key :: v :: rest)) σ) !!! b) =
       Some (errors_New "Builder mutated after Close()")) ∧
  exec (Builder_AddAll Marshal b []) σ = σ ∧
  (∀ args,
     Builder.Err (builders σ !!! b) ≠ None →
     List.length args mod 2 = 0 →
     exec (Builder_AddAll Marshal b args) σ = σ).
Proof.
  intros H. split_and!.
  - intros key v rest HE Hrest.
    rewrite Builder_AddAll_even by (by apply cons_cons_even).
    rewrite Builder_AddAll_loop_cons, Builder_Add_closed by done.
    rewrite Builder_AddAll_loop_stuck;
      unfold exec, modB; cbn; by rewrite lookup_total_insert_eq.
  - done.
  - intros args HE Hargs. rewrite Builder_AddAll_even by done.
    by apply Builder_AddAll_loop_stuck.
Qed.

Lemma NewBuilder_one_write (w : io_Writer) (σ : world) :
  sinks (exec (NewBuilder w) σ) = sinks (exec (io_Write w openBraceBytes) σ).
Proof.
  rewrite sinks_io_Write.
  apply (wp_run _ (λ _ σ', sinks σ' = _)). unfold NewBuilder. wp_go; done.
Qed.

Lemma NewListBuilder_one_write (w : io_Writer) (σ : world) :
  sinks (exec (NewListBuilder w) σ) =
  sinks (exec (io_Write w openBracketBytes) σ).
Proof.
  rewrite sinks_io_Write.
  apply (wp_run _ (λ _ σ', sinks σ' = _)). unfold NewListBuilder. wp_go; done.
Qed.

(** The same for a [ListBuilder]. *)
Lemma ListBuilder_AddAll_on_closed Marshal (b : nat) (σ : world) :
  ListBuilder.state (lists σ !!! b) = closedState →
  (∀ v rest,
     ListBuilder.Err (lists σ !!! b) = None →
     exec (ListBuilder_AddAll Marshal b (v :: rest)) σ =
     exec (modL b (ListBuilder.set_Err
                     (Some (errors_New "ListWriter mutated after Close()"))))
       σ) ∧
  exec (ListBuilder_AddAll Marshal b []) σ = σ ∧
  (∀ args,
     ListBuilder.Err (lists σ !!! b) ≠ None →
     exec (ListBuilder_AddAll Marshal b args) σ = σ).
Proof.
  intros H. split_and!.
  - intros v rest HE.
    rewrite ListBuilder_AddAll_cons, ListBuilder_Add_closed by done.
    apply ListBuilder_AddAll_stuck.
    unfold exec, modL. cbn. by rewrite lookup_total_insert_eq.
  - done.
  - intros args HE. by apply ListBuilder_AddAll_stuck.
Qed.

Lemma ListBuilder_call_on_closed Marshal (b : nat) (op : ListBuilderOp)
    (σ : world) :
  b < nextL σ →
  ListBuilder.state (lists σ !!! b) = closedState →
  let σ' := exec (ListBuilder_call Marshal b op) σ in
  b < nextL σ' ∧
  sinks σ' =
    if child_delimiter_L op is Some x
    then sinks (exec (io_Write (ListBuilder.w (lists σ !!! b)) x) σ)
    else sinks σ.
Proof.
  intros Hb H. cbv zeta.
  assert (∀ e, let σ' := exec (modL b (ListBuilder.set_Err e)) σ in
               b < nextL σ' ∧ sinks σ' = sinks σ) as Hmod by done.
  assert (eval (ListBuilder_preadd b) σ ≠ None) as Hpe
    by (unfold eval; by rewrite ListBuilder_preadd_closed).
  assert (exec (ListBuilder_preadd b) σ =
          exec (modL b (ListBuilder.set_Err
            (Some (errors_New "ListWriter mutated after Close()")))) σ)
    as Hpx by (unfold exec at 1; by rewrite ListBuilder_preadd_closed).
  destruct op as [v|args| | |f|f|];
    cbn [ListBuilder_call child_delimiter_L].
  - rewrite ListBuilder_Add_closed by done. apply Hmod.
  - destruct (ListBuilder.Err (lists σ !!! b)) eqn:HE.
    + rewrite ListBuilder_AddAll_stuck by (by rewrite HE). done.
    + destruct args as [|v rest]; [done|].
      rewrite (proj1 (ListBuilder_AddAll_on_closed Marshal b σ H)) by done.
      apply Hmod.
  - rewrite exec_bind. change (exec (mret tt) ?s) with s.
    rewrite ListBuilder_AddObject_preadd_fails, Hpx by done. apply Hmod.
  - rewrite sinks_io_Write.
    apply (wp_run _ (λ _ σ', b < nextL σ' ∧ sinks σ' = _)).
    wp_go; split; try lia; done.
  - rewrite ListBuilder_AddObjectFunc_preadd_fails, Hpx by done. apply Hmod.
  - rewrite ListBuilder_AddListFunc_preadd_fails, Hpx by done. apply Hmod.
  - rewrite ListBuilder_Close_closed by done. apply Hmod.
Qed.

Lemma ListBuilder_Close_writes_closed (b : nat) (σ : world) :
  ListBuilder.state (lists σ !!! b) = closedState →
  ListBuilder_Close_writes b σ = false.
Proof. unfold ListBuilder_Close_writes. by intros ->. Qed.

Lemma ListBuilder_calls_on_closed Marshal (b : nat)
    (ops : list ListBuilderOp) (σ : world) :
  b < nextL σ →
  ListBuilder.state (lists σ !!! b) = closedState →
  let σ' := exec (ListBuilder_calls Marshal b ops) σ in
  ListBuilder.state (lists σ' !!! b) = closedState ∧
  b < nextL σ' ∧
  ListBuilder_closing_writes Marshal b ops σ = 0 ∧
  (Forall (λ op, constructs_child_L op = false) ops → sinks σ' = sinks σ).
Proof.
  revert σ. induction ops as [|op ops IH]; intros σ Hb H; cbv zeta.
  - by split_and!.
  - cbn [ListBuilder_calls ListBuilder_closing_writes]. rewrite exec_bind.
    destruct (ListBuilder_call_closed Marshal b op σ Hb H) as [H' _].
    destruct (ListBuilder_call_on_closed Marshal b op σ Hb H) as [Hb' HS].
    destruct (IH _ Hb' H') as (H'' & Hb'' & Hn & HS').
    rewrite Hn, ListBuilder_Close_writes_closed by done.
    split_and!; [done|done|by destruct op|].
    intros Hops. apply Forall_cons in Hops as [Hop Hops].
    rewrite HS' by done. rewrite HS. by destruct op.
Qed.

Lemma ListBuilder_checkSub_keeps (b : nat) (σ : world) :
  let σ' := exec (ListBuilder_checkSub b) σ in
  sinks σ' = sinks σ ∧
  ListBuilder.state (lists σ' !!! b) = ListBuilder.state (lists σ !!! b).
Proof.
  cbv zeta. split.
  - apply (wp_run _ (λ _ σ', sinks σ' = sinks σ)). wp_go; done.
  - apply (wp_run _ (λ _ σ', ListBuilder.state (lists σ' !!! b) =
                             ListBuilder.state (lists σ !!! b))).
    wp_go; done.
Qed.

Lemma ListBuilder_checkSub_fine (b : nat) (σ : world) :
  ListBuilder.Err (lists σ !!! b) = None →
  child_fine (ListBuilder.subB (lists σ !!! b)) σ →
  eval (ListBuilder_checkSub b) σ = None.
Proof.
  intros HE Hf. apply (wp_run _ (λ a _, a = None)).
  destruct (ListBuilder.subB (lists σ !!! b)) as [[p|p]|] eqn:Hs;
    unfold child_fine, eval, builderCommon_err, builderCommon_closed in Hf;
    simpl in Hf; [destruct Hf as [Hf1 Hf2]..|]; wp_go; done.
Qed.

Lemma ListBuilder_Close_writes_iff (b : nat) (σ : world) :
  ListBuilder_Close_writes b σ = true ↔
  ListBuilder.state (lists σ !!! b) ≠ closedState ∧
  ListBuilder.Err (lists σ !!! b) = None ∧
  child_fine (ListBuilder.subB (lists σ !!! b)) σ.
Proof.
  unfold ListBuilder_Close_writes.
  rewrite andb_true_iff, negb_true_iff, Z.eqb_neq.
  split.
  - intros [Hst Hc]. split; [done|].
    destruct (eval (ListBuilder_checkSub b) σ) eqn:E; [done|].
    destruct (ListBuilder.Err (lists σ !!! b)) eqn:HE.
    { exfalso. revert E. apply ListBuilder_checkSub_fails. left.
      by rewrite HE. }
    split; [done|].
    destruct (child_fine_or_pending (ListBuilder.subB (lists σ !!! b)) σ)
      as [Hf|(c & Hs & Hp)]; [done|].
    exfalso. revert E. apply ListBuilder_checkSub_fails. right. by exists c.
  - intros (Hst & HE & Hf). split; [done|].
    by rewrite ListBuilder_checkSub_fine.
Qed.

Lemma ListBuilder_Close_writes_true (b : nat) (σ : world) :
  ListBuilder_Close_writes b σ = true →
  let w := ListBuilder.w (lists σ !!! b) in
  let σ' := exec (ListBuilder_Close b) σ in
  sinks σ' = sinks (exec (io_Write w closeBracketBytes) σ) ∧
  ListBuilder.state (lists σ' !!! b) = closedState ∧
  ListBuilder.Err (lists σ' !!! b) = eval (io_Write w closeBracketBytes) σ ∧
  nextL σ' = nextL σ.
Proof.
  intros H. apply ListBuilder_Close_writes_iff in H as (Hst & HE & Hf).
  cbv zeta. rewrite sinks_io_Write, eval_io_Write.
  pose proof (Zeqb_closed_false _ Hst) as E.
  apply (wp_run _ (λ _ σ', sinks σ' = _ ∧
    ListBuilder.state (lists σ' !!! b) = closedState ∧
    ListBuilder.Err (lists σ' !!! b) = _ ∧ nextL σ' = nextL σ)).
  unfold ListBuilder_Close. wp_upto_preadd. apply wp_call. intros err σ1 Hc.
  pose proof (ListBuilder_checkSub_fine b σ HE Hf) as He.
  pose proof (ListBuilder_checkSub_returns_Err b σ) as HE1.
  pose proof (ListBuilder_checkSub_keeps b σ) as (HS1 & Hst1).
  pose proof (ListBuilder_frame_checkSub b σ) as (_ & HnL & _ & _ & Hw & _).
  rewrite (eval_of_run _ _ _ _ Hc) in He, HE1.
  rewrite (exec_of_run _ _ _ _ Hc) in HE1, HS1, Hst1, HnL, Hw.
  subst err. symmetry in HE1.
  rewrite <- Hw, <- HS1, <- HnL. wp_go; done.
Qed.

Lemma ListBuilder_Close_writes_false (b : nat) (σ : world) :
  ListBuilder_Close_writes b σ = false →
  let σ' := exec (ListBuilder_Close b) σ in
  sinks σ' = sinks σ ∧
  ListBuilder.state (lists σ' !!! b) = ListBuilder.state (lists σ !!! b).
Proof.
  unfold ListBuilder_Close_writes. intros H. cbv zeta.
  destruct (Z.eqb_spec (ListBuilder.state (lists σ !!! b)) closedState)
    as [Hc|Hc].
  - rewrite ListBuilder_Close_closed by done. unfold exec, modL. cbn.
    by rewrite lookup_total_insert_eq.
  - cbn in H.
    rewrite ListBuilder_Close_open; [apply ListBuilder_checkSub_keeps|done|].
    by destruct (eval (ListBuilder_checkSub b) σ).
Qed.

Lemma ListBuilder_call_allocated Marshal (b : nat) (op : ListBuilderOp)
    (σ : world) :
  ListBuilderOp_allocates_only op →
  nextL σ ≤ nextL (exec (ListBuilder_call Marshal b op) σ).
Proof.
  intros Hop.
  destruct op as [v|args| | |f|f|]; cbn [ListBuilder_call].
  - by destruct (ListBuilder_frame_Add Marshal b v σ) as (_ & -> & _).
  - by destruct (ListBuilder_frame_AddAll Marshal b args σ) as (_ & -> & _).
  - apply (wp_run _ (λ _ σ', nextL σ ≤ nextL σ')).
    wp_upto_preadd. apply wp_call. intros err σ1 Hp.
    pose proof (ListBuilder_frame_preadd b σ) as (_ & HnL & _).
    rewrite (exec_of_run _ _ _ _ Hp) in HnL. wp_go; lia.
  - apply (wp_run _ (λ _ σ', nextL σ ≤ nextL σ')).
    wp_upto_preadd. apply wp_call. intros err σ1 Hp.
    pose proof (ListBuilder_frame_preadd b σ) as (_ & HnL & _).
    rewrite (exec_of_run _ _ _ _ Hp) in HnL. wp_go; lia.
  - apply (wp_run _ (λ _ σ', nextL σ ≤ nextL σ')).
    unfold ListBuilder_AddObjectFunc. wp_step. apply wp_call.
    intros err σ1 Hp.
    pose proof (ListBuilder_frame_preadd b σ) as (_ & HnL & _).
    rewrite (exec_of_run _ _ _ _ Hp) in HnL.
    destruct err; [apply wp_ret; lia|].
    wp_go.
    all: apply wp_call; intros ferr σ3 Hf.
    all: match type of Hf with ?g ?c ?s = _ =>
           destruct (Hop c s) as [_ Hf3]
         end.
    all: rewrite (exec_of_run _ _ _ _ Hf) in Hf3; cbn in Hf3.
    all: wp_upto_Close; apply wp_call; intros [] σ5 Hcl.
    all: match type of Hcl with Builder_Close ?c ?σ4 = _ =>
           pose proof (Builder_frame_Close c σ4) as (_ & HnL5 & _);
           rewrite (exec_of_run _ _ _ _ Hcl) in HnL5
         end.
    all: cbn in HnL5; lia.
  - apply (wp_run _ (λ _ σ', nextL σ ≤ nextL σ')).
    unfold ListBuilder_AddListFunc. wp_step. apply wp_call.
    intros err σ1 Hp.
    pose proof (ListBuilder_frame_preadd b σ) as (_ & HnL & _).
    rewrite (exec_of_run _ _ _ _ Hp) in HnL.
    destruct err; [apply wp_ret; lia|].
    wp_go.
    all: apply wp_call; intros ferr σ3 Hf.
    all: match type of Hf with ?g ?c ?s = _ =>
           destruct (Hop c s) as [_ Hf3]
         end.
    all: rewrite (exec_of_run _ _ _ _ Hf) in Hf3; cbn in Hf3.
    all: wp_upto_Close; apply wp_call; intros [] σ5 Hcl.
    all: match type of Hcl with ListBuilder_Close ?c ?σ4 = _ =>
           pose proof (ListBuilder_frame_Close c σ4) as (_ & HnL5 & _);
           rewrite (exec_of_run _ _ _ _ Hcl) in HnL5
         end.
    all: cbn in HnL5; lia.
  - by destruct (ListBuilder_frame_Close b σ) as (_ & -> & _).
Qed.

Lemma ListBuilder_closing_writes_once Marshal (b : nat)
    (ops : list ListBuilderOp) (σ : world) :
  b < nextL σ →
  Forall ListBuilderOp_allocates_only ops →
  ListBuilder_closing_writes Marshal b ops σ ≤ 1.
Proof.
  intros Hb Hops. revert σ Hb.
  induction Hops as [|op ops Hop Hops IH]; intros σ Hb; [cbn; lia|].
  cbn [ListBuilder_closing_writes].
  pose proof (ListBuilder_call_allocated Marshal b op σ Hop) as Hn.
  assert (b < nextL (exec (ListBuilder_call Marshal b op) σ)) as Hb' by lia.
  specialize (IH _ Hb').
  destruct op; cbv iota; try lia.
  destruct (ListBuilder_Close_writes b σ) eqn:E; [|lia].
  destruct (ListBuilder_Close_writes_true b σ E) as (_ & Hst & _).
  destruct (ListBuilder_calls_on_closed Marshal b ops _ Hb' Hst)
    as (_ & _ & -> & _).
  done.
Qed.

(** C6, as the code has it.  On a closed writer every operation other
    than [AddAll] leaves a mutated-after-close error in [Err]; [AddAll]
    leaves one when its loop gets to an [Add], and does nothing when it
    has no arguments or [Err] is not nil.  Every operation leaves a
    closed writer closed, and none writes, except that the operations
    that construct a child whatever [preadd] returned still write the
    child's opening delimiter; so over any run of calls on a closed
    writer.  The constructor makes one write, the opening delimiter.  A
    [Close] gets to its write exactly when the writer is not closed, has
    no error and its child, if any, is closed without error: it then
    makes one write, the closing delimiter, and closes the writer;
    otherwise it writes nothing and leaves the state as it was.  Hence
    over a run of calls at most one [Close] writes. *)
Theorem C6_closed_writer (Marshal : value → list byte * option error) :
  (∀ b op σ, b < nextB σ →
     Builder.state (builders σ !!! b) = closedState →
     let σ' := exec (Builder_call Marshal b op) σ in
     Builder.state (builders σ' !!! b) = closedState ∧
     b < nextB σ' ∧
     (is_AddAll_B op = false →
      mutated_after_close (Builder.Err (builders σ' !!! b))) ∧
     sinks σ' =
       if child_delimiter_B op is Some x
       then sinks (exec (io_Write (Builder.w (builders σ !!! b)) x) σ)
       else sinks σ) ∧
  (∀ b σ, Builder.state (builders σ !!! b) = closedState →
     (∀ key v rest,
        Builder.Err (builders σ !!! b) = None →
        List.length rest mod 2 = 0 →
        Builder.Err (builders (exec (Builder_AddAll Marshal b
                                       (VString key :: v :: rest)) σ) !!! b) =
          Some (errors_New "Builder mutated after Close()")) ∧
     exec (Builder_AddAll Marshal b []) σ = σ ∧
     (∀ args,
        Builder.Err (builders σ !!! b) ≠ None →
        List.length args mod 2 = 0 →
        exec (Builder_AddAll Marshal b args) σ = σ)) ∧
  (∀ b ops σ, b < nextB σ →
     Builder.state (builders σ !!! b) = closedState →
     let σ' := exec (Builder_calls Marshal b ops) σ in
     Builder.state (builders σ' !!! b) = closedState ∧
     b < nextB σ' ∧
     Builder_closing_writes Marshal b ops σ = 0 ∧
     (Forall (λ op, constructs_child_B op = false) ops →
      sinks σ' = sinks σ)) ∧
  (∀ w σ,
     sinks (exec (NewBuilder w) σ) =
     sinks (exec (io_Write w openBraceBytes) σ)) ∧
  (∀ b σ,
     let w := Builder.w (builders σ !!! b) in
     let σ' := exec (Builder_Close b) σ in
     (Builder_Close_writes b σ = true ↔
      Builder.state (builders σ !!! b) ≠ closedState ∧
      Builder.Err (builders σ !!! b) = None ∧
      child_fine (Builder.subB (builders σ !!! b)) σ) ∧
     (Builder_Close_writes b σ = true →
      sinks σ' = sinks (exec (io_Write w closeBraceBytes) σ) ∧
      Builder.state (builders σ' !!! b) = closedState ∧
      Builder.Err (builders σ' !!! b) =
        eval (io_Write w closeBraceBytes) σ) ∧
     (Builder_Close_writes b σ = false →
      sinks σ' = sinks σ ∧
      Builder.state (builders σ' !!! b) =
        Builder.state (builders σ !!! b))) ∧
  (∀ b ops σ, b < nextB σ →
     Forall BuilderOp_allocates_only ops →
     Builder_closing_writes Marshal b ops σ ≤ 1) ∧
  (∀ b op σ, b < nextL σ →
     ListBuilder.state (lists σ !!! b) = closedState →
     let σ' := exec (ListBuilder_call Marshal b op) σ in
     ListBuilder.state (lists σ' !!! b) = closedState ∧
     b < nextL σ' ∧
     (is_AddAll_L op = false →
      mutated_after_close (ListBuilder.Err (lists σ' !!! b))) ∧
     sinks σ' =
       if child_delimiter_L op is Some x
       then sinks (exec (io_Write (ListBuilder.w (lists σ !!! b)) x) σ)
       else sinks σ) ∧
  (∀ b σ, ListBuilder.state (lists σ !!! b) = closedState →
     (∀ v rest,
        ListBuilder.Err (lists σ !!! b) = None →
        exec (ListBuilder_AddAll Marshal b (v :: rest)) σ =
        exec (modL b (ListBuilder.set_Err
                (Some (errors_New "ListWriter mutated after Close()")))) σ) ∧
     exec (ListBuilder_AddAll Marshal b []) σ = σ ∧
     (∀ args,
        ListBuilder.Err (lists σ !!! b) ≠ None →
        exec (ListBuilder_AddAll Marshal b args) σ = σ)) ∧
  (∀ b ops σ, b < nextL σ →
     ListBuilder.state (lists σ !!! b) = closedState →
     let σ' := exec (ListBuilder_calls Marshal b ops) σ in
     ListBuilder.state (lists σ' !!! b) = closedState ∧
     b < nextL σ' ∧
     ListBuilder_closing_writes Marshal b ops σ = 0 ∧
     (Forall (λ op, constructs_child_L op = false) ops →
      sinks σ' = sinks σ)) ∧
  (∀ w σ,
     sinks (exec (NewListBuilder w) σ) =
     sinks (exec (io_Write w openBracketBytes) σ)) ∧
  (∀ b σ,
     let w := ListBuilder.w (lists σ !!! b) in
     let σ' := exec (ListBuilder_Close b) σ in
     (ListBuilder_Close_writes b σ = true ↔
      ListBuilder.state (lists σ !!! b) ≠ closedState ∧
      ListBuilder.Err (lists σ !!! b) = None ∧
      child_fine (ListBuilder.subB (lists σ !!! b)) σ) ∧
     (ListBuilder_Close_writes b σ = true →
      sinks σ' = sinks (exec (io_Write w closeBracketBytes) σ) ∧
      ListBuilder.state (lists σ' !!! b) = closedState ∧
      ListBuilder.Err (lists σ' !!! b) =
        eval (io_Write w closeBracketBytes) σ) ∧
     (ListBuilder_Close_writes b σ = false →
      sinks σ' = sinks σ ∧
      ListBuilder.state (lists σ' !!! b) =
        ListBuilder.state (lists σ !!! b))) ∧
  (∀ b ops σ, b < nextL σ →
     Forall ListBuilderOp_allocates_only ops →
     ListBuilder_closing_writes Marshal b ops σ ≤ 1).
Proof.
  split_and!.
  - intros b op σ Hb H. cbv zeta.
    destruct (Builder_call_closed Marshal b op σ Hb H) as [H1 H2].
    destruct (Builder_call_on_closed Marshal b op σ Hb H) as [H3 H4].
    by split_and!.
  - intros b σ. apply Builder_AddAll_on_closed.
  - intros b ops σ. apply Builder_calls_on_closed.
  - apply NewBuilder_one_write.
  - intros b σ. cbv zeta. split_and!.
    + apply Builder_Close_writes_iff.
    + intros H.
      destruct (Builder_Close_writes_true b σ H) as (? & ? & ? & _). done.
    + apply Builder_Close_writes_false.
  - intros b ops σ. apply Builder_closing_writes_once.
  - intros b op σ Hb H. cbv zeta.
    destruct (ListBuilder_call_closed Marshal b op σ Hb H) as [H1 H2].
    destruct (ListBuilder_call_on_closed Marshal b op σ Hb H) as [H3 H4].
    by split_and!.
  - intros b σ. apply ListBuilder_AddAll_on_closed.
  - intros b ops σ. apply ListBuilder_calls_on_closed.
  - apply NewListBuilder_one_write.
  - intros b σ. cbv zeta. split_and!.
    + apply ListBuilder_Close_writes_iff.
    + intros H.
      destruct (ListBuilder_Close_writes_true b σ H) as (? & ? & ? & _). done.
    + apply ListBuilder_Close_writes_false.
  - intros b ops σ. apply ListBuilder_closing_writes_once.
Qed.

Lemma C6_closed_writer_witness :
  let σ := exec (j ← NewBuilder 0; Builder_Close j) empty_world in
  let σ2 := exec (Builder_call json_Marshal 0 BClose) σ in
  let σ3 := exec (Builder_call json_Marshal 0 (BAddObject "k")) σ in
  let run := [BAdd "a" (VInt 1); BClose; BAddObjectFunc "f" test_f; BClose] in
  0 < nextB σ ∧
  Builder.state (builders σ !!! 0) = closedState ∧
  Builder.state (builders σ2 !!! 0) = closedState ∧
  mutated_after_close (Builder.Err (builders σ2 !!! 0)) ∧
  output 0 σ2 = bytes "{}" ∧
  output 0 σ3 = bytes "{}{" ∧
  output 0 (exec (Builder_calls json_Marshal 0 run) σ) = bytes "{}" ∧
  Builder_closing_writes json_Marshal 0
    [BAdd "a" (VInt 1); BClose; BAdd "b" (VInt 2); BClose]
    (exec (NewBuilder 0) empty_world) ≤ 1.
Proof.
  cbv zeta.
  set (σ := exec (j ← NewBuilder 0; Builder_Close j) empty_world).
  assert (0 < nextB σ) as Hb by (vm_compute; lia).
  assert (Builder.state (builders σ !!! 0) = closedState) as Hc
    by (vm_compute; reflexivity).
  destruct (C6_closed_writer json_Marshal)
    as (Hop & _ & Hrun & _ & _ & Hlife & _).
  destruct (Hop 0 BClose σ Hb Hc) as (Hst2 & _ & Hmut2 & HS2).
  destruct (Hop 0 (BAddObject "k") σ Hb Hc) as (_ & _ & _ & HS3).
  destruct (Hrun 0 [BAdd "a" (VInt 1); BClose; BAddObjectFunc "f" test_f;
                    BClose] σ Hb Hc) as (_ & _ & _ & HSr).
  split_and!; [exact Hb|exact Hc|exact Hst2|by apply Hmut2| | | |].
  - unfold output. cbn [child_delimiter_B] in HS2. rewrite HS2. reflexivity.
  - unfold output. cbn [child_delimiter_B] in HS3. rewrite HS3.
    vm_compute. reflexivity.
  - unfold output. rewrite HSr by (repeat constructor). reflexivity.
  - apply Hlife; [vm_compute; lia|]. repeat constructor.
Defined.

(** C6 as stated fails for [AddAll]: called without arguments on a closed
    writer it records nothing. *)
Lemma C6_counterexample :
  let σ := exec (j ← NewListBuilder 0; ListBuilder_Close j) empty_world in
  let σ' := exec (ListBuilder_call json_Marshal 0 (LAddAll [])) σ in
  ListBuilder.state (lists σ !!! 0) = closedState ∧
  ListBuilder.Err (lists σ' !!! 0) = None ∧
  ¬ mutated_after_close (ListBuilder.Err (lists σ' !!! 0)).
Proof.
  cbv zeta. split_and!; [vm_compute; reflexivity..|].
  intros [who H]. vm_compute in H. discriminate H.
Qed.
